(** * release-pilot: conventional-commit parsing, bump policy, version
      arithmetic, changelog rendering and tagging

    A shallow embedding of [parser.js], [bumper.js], [changelog.js] and
    [tagger.js].  JavaScript strings are sequences of UTF-16 code units
    and are modelled as lists of code units; the external collaborators
    (git, the file system, the clock) are fields of an explicit [World]
    that the effectful functions thread. *)

From Stdlib Require Import List NArith ZArith Bool Ascii Lia.
From Stdlib Require Import Sorting.Permutation Sorting.Sorted.
From Stdlib Require String.
Import ListNotations String.StringSyntax.

Abbreviation string := String.string.
Local Open Scope string_scope.
Local Open Scope list_scope.

Set Implicit Arguments.

(* ================================================================== *)
(** * JavaScript strings *)
(* ================================================================== *)

Module JS.

(** A string is a list of UTF-16 code units. *)
Definition jsstring := list N.

(** Reading an ASCII literal as a JavaScript string. *)
Definition js (s : string) : jsstring :=
  map N_of_ascii (String.list_ascii_of_string s).

(** Strict equality [===] of two strings. *)
Fixpoint streq (a b : jsstring) : bool :=
  match a, b with
  | [], [] => true
  | x :: a', y :: b' => (x =? y)%N && streq a' b'
  | _, _ => false
  end.

(** Truthiness of a string: every string but the empty one. *)
Definition truthy (s : jsstring) : bool :=
  match s with [] => false | _ :: _ => true end.

(** Truthiness of a value that is a string, [null] or [undefined]. *)
Definition truthy_opt (v : option jsstring) : bool :=
  match v with Some s => truthy s | None => false end.

Section CodeUnits.
Local Open Scope N_scope.

(** ECMAScript [LineTerminator]: LF, CR, LS, PS. *)
Definition isLineTerminator (c : N) : bool :=
  (c =? 10) || (c =? 13) || (c =? 8232) || (c =? 8233).

(** ECMAScript [WhiteSpace]: TAB, VT, FF, ZWNBSP and the Unicode
    space separators (category Zs). *)
Definition isWhiteSpace (c : N) : bool :=
  (c =? 9) || (c =? 11) || (c =? 12) || (c =? 32) || (c =? 160)
  || (c =? 5760) || ((8192 <=? c) && (c <=? 8202))
  || (c =? 8239) || (c =? 8287) || (c =? 12288) || (c =? 65279).

(** What [String.prototype.trim] strips and what [\s] matches. *)
Definition isSpace (c : N) : bool := isWhiteSpace c || isLineTerminator c.

Definition isLower (c : N) : bool := (97 <=? c) && (c <=? 122).
Definition isUpper (c : N) : bool := (65 <=? c) && (c <=? 90).
Definition isDigit (c : N) : bool := (48 <=? c) && (c <=? 57).

(** [toLowerCase] on the ASCII letters; a code unit that is no ASCII
    capital is left as it is.  The parser applies it to the capture of
    [[a-z]+] only. *)
Definition lowerUnit (c : N) : N := if isUpper c then c + 32 else c.

(** [Canonicalize] of a case-insensitive, non-unicode regular
    expression, as far as a comparison with an ASCII pattern character
    needs it: a code unit of 128 or more never canonicalizes to one
    below 128. *)
Definition canonicalize (c : N) : N := if isLower c then c - 32 else c.

End CodeUnits.

Definition toLowerCase (s : jsstring) : jsstring := map lowerUnit s.

(** [String.prototype.trim]. *)
Fixpoint trimStart (s : jsstring) : jsstring :=
  match s with
  | c :: t => if isSpace c then trimStart t else s
  | [] => []
  end.

Definition trimEnd (s : jsstring) : jsstring := rev (trimStart (rev s)).

Definition trim (s : jsstring) : jsstring := trimEnd (trimStart s).

(** [s.split(sep)] for a separator of one code unit. *)
Fixpoint splitOn (sep : N) (s : jsstring) : list jsstring :=
  match s with
  | [] => [[]]
  | c :: t =>
      if (c =? sep)%N then [] :: splitOn sep t
      else match splitOn sep t with
           | h :: r => (c :: h) :: r
           | [] => [[c]]
           end
  end.

(** [s.startsWith(p)]. *)
Fixpoint startsWith (p s : jsstring) : bool :=
  match p, s with
  | [], _ => true
  | x :: p', y :: s' => (x =? y)%N && startsWith p' s'
  | _ :: _, [] => false
  end.

(** [s.split(sep)] for a separator string that is not empty. *)
Fixpoint splitAt (fuel : nat) (sep s : jsstring) : list jsstring :=
  match fuel with
  | O => [s]
  | S fuel' =>
      match s with
      | [] => [[]]
      | c :: t =>
          if startsWith sep s
          then [] :: splitAt fuel' sep (skipn (length sep) s)
          else match splitAt fuel' sep t with
               | h :: r => (c :: h) :: r
               | [] => [[c]]
               end
      end
  end.

Definition split (sep s : jsstring) : list jsstring :=
  splitAt (S (length s)) sep s.

(** [lines.join(sep)]. *)
Fixpoint join (sep : jsstring) (parts : list jsstring) : jsstring :=
  match parts with
  | [] => []
  | [p] => p
  | p :: rest => p ++ sep ++ join sep rest
  end.

(** [s.slice(0, n)]. *)
Definition slice0 (n : nat) (s : jsstring) : jsstring := firstn n s.

(** [s.replace(/^v/, '')]: one leading [v] is removed. *)
Definition stripLeadingV (s : jsstring) : jsstring :=
  match s with
  | c :: t => if (c =? 118)%N then t else s
  | [] => []
  end.

(** What a call does: it returns, it throws, or it returns a value
    that the model of IEEE-754 doubles below does not track.  The
    program goes on with such a value and the model does not: where a
    run is [Untracked], the state given with it is the state at that
    point, and says nothing of what the program does from there on. *)
Inductive outcome (A : Type) : Type :=
| Returned (a : A)
| Thrown (message : jsstring)
| Untracked.

Arguments Thrown {A} message.
Arguments Untracked {A}.

Definition bind {A B} (m : outcome A) (f : A -> outcome B) : outcome B :=
  match m with
  | Returned a => f a
  | Thrown e => Thrown e
  | Untracked => Untracked
  end.

Definition throws {A} (m : outcome A) : bool :=
  match m with Thrown _ => true | _ => false end.

End JS.
Export JS.

Notation "x <- m ;; f" := (bind m (fun x => f))
  (at level 61, m at next level, right associativity).

(* ================================================================== *)
(** * Regular expressions: a backtracking matcher *)
(* ================================================================== *)

Module Regex.

(** The constructs the two patterns of [parser.js] use.  Repetition is
    over a character class only, and greedy. *)
Inductive regex : Type :=
| Chr (c : N)                       (* a literal code unit *)
| Cls (p : N -> bool)               (* a character class *)
| Star (p : N -> bool)              (* [p*] *)
| Plus (p : N -> bool)              (* [p+] *)
| Opt (r : regex)                   (* [r?] *)
| Seq (r1 r2 : regex)
| Grp (name : string) (r : regex)   (* [(?<name>r)] *)
| Bol                               (* [^], no [m] flag *)
| Eol.                              (* [$], no [m] flag *)

(** The named groups that took part in a match, latest first. *)
Definition captures := list (string * jsstring).

Definition cont := nat -> jsstring -> captures -> option captures.

(** Greedy repetition of a class: the longest run first, then each
    shorter one. *)
Fixpoint m_star (p : N -> bool) (i : nat) (s : jsstring) (g : captures)
    (k : cont) : option captures :=
  match s with
  | c :: t =>
      if p c
      then match m_star p (S i) t g k with
           | Some out => Some out
           | None => k i s g
           end
      else k i s g
  | [] => k i s g
  end.

(** [m r i s g k]: match [r] at index [i], where [s] is the input from
    [i] on, then continue with [k]. *)
Fixpoint m (r : regex) (i : nat) (s : jsstring) (g : captures) (k : cont)
    : option captures :=
  match r with
  | Chr c =>
      match s with
      | x :: t => if (x =? c)%N then k (S i) t g else None
      | [] => None
      end
  | Cls p =>
      match s with
      | x :: t => if p x then k (S i) t g else None
      | [] => None
      end
  | Star p => m_star p i s g k
  | Plus p =>
      match s with
      | x :: t => if p x then m_star p (S i) t g k else None
      | [] => None
      end
  | Opt r' =>
      match m r' i s g k with
      | Some out => Some out
      | None => k i s g
      end
  | Seq r1 r2 => m r1 i s g (fun i' s' g' => m r2 i' s' g' k)
  | Grp name r' =>
      m r' i s g (fun i' s' g' => k i' s' ((name, firstn (i' - i) s) :: g'))
  | Bol => match i with O => k i s g | S _ => None end
  | Eol => match s with [] => k i s g | _ :: _ => None end
  end.

Definition accept : cont := fun _ _ g => Some g.

(** The first start index at which the pattern matches. *)
Fixpoint search (r : regex) (i : nat) (s : jsstring) : option captures :=
  match m r i s [] accept with
  | Some g => Some g
  | None =>
      match s with
      | [] => None
      | _ :: t => search r (S i) t
      end
  end.

(** [s.match(r)] for a pattern without the [g] flag: the groups of the
    first match, or [null]. *)
Definition exec (r : regex) (s : jsstring) : option captures := search r 0 s.

(** [r.test(s)]. *)
Definition test (r : regex) (s : jsstring) : bool :=
  match exec r s with Some _ => true | None => false end.

(** [match.groups.name]: [None] is [undefined]. *)
Fixpoint group (name : string) (g : captures) : option jsstring :=
  match g with
  | [] => None
  | (n, v) :: g' => if String.eqb n name then Some v else group name g'
  end.

(** A literal under the [i] flag. *)
Definition ChrI (c : N) : regex :=
  Cls (fun x => (canonicalize x =? canonicalize c)%N).

(** A literal string, and one under the [i] flag. *)
Fixpoint Lit (s : jsstring) (rest : regex) : regex :=
  match s with
  | [] => rest
  | c :: s' => Seq (Chr c) (Lit s' rest)
  end.

Fixpoint LitI (s : jsstring) (rest : regex) : regex :=
  match s with
  | [] => rest
  | c :: s' => Seq (ChrI c) (LitI s' rest)
  end.

End Regex.
Export Regex.

Infix "+>" := Seq (at level 60, right associativity).

(* ================================================================== *)
(** * parser.js *)
(* ================================================================== *)

Module Parser.

(** [[^)]]: any code unit but the closing parenthesis. *)
Definition notRParen (c : N) : bool := negb (c =? 41)%N.

(** [.] without the [s] flag: any code unit but a line terminator. *)
Definition isDot (c : N) : bool := negb (isLineTerminator c).

(** [/^(?<type>[a-z]+)(?:\((?<scope>[^)]+)\))?(?<breaking>!)?\s*:\s*(?<description>.+)$/] *)
Definition COMMIT_PATTERN : regex :=
  Bol
  +> Grp "type" (Plus isLower)
  +> Opt (Chr 40 +> Grp "scope" (Plus notRParen) +> Chr 41)
  +> Opt (Grp "breaking" (Chr 33))
  +> Star isSpace +> Chr 58 +> Star isSpace
  +> Grp "description" (Plus isDot)
  +> Eol.

(** [/BREAKING CHANGE[:\s]/i] *)
Definition BREAKING_BODY_PATTERN : regex :=
  LitI (js "BREAKING CHANGE") (Cls (fun c => (c =? 58)%N || isSpace c)).

(** A parsed commit, with the field names of the object [parseCommit]
    returns; [scope] is a string or [null]. *)
Record Commit : Type := mkCommit {
  hash : jsstring;
  type : jsstring;
  scope : option jsstring;
  description : jsstring;
  body : jsstring;
  breaking : bool;
  raw : jsstring
}.

(** [parts[i] || '']. *)
Definition part (i : nat) (parts : list jsstring) : jsstring := nth i parts [].

(** The trimmed subject of a raw record ["hash\x00subject\x00body"]. *)
Definition subjectOf (rawCommit : jsstring) : jsstring :=
  trim (part 1 (splitOn 0 rawCommit)).

Definition bodyOf (rawCommit : jsstring) : jsstring :=
  trim (part 2 (splitOn 0 rawCommit)).

Definition hashOf (rawCommit : jsstring) : jsstring :=
  trim (part 0 (splitOn 0 rawCommit)).

(** Calling a method on a group that did not take part in the match
    is a [TypeError]. *)
Definition method (v : option jsstring) : outcome jsstring :=
  match v with
  | Some s => Returned s
  | None => Thrown (js "TypeError: Cannot read properties of undefined")
  end.

(** [parseCommit(raw)]: [Returned None] is the [null] result. *)
Definition parseCommit (rawCommit : jsstring) : outcome (option Commit) :=
  let parts := splitOn 0 rawCommit in
  let hash := trim (part 0 parts) in
  let subject := trim (part 1 parts) in
  let body := trim (part 2 parts) in
  if negb (truthy subject) then Returned None
  else
    match exec COMMIT_PATTERN subject with
    | None =>
        Returned (Some {| hash := hash;
                          type := js "other";
                          scope := None;
                          description := subject;
                          body := body;
                          breaking := false;
                          raw := subject |})
    | Some groups =>
        let isBreaking :=
          truthy_opt (group "breaking" groups)
          || test BREAKING_BODY_PATTERN body in
        type <- method (group "type" groups) ;;
        description <- method (group "description" groups) ;;
        Returned (Some {| hash := hash;
                          type := toLowerCase type;
                          scope := (if truthy_opt (group "scope" groups)
                                    then group "scope" groups else None);
                          description := trim description;
                          body := trim body;
                          breaking := isBreaking;
                          raw := subject |})
    end.

(** [rawCommits.map(parseCommit).filter(Boolean)]: the first exception
    ends the [map]. *)
Fixpoint parseCommits (rawCommits : list jsstring) : outcome (list Commit) :=
  match rawCommits with
  | [] => Returned []
  | r :: rest =>
      c <- parseCommit r ;;
      cs <- parseCommits rest ;;
      Returned (match c with Some c' => c' :: cs | None => cs end)
  end.

(** A property of the [COMMIT_TYPES] object: one of its own twelve,
    with a label and an order, or one it inherits from
    [Object.prototype], which is truthy and has neither. *)
Inductive property : Type :=
| Registered (label : jsstring) (order : Z)
| Inherited.

Definition COMMIT_TYPES : list (jsstring * (jsstring * Z)) :=
  [ (js "feat",     (js "Features",      0%Z));
    (js "fix",      (js "Bug Fixes",     1%Z));
    (js "perf",     (js "Performance",   2%Z));
    (js "refactor", (js "Refactoring",   3%Z));
    (js "docs",     (js "Documentation", 4%Z));
    (js "test",     (js "Tests",         5%Z));
    (js "ci",       (js "CI / CD",       6%Z));
    (js "chore",    (js "Chores",        7%Z));
    (js "build",    (js "Build System",  8%Z));
    (js "style",    (js "Style",         9%Z));
    (js "revert",   (js "Reverts",       10%Z));
    (js "other",    (js "Other Changes", 11%Z)) ].

(** The property names of [Object.prototype]. *)
Definition Object_prototype : list jsstring :=
  map js [ "constructor"; "hasOwnProperty"; "isPrototypeOf";
           "propertyIsEnumerable"; "toLocaleString"; "toString"; "valueOf";
           "__proto__"; "__defineGetter__"; "__defineSetter__";
           "__lookupGetter__"; "__lookupSetter__" ].

Fixpoint assoc {V} (k : jsstring) (l : list (jsstring * V)) : option V :=
  match l with
  | [] => None
  | (k', v) :: l' => if streq k' k then Some v else assoc k l'
  end.

(** [COMMIT_TYPES[key]]: an own property first, then the prototype;
    [None] is [undefined]. *)
Definition COMMIT_TYPES_get (key : jsstring) : option property :=
  match assoc key COMMIT_TYPES with
  | Some (label, order) => Some (Registered label order)
  | None => if existsb (streq key) Object_prototype then Some Inherited
            else None
  end.

(** [COMMIT_TYPES[key]?.order ?? 99]. *)
Definition orderOf (key : jsstring) : Z :=
  match COMMIT_TYPES_get key with
  | Some (Registered _ order) => order
  | _ => 99%Z
  end.

(** [COMMIT_TYPES[key]?.label ?? 'Other']. *)
Definition labelOf (key : jsstring) : jsstring :=
  match COMMIT_TYPES_get key with
  | Some (Registered label _) => label
  | _ => js "Other"
  end.

End Parser.
Export Parser.

(* ================================================================== *)
(** * JavaScript numbers *)
(* ================================================================== *)

Module Num.

(** The doubles the model tracks: [NaN], and every integer of magnitude
    at most 2^53, which a double holds exactly (the two zeros are one
    [Int 0]: the code only adds one to a number, tests it for [NaN] and
    prints it, and none of these tells them apart).  [Other] is any
    other double, finite or infinite; it is not [NaN]. *)
Inductive jsnum : Type :=
| NaN
| Int (z : Z)
| Other.

Definition isNaN (x : jsnum) : bool :=
  match x with NaN => true | _ => false end.

Definition two53 : Z := 2 ^ 53.

(** The double nearest to an integer, when the model tracks it. *)
Definition ofInteger (z : Z) : jsnum :=
  if (Z.abs z <=? two53)%Z then Int z else Other.

(** [x + 1] in double arithmetic: exact up to 2^53, and 2^53 + 1 is a
    tie that rounds to the even neighbour 2^53. *)
Definition add1 (x : jsnum) : jsnum :=
  match x with
  | NaN => NaN
  | Int z => if (z <? two53)%Z then Int (z + 1) else Int z
  | Other => Other
  end.

Definition negate (x : jsnum) : jsnum :=
  match x with
  | Int z => Int (- z)
  | _ => x
  end.

(** The decimal digits of a natural number, most significant first. *)
Fixpoint digitsOf (fuel : nat) (n : N) (acc : jsstring) : jsstring :=
  match fuel with
  | O => acc
  | S fuel' =>
      let acc' := (48 + n mod 10)%N :: acc in
      if (n / 10 =? 0)%N then acc' else digitsOf fuel' (n / 10)%N acc'
  end.

Definition decimal (n : N) : jsstring := digitsOf (S (N.to_nat (N.log2 n))) n [].

(** [String(x)] for a tracked number; an integer below 10^21 prints as
    its decimal digits. *)
Definition numToString (x : jsnum) : outcome jsstring :=
  match x with
  | NaN => Returned (js "NaN")
  | Int z => Returned (if (z <? 0)%Z then 45%N :: decimal (Z.to_N (- z))
                       else decimal (Z.to_N z))
  | Other => Untracked
  end.

(** The value of a run of digits in a base. *)
Definition digitValue (c : N) : Z :=
  if isDigit c then Z.of_N (c - 48)
  else if isLower c then Z.of_N (c - 87)
  else Z.of_N (c - 55).

Definition valueIn (base : Z) (ds : jsstring) : Z :=
  fold_left (fun acc c => (base * acc + digitValue c)%Z) ds 0%Z.

Definition isHexDigit (c : N) : bool :=
  isDigit c || ((97 <=? c) && (c <=? 102))%N || ((65 <=? c) && (c <=? 70))%N.
Definition isOctalDigit (c : N) : bool := ((48 <=? c) && (c <=? 55))%N.
Definition isBinaryDigit (c : N) : bool := ((48 <=? c) && (c <=? 49))%N.

(** The longest prefix of a class, and what follows it. *)
Fixpoint span (p : N -> bool) (s : jsstring) : jsstring * jsstring :=
  match s with
  | c :: t => if p c then let (a, b) := span p t in (c :: a, b) else ([], s)
  | [] => ([], [])
  end.

(** The double of [mant * 10^exp10] for a natural mantissa. *)
Definition ofDecimal (mant exp10 : Z) : jsnum :=
  if (mant =? 0)%Z then Int 0
  else if (0 <=? exp10)%Z then ofInteger (mant * 10 ^ exp10)
  else let d := (10 ^ (- exp10))%Z in
       if (mant mod d =? 0)%Z then ofInteger (mant / d) else Other.

(** [ExponentPart_opt] followed by the end of the literal: the
    exponent, or [None] when the rest is no exponent part. *)
Definition exponentPart (r : jsstring) : option Z :=
  match r with
  | [] => Some 0%Z
  | e :: r' =>
      if ((e =? 101) || (e =? 69))%N then
        let '(neg, ds) :=
          match r' with
          | sign :: x => if (sign =? 43)%N then (false, x)
                         else if (sign =? 45)%N then (true, x)
                         else (false, r')
          | [] => (false, r')
          end in
        if truthy ds && forallb isDigit ds
        then Some (if neg then (- valueIn 10 ds)%Z else valueIn 10 ds)
        else None
      else None
  end.

(** [StrUnsignedDecimalLiteral]. *)
Definition strUnsignedDecimalLiteral (s : jsstring) : jsnum :=
  if streq s (js "Infinity") then Other
  else
    let (ip, r) := span isDigit s in
    let '(fp, r') :=
      match r with
      | dot :: x => if (dot =? 46)%N then span isDigit x else ([], r)
      | [] => ([], r)
      end in
    if negb (truthy ip) && negb (truthy fp) then NaN
    else match exponentPart r' with
         | Some e => ofDecimal (valueIn 10 (ip ++ fp))
                               (e - Z.of_nat (length fp))
         | None => NaN
         end.

(** [NonDecimalIntegerLiteral]: [0x], [0o] and [0b] literals. *)
Definition nonDecimalIntegerLiteral (s : jsstring) : option jsnum :=
  match s with
  | zero :: p :: ds =>
      let lit (base : Z) (ok : N -> bool) :=
        Some (if truthy ds && forallb ok ds then ofInteger (valueIn base ds)
              else NaN) in
      if negb (zero =? 48)%N then None
      else if ((p =? 120) || (p =? 88))%N then lit 16%Z isHexDigit
      else if ((p =? 111) || (p =? 79))%N then lit 8%Z isOctalDigit
      else if ((p =? 98) || (p =? 66))%N then lit 2%Z isBinaryDigit
      else None
  | _ => None
  end.

(** [Number(s)]: [StringToNumber] of the trimmed text. *)
Definition Number (s : jsstring) : jsnum :=
  let t := trim s in
  match t with
  | [] => Int 0
  | c :: u =>
      match nonDecimalIntegerLiteral t with
      | Some x => x
      | None =>
          if (c =? 43)%N then strUnsignedDecimalLiteral u
          else if (c =? 45)%N then negate (strUnsignedDecimalLiteral u)
          else strUnsignedDecimalLiteral t
      end
  end.

End Num.
Export Num.

(* ================================================================== *)
(** * The collaborators: git, the manifest, the clock *)
(* ================================================================== *)

Module Env.

(** The git invocations a run makes, in order. *)
Inductive command : Type :=
| GitDescribe                                  (* describe --tags --abbrev=0 *)
| GitLog (range : jsstring)                    (* log range --format=... --no-merges *)
| GitRevParseVerify (ref : jsstring)           (* rev-parse --verify ref *)
| GitTagAnnotated (name message : jsstring).   (* tag -a name -m message *)

(** [package.json]: unreadable or unparsable (with the error's
    message), or parsed, with its [version] field when it has one. *)
Inductive manifest : Type :=
| Unreadable (message : jsstring)
| Parsed (version : option jsstring).

(** What git decides by rules of its own, which the model does not
    spell out; each may depend on the tags there are.
    - [resolves]: [rev-parse --verify ref] succeeds for a [ref] that
      is not the full name of a tag: revision syntax such as
      [refs/tags/v1.2.3^0] resolves when [v1.2.3] exists;
    - [refuses]: [tag -a name -m message] fails for a name that is not
      taken, with the message of the error: git refuses names that are
      no valid reference names ([v1.0 beta]), and messages that are
      empty after its clean-up;
    - [annotation]: the text git stores for a tag message: its
      clean-up drops the lines that start with [#], among others. *)
Record Git : Type := mkGit {
  resolves : list (jsstring * jsstring) -> jsstring -> bool;
  refuses : list (jsstring * jsstring) -> jsstring -> jsstring
            -> option jsstring;
  annotation : jsstring -> jsstring
}.

Record World : Type := mkWorld {
  tags : list (jsstring * jsstring);     (* annotated tags: name, annotation *)
  described : option jsstring;           (* what git describe prints; None: it fails *)
  history : jsstring -> option jsstring; (* what git log prints for a range *)
  pkg : manifest;
  pkgPath : jsstring;
  clock : Z;                             (* milliseconds since the epoch *)
  trace : list command;
  git : Git
}.

Definition run (c : command) (w : World) : World :=
  {| tags := tags w; described := described w; history := history w;
     pkg := pkg w; pkgPath := pkgPath w; clock := clock w;
     trace := trace w ++ [c]; git := git w |}.

Definition setTags (t : list (jsstring * jsstring)) (w : World) : World :=
  {| tags := t; described := described w; history := history w;
     pkg := pkg w; pkgPath := pkgPath w; clock := clock w;
     trace := trace w; git := git w |}.

Definition setPkg (p : manifest) (w : World) : World :=
  {| tags := tags w; described := described w; history := history w;
     pkg := p; pkgPath := pkgPath w; clock := clock w;
     trace := trace w; git := git w |}.

Definition hasTag (name : jsstring) (w : World) : bool :=
  existsb (fun t => streq (fst t) name) (tags w).

(** Whether [git rev-parse --verify refs/tags/name] succeeds: it does
    for a tag there is, and for what else git resolves. *)
Definition verifies (name : jsstring) (w : World) : bool :=
  hasTag name w || resolves (git w) (tags w) (js "refs/tags/" ++ name).

(** Whether [git tag -a name -m message] fails for a name that is not
    taken, and with what message. *)
Definition refused (name message : jsstring) (w : World)
    : option jsstring :=
  refuses (git w) (tags w) name message.

(** [git tag -a name -m message]: refused when the name is taken, or
    when git refuses the name or the message; otherwise the tag is
    there afterwards, with the annotation git makes of the message. *)
Definition gitTag (name message : jsstring) (w : World)
    : outcome unit * World :=
  let w' := run (GitTagAnnotated name message) w in
  if hasTag name w then (Thrown (js "Command failed: git tag"), w')
  else match refused name message w with
       | Some e => (Thrown e, w')
       | None =>
           (Returned tt,
            setTags (tags w ++ [(name, annotation (git w) message)]) w')
       end.

(** A git for the examples: nothing resolves but the tags there are,
    no name is refused, and a message is stored as it is. *)
Definition plainGit : Git :=
  {| resolves := fun _ _ => false;
     refuses := fun _ _ _ => None;
     annotation := fun message => message |}.

End Env.
Export Env.

(* ================================================================== *)
(** * The date of [new Date().toISOString()] *)
(* ================================================================== *)

Module Date.
Local Open Scope Z_scope.

Definition msPerDay : Z := 86400000.

(** [Day(t)]: the number of the UTC day a time value falls in. *)
Definition Day (t : Z) : Z := t / msPerDay.

(** Year, month and day of the month of a day number, in the proleptic
    Gregorian calendar. *)
Definition civil (day : Z) : Z * Z * Z :=
  let z := day + 719468 in
  let era := z / 146097 in
  let doe := z - era * 146097 in
  let yoe := (doe - doe / 1460 + doe / 36524 - doe / 146096) / 365 in
  let doy := doe - (365 * yoe + yoe / 4 - yoe / 100) in
  let mp := (5 * doy + 2) / 153 in
  let d := doy - (153 * mp + 2) / 5 + 1 in
  let mo := if mp <? 10 then mp + 3 else mp - 9 in
  let y := yoe + era * 400 + (if mo <=? 2 then 1 else 0) in
  (y, mo, d).

(** A natural number in decimal, padded with zeros to a width. *)
Definition pad (width : nat) (n : Z) : jsstring :=
  let ds := decimal (Z.to_N n) in
  repeat 48%N (width - length ds) ++ ds.

(** The date part of the ISO format: four digits for the years 0 to
    9999, a sign and six digits outside. *)
Definition isoDate (day : Z) : jsstring :=
  let '(y, mo, d) := civil day in
  let year := if (0 <=? y) && (y <=? 9999) then pad 4 y
              else (if y <? 0 then 45%N else 43%N) :: pad 6 (Z.abs y) in
  year ++ js "-" ++ pad 2 mo ++ js "-" ++ pad 2 d.

Definition isoTime (ms : Z) : jsstring :=
  pad 2 (ms / 3600000) ++ js ":" ++ pad 2 (ms / 60000 mod 60) ++ js ":"
  ++ pad 2 (ms / 1000 mod 60) ++ js "." ++ pad 3 (ms mod 1000).

(** [new Date(t).toISOString()]. *)
Definition toISOString (t : Z) : jsstring :=
  isoDate (Day t) ++ js "T" ++ isoTime (t mod msPerDay) ++ js "Z".

End Date.
Export Date.

(* ================================================================== *)
(** * changelog.js *)
(* ================================================================== *)

Module Changelog.

(** [getLastTag()]. *)
Definition getLastTag (w : World) : option jsstring * World :=
  let w' := run GitDescribe w in
  match described w with
  | Some out => let tag := trim out in
                (if truthy tag then Some tag else None, w')
  | None => (None, w')
  end.

(** [fetchCommitsSince(since)]. *)
Definition fetchCommitsSince (since : option jsstring) (w : World)
    : list jsstring * World :=
  let range := if truthy_opt since
               then match since with Some t => t ++ js "..HEAD" | None => [] end
               else js "HEAD" in
  let separator := js "---COMMIT---" in
  let w' := run (GitLog range) w in
  match history w range with
  | Some output => (filter truthy (map trim (split separator output)), w')
  | None => ([], w')
  end.

(** A [Map] from group key to commits, in insertion order. *)
Definition groups := list (jsstring * list Commit).

(** [if (!groups.has(t)) groups.set(t, []); groups.get(t).push(c)]. *)
Fixpoint push (t : jsstring) (c : Commit) (g : groups) : groups :=
  match g with
  | [] => [(t, [c])]
  | (k, cs) :: g' => if streq k t then (k, cs ++ [c]) :: g'
                     else (k, cs) :: push t c g'
  end.

(** The group a commit goes to:
    [COMMIT_TYPES[commit.type] ? commit.type : 'other']. *)
Definition groupKey (c : Commit) : jsstring :=
  match COMMIT_TYPES_get (type c) with
  | Some _ => type c
  | None => js "other"
  end.

(** [Array.prototype.sort] with the comparator
    [orderA - orderB]: a stable sort on the order of the key. *)
Fixpoint insertByOrder (e : jsstring * list Commit) (l : groups) : groups :=
  match l with
  | [] => [e]
  | e' :: l' => if (orderOf (fst e) <=? orderOf (fst e'))%Z then e :: l
                else e' :: insertByOrder e l'
  end.

Definition sortByOrder (g : groups) : groups := fold_right insertByOrder [] g.

(** [groupByType(commits)]. *)
Definition groupByType (commits : list Commit) : groups :=
  sortByOrder (fold_left (fun g c => push (groupKey c) c g) commits []).

(** [hasBreakingChanges(commits)]. *)
Definition hasBreakingChanges (commits : list Commit) : bool :=
  existsb breaking commits.

(** [c.scope ? `**${c.scope}**: ` : '']. *)
Definition scopePrefix (c : Commit) : jsstring :=
  match scope c with
  | Some sc => if truthy sc then js "**" ++ sc ++ js "**: " else []
  | None => []
  end.

(** [collectBreakingChanges(commits)]. *)
Definition collectBreakingChanges (commits : list Commit) : list jsstring :=
  map (fun c => scopePrefix c ++ description c) (filter breaking commits).

(** [formatEntry(commit)]. *)
Definition formatEntry (c : Commit) : jsstring :=
  let hashPart := if truthy (hash c)
                  then js " ([" ++ slice0 7 (hash c) ++ js "])" else [] in
  js "- " ++ scopePrefix c ++ description c ++ hashPart.

(** The lines one group adds. *)
Definition section (g : jsstring * list Commit) : list jsstring :=
  [js "### " ++ labelOf (fst g); []] ++ map formatEntry (snd g) ++ [[]].

Definition repoUrl : jsstring := js "https://github.com/NickCirv/release-pilot".

(** The [lines] array of [generateChangelog]. *)
Definition changelogLines (w : World) (version : jsstring)
    (commits : list Commit) (lastTag : option jsstring) : list jsstring :=
  let date := slice0 10 (toISOString (clock w)) in
  let groups := groupByType commits in
  let breaking := collectBreakingChanges commits in
  [js "## [" ++ version ++ js "] - " ++ date; []]
  ++ (if (0 <? length breaking)%nat
      then [js "### BREAKING CHANGES"; []]
           ++ map (fun b => js "- " ++ b) breaking ++ [[]]
      else [])
  ++ concat (map section groups)
  ++ [match lastTag with
      | Some t =>
          if truthy t
          then js "[" ++ version ++ js "]: " ++ repoUrl ++ js "/compare/"
               ++ t ++ js "...v" ++ version
          else js "[" ++ version ++ js "]: " ++ repoUrl
               ++ js "/releases/tag/v" ++ version
      | None => js "[" ++ version ++ js "]: " ++ repoUrl
                ++ js "/releases/tag/v" ++ version
      end].

(** [generateChangelog({ version, commits, lastTag })]. *)
Definition generateChangelog (w : World) (version : jsstring)
    (commits : list Commit) (lastTag : option jsstring) : jsstring :=
  join [10%N] (changelogLines w version commits lastTag).

End Changelog.
Export Changelog.

(* ================================================================== *)
(** * bumper.js *)
(* ================================================================== *)

Module Bumper.

(** [new Set(values)] and [set.has(x)]. *)
Fixpoint SetOf (values : list jsstring) : list jsstring :=
  match values with
  | [] => []
  | v :: rest => v :: filter (fun x => negb (streq x v)) (SetOf rest)
  end.

Definition has (set : list jsstring) (x : jsstring) : bool :=
  existsb (streq x) set.

(** [determineBumpType(commits)]. *)
Definition determineBumpType (commits : list Commit) : jsstring :=
  if hasBreakingChanges commits then js "major"
  else
    let types := SetOf (map type commits) in
    if has types (js "feat") then js "minor"
    else js "patch".

(** [calcNextVersion(current, bumpType)]. *)
Definition calcNextVersion (current bumpType : jsstring) : outcome jsstring :=
  let clean := stripLeadingV current in
  let parts := map Number (splitOn 46 clean) in
  if negb (length parts =? 3)%nat || existsb isNaN parts
  then Thrown (js "Invalid semver: " ++ [34%N] ++ current ++ [34%N])
  else
    match parts with
    | [major; minor; patch] =>
        let '(major, minor, patch) :=
          if streq bumpType (js "major") then (add1 major, Int 0, Int 0)
          else if streq bumpType (js "minor") then (major, add1 minor, Int 0)
          else if streq bumpType (js "patch") then (major, minor, add1 patch)
          else (major, minor, patch) in
        a <- numToString major ;;
        b <- numToString minor ;;
        c <- numToString patch ;;
        Returned (a ++ js "." ++ b ++ js "." ++ c)
    | _ => Thrown (js "Invalid semver: " ++ [34%N] ++ current ++ [34%N])
    end.

(** [readCurrentVersion()]: every failure is rethrown with the path. *)
Definition readCurrentVersion (w : World) : outcome jsstring :=
  let wrap (message : jsstring) : outcome jsstring :=
    Thrown (js "Cannot read package.json at " ++ pkgPath w ++ js ": "
            ++ message) in
  match pkg w with
  | Unreadable message => wrap message
  | Parsed version =>
      match version with
      | Some v => if truthy v then Returned v
                  else wrap (js "No version field in package.json")
      | None => wrap (js "No version field in package.json")
      end
  end.

(** [writeVersion(newVersion)]. *)
Definition writeVersion (newVersion : jsstring) (w : World)
    : outcome unit * World :=
  match pkg w with
  | Unreadable message => (Thrown message, w)
  | Parsed _ => (Returned tt, setPkg (Parsed (Some newVersion)) w)
  end.

Record BumpResult : Type := mkBumpResult {
  current : jsstring;
  next : jsstring;
  bumpType : jsstring;
  commits : list Commit
}.

Section Policy.

(** What [bump] falls back on when no bump type is forced. *)
Variable policy : list Commit -> jsstring.

(** The body of [bump({ dryRun, force })], with [force || policy(commits)]. *)
Definition bumpWith (dryRun : bool) (force : option jsstring) (w : World)
    : outcome BumpResult * World :=
  let (lastTag, w1) := getLastTag w in
  let (rawCommits, w2) := fetchCommitsSince lastTag w1 in
  match
    (commits <- parseCommits rawCommits ;;
     current <- readCurrentVersion w2 ;;
     let bumpType := match force with
                     | Some f => if truthy f then f else policy commits
                     | None => policy commits
                     end in
     next <- calcNextVersion current bumpType ;;
     Returned {| current := current; next := next; bumpType := bumpType;
                 commits := commits |})
  with
  | Returned r =>
      if negb dryRun
      then match writeVersion (next r) w2 with
           | (Returned _, w3) => (Returned r, w3)
           | (Thrown e, w3) => (Thrown e, w3)
           | (Untracked, w3) => (Untracked, w3)
           end
      else (Returned r, w2)
  | Thrown e => (Thrown e, w2)
  | Untracked => (Untracked, w2)
  end.

End Policy.

(** [bump({ dryRun, force })]: [force || determineBumpType(commits)]. *)
Definition bump : bool -> option jsstring -> World
                  -> outcome BumpResult * World :=
  bumpWith determineBumpType.

End Bumper.
Export Bumper.

(* ================================================================== *)
(** * tagger.js *)
(* ================================================================== *)

Module Tagger.

(** [tagExists(tag)]: whether [git rev-parse --verify] succeeds. *)
Definition tagExists (tag : jsstring) (w : World) : bool * World :=
  (verifies tag w, run (GitRevParseVerify (js "refs/tags/" ++ tag)) w).

(** [createTag(version, message, dryRun)]. *)
Definition createTag (version message : jsstring) (dryRun : bool) (w : World)
    : outcome jsstring * World :=
  let tag := if startsWith (js "v") version then version
             else js "v" ++ version in
  let (found, w1) := tagExists tag w in
  if found
  then (Thrown (js "Tag " ++ [34%N] ++ tag ++ [34%N]
                ++ js " already exists. Delete it first or bump the version."),
        w1)
  else if negb dryRun
  then match gitTag tag message w1 with
       | (Returned _, w2) => (Returned tag, w2)
       | (Thrown e, w2) => (Thrown e, w2)
       | (Untracked, w2) => (Untracked, w2)
       end
  else (Returned tag, w1).

End Tagger.
Export Tagger.

(* ================================================================== *)
(** * Vocabulary of the statements, and sample data *)
(* ================================================================== *)

(** The groups of a pattern, and those on every path through it. *)
Fixpoint names (r : regex) : list string :=
  match r with
  | Grp n r' => n :: names r'
  | Opt r' => names r'
  | Seq a b => names a ++ names b
  | _ => []
  end.

Fixpoint mandatory (r : regex) : list string :=
  match r with
  | Grp n r' => n :: mandatory r'
  | Seq a b => mandatory a ++ mandatory b
  | _ => []
  end.

(** What follows the type token in [COMMIT_PATTERN]. *)
Definition afterType : regex :=
  Opt (Chr 40 +> Grp "scope" (Plus notRParen) +> Chr 41)
  +> Opt (Grp "breaking" (Chr 33))
  +> Star isSpace +> Chr 58 +> Star isSpace
  +> Grp "description" (Plus isDot)
  +> Eol.

(** One record of [git log --format=%H%x00%s%x00%b]. *)
Definition rawRecord (h subject b : jsstring) : jsstring :=
  h ++ [0%N] ++ subject ++ [0%N] ++ b.

(** The classification of a subject outside the grammar. *)
Definition unclassified (rawCommit : jsstring) : Commit :=
  {| hash := hashOf rawCommit;
     type := js "other";
     scope := None;
     description := subjectOf rawCommit;
     body := bodyOf rawCommit;
     breaking := false;
     raw := subjectOf rawCommit |}.

(** The commits of the records that have a subject, in order. *)
Definition classified (rawCommits : list jsstring) : list Commit :=
  flat_map (fun r => match parseCommit r with
                     | Returned (Some c) => [c]
                     | _ => []
                     end) rawCommits.

(** The type of the commit a call returned, if it returned one. *)
Definition type_of_result (r : outcome (option Commit)) : option jsstring :=
  match r with
  | Returned (Some c) => Some (type c)
  | _ => None
  end.

(** A non-negative integer as the specification writes one: decimal
    digits, at least one. *)
Definition isNumeral (s : jsstring) : bool := truthy s && forallb isDigit s.

(** Follows the specification's words: after one optional leading [v],
    exactly three dot-separated non-negative integers. *)
Definition isStrictVersion (current : jsstring) : bool :=
  match splitOn 46 (stripLeadingV current) with
  | [a; b; c] => isNumeral a && isNumeral b && isNumeral c
  | _ => false
  end.

Definition versionText (a b c : jsstring) : jsstring :=
  a ++ js "." ++ b ++ js "." ++ c.

(** The decimal text of a non-negative integer. *)
Definition numeral (n : Z) : jsstring := decimal (Z.to_N n).

(** A run of six commits since [v1.2.3], one of them breaking. *)
Definition sampleLog : jsstring :=
  concat (map (fun s => js "---COMMIT---" ++ rawRecord (js "3f2a9c41d07e") (js s) [] ++ [10%N])
    [ "feat: add export"; "fix: null pointer"; "feat!: drop legacy API";
      "constructor: inject the clock"; "wip: tidy up";
      "docs(readme): usage" ]).

Definition sampleWorld : World :=
  {| tags := [(js "v1.2.3", js "Release v1.2.3")];
     described := Some (js "v1.2.3" ++ [10%N]);
     history := fun range => if streq range (js "v1.2.3..HEAD")
                             then Some sampleLog else None;
     pkg := Parsed (Some (js "1.2.3"));
     pkgPath := js "/work/package.json";
     clock := 1793577600123;
     trace := []; git := plainGit |}.

(** The commits of a group: those with its key, in input order. *)
Definition membersOf (commits : list Commit) (k : jsstring) : list Commit :=
  filter (fun c => streq (groupKey c) k) commits.

(** The keys in the order of their first commit. *)
Definition addKey (t : jsstring) (ks : list jsstring) : list jsstring :=
  if existsb (fun k => streq k t) ks then ks else ks ++ [t].

Definition firstKeys (commits : list Commit) : list jsstring :=
  fold_left (fun ks c => addKey (groupKey c) ks) commits [].

(** The [Map] that the loop of [groupByType] builds. *)
Definition grouped (commits : list Commit) : groups :=
  fold_left (fun g c => push (groupKey c) c g) commits [].

(** Sections in ascending display order. *)
Definition ascending (g : groups) : Prop :=
  StronglySorted (fun a b => (orderOf (fst a) <= orderOf (fst b))%Z) g.

(** The commit of the subject [feat!: drop legacy API]. *)
Definition dropLegacy : Commit :=
  {| hash := js "3f2a9c41d07e";
     type := js "feat";
     scope := None;
     description := js "drop legacy API";
     body := [];
     breaking := true;
     raw := js "feat!: drop legacy API" |}.

(** Five hours and some later on the same day. *)
Definition laterWorld : World :=
  {| tags := tags sampleWorld; described := described sampleWorld;
     history := history sampleWorld; pkg := pkg sampleWorld;
     pkgPath := pkgPath sampleWorld;
     clock := clock sampleWorld + 18305877;
     trace := trace sampleWorld; git := git sampleWorld |}.

(** The name [createTag] gives the tag: the version, with a [v] in
    front unless it has one. *)
Definition tagName (version : jsstring) : jsstring :=
  if startsWith (js "v") version then version else js "v" ++ version.

(** A repository with the one tag [vv1.3.0]. *)
Definition doubledWorld : World :=
  {| tags := [(js "vv1.3.0", js "Release vv1.3.0")];
     described := Some (js "vv1.3.0");
     history := fun _ => Some [];
     pkg := Parsed (Some (js "1.3.0"));
     pkgPath := js "/work/package.json";
     clock := 1793577600123;
     trace := []; git := plainGit |}.

(* ================================================================== *)
(** * changelog.js, tagger.js and releaser.js: the release flow *)
(* ================================================================== *)

Module Release.

(** What [buildChangelog] returns. *)
Record Built : Type := mkBuilt {
  changelog : jsstring;
  builtCommits : list Commit;     (* [commits] *)
  builtLastTag : option jsstring; (* [lastTag] *)
  builtBreaking : bool            (* [breaking] *)
}.

(** [buildChangelog(nextVersion)]. *)
Definition buildChangelog (nextVersion : jsstring) (w : World)
    : outcome Built * World :=
  let (lastTag, w1) := getLastTag w in
  let (rawCommits, w2) := fetchCommitsSince lastTag w1 in
  (commits <- parseCommits rawCommits ;;
   let changelog := generateChangelog w2 nextVersion commits lastTag in
   let breaking := hasBreakingChanges commits in
   Returned {| changelog := changelog; builtCommits := commits;
               builtLastTag := lastTag; builtBreaking := breaking |},
   w2).

(** The repository with what the claims' [World] leaves out: the
    remotes, the changelog file and the release commits. *)
Record Site : Type := mkSite {
  repo : World;
  remotes : list jsstring;              (* the names for which [git remote
                                           get-url] succeeds *)
  pushError : jsstring -> jsstring -> option jsstring;
                                        (* remote, tag: the message of a
                                           failing [git push], if it fails *)
  pushes : list (jsstring * jsstring);  (* remote and tag of each push made *)
  changelogFile : option jsstring;      (* CHANGELOG.md, when it exists *)
  commitError : option jsstring;        (* the message of a failing
                                           [git add] or [git commit] *)
  releaseCommits : list jsstring        (* the messages of the commits made *)
}.

Definition setRepo (w : World) (s : Site) : Site :=
  {| repo := w; remotes := remotes s; pushError := pushError s;
     pushes := pushes s; changelogFile := changelogFile s;
     commitError := commitError s; releaseCommits := releaseCommits s |}.

Definition setPushes (p : list (jsstring * jsstring)) (s : Site) : Site :=
  {| repo := repo s; remotes := remotes s; pushError := pushError s;
     pushes := p; changelogFile := changelogFile s;
     commitError := commitError s; releaseCommits := releaseCommits s |}.

Definition setChangelogFile (f : option jsstring) (s : Site) : Site :=
  {| repo := repo s; remotes := remotes s; pushError := pushError s;
     pushes := pushes s; changelogFile := f;
     commitError := commitError s; releaseCommits := releaseCommits s |}.

Definition setReleaseCommits (c : list jsstring) (s : Site) : Site :=
  {| repo := repo s; remotes := remotes s; pushError := pushError s;
     pushes := pushes s; changelogFile := changelogFile s;
     commitError := commitError s; releaseCommits := c |}.

(** [hasRemote(remote)]: whether [git remote get-url] succeeds. *)
Definition hasRemote (remote : jsstring) (s : Site) : bool :=
  existsb (streq remote) (remotes s).

(** [pushTag(tag, remote, dryRun)]. *)
Definition pushTag (tag remote : jsstring) (dryRun : bool) (s : Site)
    : outcome unit * Site :=
  if dryRun then (Returned tt, s)
  else match pushError s remote tag with
       | Some message =>
           (Thrown (js "Failed to push tag " ++ [34%N] ++ tag ++ [34%N]
                    ++ js " to " ++ [34%N] ++ remote ++ [34%N] ++ js ": "
                    ++ message), s)
       | None => (Returned tt, setPushes (pushes s ++ [(remote, tag)]) s)
       end.

(** What [tag] returns. *)
Record Tagged : Type := mkTagged {
  tagged : jsstring;   (* [tag] *)
  pushed : bool
}.

(** [tag({ version, message, remote, dryRun, push })]. *)
Definition tag (version message remote : jsstring) (dryRun push : bool)
    (s : Site) : outcome Tagged * Site :=
  match createTag version message dryRun (repo s) with
  | (Returned tagName, w) =>
      let s1 := setRepo w s in
      if push
      then if negb (hasRemote remote s1)
           then (Returned {| tagged := tagName; pushed := false |}, s1)
           else match pushTag tagName remote dryRun s1 with
                | (Returned _, s2) =>
                    (Returned {| tagged := tagName; pushed := true |}, s2)
                | (Thrown e, s2) => (Thrown e, s2)
                | (Untracked, s2) => (Untracked, s2)
                end
      else (Returned {| tagged := tagName; pushed := false |}, s1)
  | (Thrown e, w) => (Thrown e, setRepo w s)
  | (Untracked, w) => (Untracked, setRepo w s)
  end.

(** [[^\n]*\n]: what follows the first line feed. *)
Fixpoint afterLine (s : jsstring) : option jsstring :=
  match s with
  | [] => None
  | c :: t => if (c =? 10)%N then Some t else afterLine t
  end.

(** [[\s\S]*?(?=^## )] under the [m] flag: the text from the first
    line start on where [## ] follows. *)
Fixpoint fromSection (lineStart : bool) (s : jsstring) : option jsstring :=
  if lineStart && startsWith (js "## ") s then Some s
  else match s with
       | [] => None
       | c :: t => fromSection (isLineTerminator c) t
       end.

(** The first match of [/^#[^\n]*\n[\s\S]*?(?=^## )/m], removed: the
    text with the match cut out, or [None] when nothing matches. *)
Fixpoint cutHeader (lineStart : bool) (s : jsstring) : option jsstring :=
  match s with
  | [] => None
  | c :: t =>
      match (if lineStart && (c =? 35)%N
             then match afterLine t with
                  | Some u => fromSection true u
                  | None => None
                  end
             else None) with
      | Some kept => Some kept
      | None => match cutHeader (isLineTerminator c) t with
                | Some r => Some (c :: r)
                | None => None
                end
      end
  end.

(** [content.replace(/^#[^\n]*\n[\s\S]*?(?=^## )/m, '')]. *)
Definition stripHeader (content : jsstring) : jsstring :=
  match cutHeader true content with
  | Some r => r
  | None => content
  end.

(** The [header] of [writeChangelog]. *)
Definition changelogHeader : jsstring :=
  js "# Changelog" ++ [10%N; 10%N]
  ++ js "All notable changes to this project will be documented in this file."
  ++ [10%N; 10%N]
  ++ js "The format is based on [Keep a Changelog](https://keepachangelog.com/)."
  ++ [10%N; 10%N].

(** The [full] text of [writeChangelog]. *)
Definition fullChangelog (newSection : jsstring) (file : option jsstring)
    : jsstring :=
  let existing :=
    match file with
    | Some content =>
        let existing := trim (stripHeader content) in
        if truthy existing then [10%N; 10%N] ++ existing else existing
    | None => []
    end in
  changelogHeader ++ newSection ++ existing ++ [10%N].

(** [writeChangelog(newSection, dryRun)]: the number of lines, and the
    file afterwards. *)
Definition writeChangelog (newSection : jsstring) (dryRun : bool)
    (s : Site) : nat * Site :=
  let full := fullChangelog newSection (changelogFile s) in
  (length (splitOn 10 full),
   if negb dryRun then setChangelogFile (Some full) s else s).

(** [commitRelease(version, dryRun)]. *)
Definition commitRelease (version : jsstring) (dryRun : bool) (s : Site)
    : outcome unit * Site :=
  if dryRun then (Returned tt, s)
  else match commitError s with
       | Some message => (Thrown message, s)
       | None =>
           (Returned tt,
            setReleaseCommits
              (releaseCommits s ++ [js "chore(release): v" ++ version]) s)
       end.

(** The own properties of the object that [printVersionBump] looks
    the colour up in. *)
Definition bumpColors : list jsstring := map js ["major"; "minor"; "patch"].

(** The functions of [Object.prototype] that return when they are
    called with a text and without a receiver: [Object] wraps the
    text, [toString] answers for [undefined], [isPrototypeOf] answers
    [false] for what is no object. *)
Definition receiverFree : list jsstring :=
  map js ["constructor"; "toString"; "isPrototypeOf"].

(** [printVersionBump(current, next, bumpType)], of which is kept
    whether it returns.  The colour is
    [{ major, minor, patch }[bumpType] || chalk.white.bold], called
    with a text as a plain function.  For the name of a property that
    the object inherits the value found is truthy and is what gets
    called: [Object.prototype] itself for [__proto__], which is no
    function, and otherwise a function that, but for the three above,
    converts its missing receiver to an object; both are a
    [TypeError], whose message is the engine's. *)
Definition printVersionBump (bumpType : jsstring) : outcome unit :=
  if existsb (streq bumpType) bumpColors then Returned tt
  else if existsb (streq bumpType) Object_prototype
       then if existsb (streq bumpType) receiverFree then Returned tt
            else Thrown (js "TypeError")
       else Returned tt.

(** What a release reports at its end. *)
Record Summary : Type := mkSummary {
  version : jsstring;
  summaryTag : jsstring;      (* [tag] *)
  changelogLineCount : nat;   (* [changelogLines] *)
  tagPushed : bool            (* [pushed && !dryRun] *)
}.

(** [release({ dryRun, force, push })].  Of what it prints the model
    keeps the one call that can throw, [printVersionBump], right after
    the bump; the other calls of the formatter print texts and numbers
    they are given.  It returns what it hands to
    [printReleaseSummary] and [printTagCreated]. *)
Definition release (dryRun : bool) (force : option jsstring) (push : bool)
    (s : Site) : outcome Summary * Site :=
  match bump dryRun force (repo s) with
  | (Returned r, w1) =>
      match printVersionBump (bumpType r) with
      | Returned _ =>
          match buildChangelog (next r) w1 with
          | (Returned built, w2) =>
              let (lines, s3) :=
                writeChangelog (changelog built) dryRun (setRepo w2 s) in
              match commitRelease (next r) dryRun s3 with
              | (Returned _, s4) =>
                  let tagMessage :=
                    js "Release v" ++ next r ++ [10%N; 10%N]
                    ++ slice0 500 (changelog built) in
                  match tag (next r) tagMessage (js "origin") dryRun push s4
                  with
                  | (Returned t, s5) =>
                      (Returned {| version := next r;
                                   summaryTag := tagged t;
                                   changelogLineCount := lines;
                                   tagPushed := pushed t && negb dryRun |},
                       s5)
                  | (Thrown e, s5) => (Thrown e, s5)
                  | (Untracked, s5) => (Untracked, s5)
                  end
              | (Thrown e, s4) => (Thrown e, s4)
              | (Untracked, s4) => (Untracked, s4)
              end
          | (Thrown e, w2) => (Thrown e, setRepo w2 s)
          | (Untracked, w2) => (Untracked, setRepo w2 s)
          end
      | Thrown e => (Thrown e, setRepo w1 s)
      | Untracked => (Untracked, setRepo w1 s)
      end
  | (Thrown e, w1) => (Thrown e, setRepo w1 s)
  | (Untracked, w1) => (Untracked, setRepo w1 s)
  end.

End Release.
Export Release.

(* ================================================================== *)
(** * Vocabulary of the further statements *)
(* ================================================================== *)

(** A text that starts and ends with something that is no white
    space, or is empty: what [trim] returns. *)
Definition tidy (s : jsstring) : bool :=
  match s with
  | [] => true
  | x :: _ => negb (isSpace x) && negb (isSpace (last s x))
  end.

(** The text of a conventional subject: type, scope in parentheses,
    breaking marker, colon with white space around it, description. *)
Definition scopeText (sc : option jsstring) : jsstring :=
  match sc with
  | Some x => [40%N] ++ x ++ [41%N]
  | None => []
  end.

Definition bangText (bang : bool) : jsstring := if bang then [33%N] else [].

Definition subjectText (t : jsstring) (sc : option jsstring) (bang : bool)
    (ws1 ws2 d : jsstring) : jsstring :=
  t ++ scopeText sc ++ bangText bang ++ ws1 ++ [58%N] ++ ws2 ++ d.

(** The groups of a match of such a subject. *)
Definition capturesOf (t : jsstring) (sc : option jsstring) (bang : bool)
    (d : jsstring) : captures :=
  [("description", d)]
  ++ (if bang then [("breaking", [33%N])] else [])
  ++ (match sc with Some x => [("scope", x)] | None => [] end)
  ++ [("type", t)].

(** The pieces are what the grammar asks of them. *)
Definition wellFormed (t : jsstring) (sc : option jsstring)
    (ws1 ws2 d : jsstring) : bool :=
  truthy t && forallb isLower t
  && match sc with
     | Some x => truthy x && forallb notRParen x
     | None => true
     end
  && forallb isSpace ws1 && forallb isSpace ws2
  && truthy d && forallb isDot d.

(** A text does not go on with a code unit of the class. *)
Definition stops (p : N -> bool) (rest : jsstring) : bool :=
  match rest with
  | [] => true
  | c :: _ => negb (p c)
  end.

(** The patterns after the scope and after the breaking marker. *)
Definition afterScope : regex :=
  Opt (Grp "breaking" (Chr 33))
  +> Star isSpace +> Chr 58 +> Star isSpace
  +> Grp "description" (Plus isDot)
  +> Eol.

Definition afterBang : regex :=
  Star isSpace +> Chr 58 +> Star isSpace
  +> Grp "description" (Plus isDot)
  +> Eol.

Definition scopePattern : regex :=
  Chr 40 +> Grp "scope" (Plus notRParen) +> Chr 41.

(** A text without the NUL that separates the fields of a record. *)
Definition nulFree (s : jsstring) : bool :=
  forallb (fun c => negb (c =? 0)%N) s.

(** The groups whose key has a given display order. *)
Definition ofOrder (o : Z) (g : groups) : groups :=
  filter (fun e => (orderOf (fst e) =? o)%Z) g.

(** What a bump kind does to the three components; any other kind
    leaves them as they are. *)
Definition bumped (kind : jsstring) (v : Z * Z * Z) : Z * Z * Z :=
  let '(x, y, z) := v in
  if streq kind (js "major") then ((x + 1)%Z, 0%Z, 0%Z)
  else if streq kind (js "minor") then (x, (y + 1)%Z, 0%Z)
  else if streq kind (js "patch") then (x, y, (z + 1)%Z)
  else (x, y, z).

(** The text of three components. *)
Definition versionOf (v : Z * Z * Z) : jsstring :=
  let '(x, y, z) := v in versionText (numeral x) (numeral y) (numeral z).

(** The components are natural numbers below a bound. *)
Definition within (bound : Z) (v : Z * Z * Z) : Prop :=
  let '(x, y, z) := v in
  (0 <= x < bound /\ 0 <= y < bound /\ 0 <= z < bound)%Z.

(** A commit that is not breaking, whose fields read like the heading
    of the breaking section. *)
Definition shoutingCommit : Commit :=
  {| hash := js "8d1c07be6a25";
     type := js "breaking";
     scope := Some (js "BREAKING CHANGES");
     description := js "### BREAKING CHANGES";
     body := [];
     breaking := false;
     raw := js "breaking(BREAKING CHANGES): ### BREAKING CHANGES" |}.

(** Two worlds with the same repository, manifest and clock: they
    differ in the trace of git calls at most. *)
Definition sameRepo (w w' : World) : Prop :=
  tags w' = tags w /\ described w' = described w /\ history w' = history w
  /\ pkg w' = pkg w /\ pkgPath w' = pkgPath w /\ clock w' = clock w.

(** What [getLastTag] and [fetchCommitsSince] read off a world. *)
Definition lastTagOf (w : World) : option jsstring := fst (getLastTag w).

Definition rangeOf (w : World) : jsstring :=
  match lastTagOf w with
  | Some t => t ++ js "..HEAD"
  | None => js "HEAD"
  end.

Definition commitsOf (w : World) : list Commit :=
  classified (fst (fetchCommitsSince (lastTagOf w) w)).

(** The bump type that [bump] settles on. *)
Definition chosenBump (force : option jsstring) (commits : list Commit)
    : jsstring :=
  match force with
  | Some f => if truthy f then f else determineBumpType commits
  | None => determineBumpType commits
  end.

(** The usable [version] field of the manifest, if it has one. *)
Definition versionField (w : World) : option jsstring :=
  match pkg w with
  | Parsed (Some v) => if truthy v then Some v else None
  | _ => None
  end.

(** The message of a manifest without a usable [version]. *)
Definition manifestTrouble (w : World) : jsstring :=
  match pkg w with
  | Unreadable message => message
  | Parsed _ => js "No version field in package.json"
  end.

(** A manifest that cannot be read at all. *)
Definition brokenWorld : World :=
  {| tags := []; described := None; history := fun _ => None;
     pkg := Unreadable (js "Unexpected end of JSON input");
     pkgPath := js "/repo/package.json"; clock := 0; trace := []; git := plainGit |}.

(** Two sites that differ in the trace of git calls at most. *)
Definition sameSite (s s' : Site) : Prop :=
  sameRepo (repo s) (repo s') /\ remotes s' = remotes s
  /\ pushes s' = pushes s /\ changelogFile s' = changelogFile s
  /\ releaseCommits s' = releaseCommits s.

(** A site around [sampleWorld], with the remote [origin], where a
    push fails or not. *)
Definition sampleSite (failing : bool) : Site :=
  {| repo := sampleWorld; remotes := [js "origin"];
     pushError := fun _ _ =>
       if failing then Some (js "Command failed: git push") else None;
     pushes := []; changelogFile := None; commitError := None;
     releaseCommits := [] |}.

(** The same, without a remote. *)
Definition localSite : Site :=
  {| repo := sampleWorld; remotes := [];
     pushError := fun _ _ => None;
     pushes := []; changelogFile := None; commitError := None;
     releaseCommits := [] |}.

(** The message of [createTag] for a tag that exists. *)
Definition tagTaken (name : jsstring) : jsstring :=
  js "Tag " ++ [34%N] ++ name ++ [34%N]
  ++ js " already exists. Delete it first or bump the version.".

(** The message of [pushTag] for a push that failed. *)
Definition pushFailed (name remote message : jsstring) : jsstring :=
  js "Failed to push tag " ++ [34%N] ++ name ++ [34%N] ++ js " to "
  ++ [34%N] ++ remote ++ [34%N] ++ js ": " ++ message.

(** A release section as the changelog file holds it: it starts with
    a [## ] heading and has no white space at its ends. *)
Definition isSection (s : jsstring) : bool :=
  startsWith (js "## ") s && tidy s.

(** The changelog file with the sections given, newest first. *)
Definition kept (sections : list jsstring) : jsstring :=
  changelogHeader ++ join [10%N; 10%N] sections ++ [10%N].

(** A line without a line terminator in it that is no [## ] heading. *)
Definition plainLine (l : jsstring) : bool :=
  forallb (fun c => negb (isLineTerminator c)) l
  && negb (startsWith (js "## ") l).

(** Lines, each ended by a line feed. *)
Definition linesText (ls : list jsstring) : jsstring :=
  concat (map (fun l => l ++ [10%N]) ls).

(** A changelog kept by hand, without a title line. *)
Definition untitledFirst : jsstring := js " [1.1.0] - 2026-01-05".
Definition untitledLines : list jsstring :=
  [[]; js "### Features"; []; js "- search"; []].
Definition untitledRest : jsstring :=
  js "## [1.0.0] - 2025-11-02" ++ [10%N; 10%N] ++ js "- first release"
  ++ [10%N].

(** Two sections, and a site whose changelog file holds the older. *)
Definition olderSection : jsstring :=
  js "## [1.0.0] - 2025-11-02" ++ [10%N; 10%N] ++ js "- first release".

Definition newerSection : jsstring :=
  js "## [1.1.0] - 2026-01-05" ++ [10%N; 10%N] ++ js "- search".

Definition keptSite : Site :=
  setChangelogFile (Some (kept [olderSection])) localSite.

(** The changelog section of a release, from the site before it. *)
Definition sectionOf (s : Site) (r : BumpResult) : jsstring :=
  generateChangelog (repo s) (next r) (commits r) (lastTagOf (repo s)).

(** The annotation of the tag of a release. *)
Definition tagMessageOf (s : Site) (r : BumpResult) : jsstring :=
  js "Release v" ++ next r ++ [10%N; 10%N] ++ slice0 500 (sectionOf s r).

(** The message of the release commit. *)
Definition commitMessageOf (r : BumpResult) : jsstring :=
  js "chore(release): v" ++ next r.

(** The sample site in a state where [v2.0.0] is tagged while the
    manifest still says [1.2.3]. *)
Definition aheadSite : Site :=
  setRepo (setTags (tags sampleWorld ++ [(js "v2.0.0", js "early")])
             sampleWorld)
    (sampleSite false).

(** The sample site where [git commit] fails. *)
Definition refusingSite : Site :=
  {| repo := sampleWorld; remotes := [js "origin"];
     pushError := fun _ _ => None;
     pushes := []; changelogFile := None;
     commitError := Some (js "Command failed: git commit");
     releaseCommits := [] |}.

(** The weight of a bump type: major over minor over anything else. *)
Definition bumpRank (kind : jsstring) : nat :=
  if streq kind (js "major") then 2
  else if streq kind (js "minor") then 1
  else 0.

(** A directory that is no git repository, with a manifest at 0.1.0. *)
Definition bareWorld : World :=
  {| tags := []; described := None; history := fun _ => None;
     pkg := Parsed (Some (js "0.1.0"));
     pkgPath := js "/repo/package.json"; clock := 0; trace := []; git := plainGit |}.

(** A text without a line feed, and a commit whose description, scope
    and printed hash are such. *)
Definition oneLine (s : jsstring) : bool :=
  forallb (fun c => negb (c =? 10)%N) s.

Definition orEmpty (v : option jsstring) : jsstring :=
  match v with Some s => s | None => [] end.

Definition oneLineCommit (c : Commit) : bool :=
  oneLine (description c) && oneLine (orEmpty (scope c))
  && oneLine (slice0 7 (hash c)).

(* ================================================================== *)
(** * Strings: basic facts *)
(* ================================================================== *)

Lemma streq_spec (a b : jsstring) : streq a b = true <-> a = b.
Proof.
  revert b; induction a as [|x a IH]; intros [|y b]; simpl;
    try (split; [discriminate | discriminate]); try tauto.
  rewrite andb_true_iff, N.eqb_eq, IH.
  split; [intros [-> ->]; reflexivity | intros [= -> ->]; auto].
Qed.

Lemma streq_refl (a : jsstring) : streq a a = true.
Proof. apply streq_spec; reflexivity. Qed.

Lemma truthy_nil (s : jsstring) : truthy s = false <-> s = [].
Proof. destruct s; simpl; split; congruence. Qed.

(** Turn a boolean fact about code units into arithmetic. *)
Ltac units H :=
  unfold isSpace, isWhiteSpace, isLineTerminator, isLower, isUpper, isDigit,
    notRParen, isDot in H;
  repeat first
    [ rewrite orb_true_iff in H | rewrite andb_true_iff in H
    | rewrite negb_true_iff in H | rewrite N.eqb_eq in H
    | rewrite N.eqb_neq in H | rewrite N.leb_le in H ].

Lemma lower_not_space (c : N) : isLower c = true -> isSpace c = false.
Proof.
  intros H; destruct (isSpace c) eqn:E; [exfalso | reflexivity].
  units H; units E; lia.
Qed.

Lemma digit_not_space (c : N) : isDigit c = true -> isSpace c = false.
Proof.
  intros H; destruct (isSpace c) eqn:E; [exfalso | reflexivity].
  units H; units E; lia.
Qed.

(** A text whose first and last code units are no white space is its
    own trimming. *)
Lemma trimStart_head (c : N) (s : jsstring) :
  isSpace c = false -> trimStart (c :: s) = c :: s.
Proof. intros H; simpl; rewrite H; reflexivity. Qed.

Lemma trim_no_space (s : jsstring) :
  forallb (fun c => negb (isSpace c)) s = true -> trim s = s.
Proof.
  intros H; unfold trim, trimEnd.
  assert (A : forall t, forallb (fun c => negb (isSpace c)) t = true ->
                        trimStart t = t).
  { intros [|c t] Ht; [reflexivity|]. simpl in Ht.
    apply andb_true_iff in Ht as [Hc _]. apply negb_true_iff in Hc.
    apply trimStart_head; assumption. }
  rewrite (A s H), A, rev_involutive; [reflexivity|].
  rewrite forallb_forall in *; intros x Hx; apply H, in_rev, Hx.
Qed.

(** Splitting: a piece without the separator is cut off whole. *)
Lemma splitOn_nonempty (sep : N) (s : jsstring) : splitOn sep s <> [].
Proof.
  destruct s as [|c t]; simpl; [discriminate|].
  destruct (c =? sep)%N; [discriminate|].
  destruct (splitOn sep t); discriminate.
Qed.

Lemma splitOn_piece (sep : N) (a rest : jsstring) :
  forallb (fun c => negb (c =? sep)%N) a = true ->
  splitOn sep (a ++ sep :: rest) = a :: splitOn sep rest.
Proof.
  induction a as [|c a IH]; simpl; intros H.
  - rewrite N.eqb_refl; reflexivity.
  - apply andb_true_iff in H as [Hc Ha]. apply negb_true_iff in Hc.
    rewrite Hc, (IH Ha); reflexivity.
Qed.

Lemma splitOn_last (sep : N) (a : jsstring) :
  forallb (fun c => negb (c =? sep)%N) a = true -> splitOn sep a = [a].
Proof.
  induction a as [|c a IH]; simpl; intros H; [reflexivity|].
  apply andb_true_iff in H as [Hc Ha]. apply negb_true_iff in Hc.
  rewrite Hc, (IH Ha); reflexivity.
Qed.

(** No piece of a split holds the separator. *)
Lemma splitOn_pieces_free (sep : N) (s : jsstring) :
  Forall (fun piece => ~ In sep piece) (splitOn sep s).
Proof.
  induction s as [|c t IH]; simpl.
  - constructor; [intros [] | constructor].
  - destruct (N.eqb_spec c sep) as [->|Hne].
    + constructor; [intros [] | exact IH].
    + destruct (splitOn sep t) as [|h r] eqn:E.
      * constructor; [intros [H|[]]; congruence | constructor].
      * inversion IH as [|? ? Hh Hr]; subst.
        constructor; [intros [H|H]; [congruence | exact (Hh H)] | exact Hr].
Qed.

(* ================================================================== *)
(** * The matcher: where a match can end and what it captures *)
(* ================================================================== *)

(** A repetition that succeeds hands some run of the class to its
    continuation. *)
Lemma m_star_factor (p : N -> bool) (s : jsstring) :
  forall i g k out,
    m_star p i s g k = Some out ->
    exists taken s', s = taken ++ s' /\ forallb p taken = true
                     /\ k (i + length taken) s' g = Some out.
Proof.
  induction s as [|c t IH]; simpl; intros i g k out H.
  - exists [], []; simpl; rewrite Nat.add_0_r; auto.
  - destruct (p c) eqn:Hc.
    + destruct (m_star p (S i) t g k) as [o|] eqn:E.
      * injection H as <-.
        destruct (IH _ _ _ _ E) as (taken & s' & -> & Hp & Hk).
        exists (c :: taken), s'; simpl; rewrite Hc, Hp.
        rewrite Nat.add_succ_r; auto.
      * exists [], (c :: t); simpl; rewrite Nat.add_0_r; auto.
    + exists [], (c :: t); simpl; rewrite Nat.add_0_r; auto.
Qed.

(** A run of the class after which the continuation can only proceed
    at the end of the run. *)
Lemma m_star_blocked (p : N -> bool) (taken rest : jsstring) :
  forall i g k,
    forallb p taken = true ->
    (forall j x s', p x = true -> k j (x :: s') g = None) ->
    m_star p i (taken ++ rest) g k = m_star p (i + length taken) rest g k.
Proof.
  induction taken as [|x t IH]; simpl; intros i g k Hp Hk.
  - rewrite Nat.add_0_r; reflexivity.
  - apply andb_true_iff in Hp as [Hx Ht]. rewrite Hx.
    rewrite (IH (S i) g k Ht Hk), Nat.add_succ_r. simpl.
    rewrite (Hk i x _ Hx).
    destruct (m_star p (S (i + length t)) rest g k); reflexivity.
Qed.

(** A match hands its continuation the captures it started with, with
    its own groups in front: all the mandatory ones, and none that the
    pattern does not name. *)
Lemma m_factor (r : regex) :
  forall i s g k out,
    m r i s g k = Some out ->
    exists i' s' new,
      k i' s' (new ++ g) = Some out
      /\ incl (mandatory r) (map fst new)
      /\ incl (map fst new) (names r).
Proof.
  induction r as [c|p|p|p|r IH|r1 IH1 r2 IH2|n r IH| |];
    simpl; intros i s g k out H.
  - destruct s as [|x t]; [discriminate|].
    destruct (x =? c)%N; [|discriminate].
    exists (S i), t, []; simpl; auto using incl_nil_l.
  - destruct s as [|x t]; [discriminate|].
    destruct (p x); [|discriminate].
    exists (S i), t, []; simpl; auto using incl_nil_l.
  - destruct (m_star_factor _ _ _ _ _ H) as (taken & s' & _ & _ & Hk).
    exists (i + length taken)%nat, s', []; simpl; auto using incl_nil_l.
  - destruct s as [|x t]; [discriminate|].
    destruct (p x); [|discriminate].
    destruct (m_star_factor _ _ _ _ _ H) as (taken & s' & _ & _ & Hk).
    exists (S i + length taken)%nat, s', []; simpl; auto using incl_nil_l.
  - destruct (m r i s g k) as [o|] eqn:E.
    + injection H as <-.
      destruct (IH _ _ _ _ _ E) as (i' & s' & new & Hk & _ & Hn).
      exists i', s', new; auto using incl_nil_l.
    + exists i, s, []; simpl; auto using incl_nil_l.
  - destruct (IH1 _ _ _ _ _ H) as (i1 & s1 & new1 & H1 & M1 & N1).
    destruct (IH2 _ _ _ _ _ H1) as (i2 & s2 & new2 & H2 & M2 & N2).
    exists i2, s2, (new2 ++ new1). rewrite <- app_assoc. split; [exact H2|].
    rewrite map_app. split.
    + apply incl_app; [apply incl_appr | apply incl_appl]; assumption.
    + apply incl_app; [apply incl_appr | apply incl_appl]; assumption.
  - destruct (IH _ _ _ _ _ H) as (i' & s' & new & Hk & M & Nm).
    exists i', s', ((n, firstn (i' - i) s) :: new). simpl. split; [exact Hk|].
    split; apply incl_cons; simpl; auto; apply incl_tl; assumption.
  - destruct i; [|discriminate].
    exists 0%nat, s, []; simpl; auto using incl_nil_l.
  - destruct s; [|discriminate].
    exists i, [], []; simpl; auto using incl_nil_l.
Qed.

(** An anchored pattern matches at index 0 or nowhere. *)
Lemma search_anchored_later (r : regex) (s : jsstring) :
  forall i, search (Bol +> r) (S i) s = None.
Proof.
  induction s as [|c t IH]; intros i; simpl; [reflexivity | apply IH].
Qed.

Lemma exec_anchored (r : regex) (s : jsstring) :
  exec (Bol +> r) s = m r 0 s [] accept.
Proof.
  unfold exec. destruct s as [|c t]; simpl.
  - destruct (m r 0 [] [] accept); reflexivity.
  - rewrite search_anchored_later.
    destruct (m r 0 (c :: t) [] accept); reflexivity.
Qed.

Lemma group_skip (n : string) (new g : captures) :
  ~ In n (map fst new) -> group n (new ++ g) = group n g.
Proof.
  induction new as [|[n' v] new IH]; simpl; intros H; [reflexivity|].
  destruct (String.eqb_spec n' n) as [->|_]; [tauto | apply IH; tauto].
Qed.

Lemma group_found (n : string) (g : captures) :
  In n (map fst g) -> exists v, group n g = Some v.
Proof.
  induction g as [|[n' v] g IH]; simpl; intros H; [tauto|].
  destruct (String.eqb_spec n' n) as [->|Hne]; [eauto|].
  destruct H as [H|H]; [congruence | auto].
Qed.

(* ================================================================== *)
(** * The commit grammar *)
(* ================================================================== *)

Lemma COMMIT_PATTERN_unfold : COMMIT_PATTERN = Bol +> Grp "type" (Plus isLower) +> afterType.
Proof. reflexivity. Qed.

(** The type token: a small letter, then the longest run of them that
    lets the rest of the pattern match. *)
Lemma m_type_token (r : regex) (subject : jsstring) :
  m (Grp "type" (Plus isLower) +> r) 0 subject [] accept =
  match subject with
  | x :: rest =>
      if isLower x
      then m_star isLower 1 rest []
             (fun i' s' g' =>
                m r i' s' (("type", firstn (i' - 0) subject) :: g') accept)
      else None
  | [] => None
  end.
Proof. destruct subject; reflexivity. Qed.

(** After the type token the grammar cannot go on with a small letter:
    the token is the whole run of small letters. *)
Lemma afterType_blocked (j : nat) (x : N) (s' : jsstring) (g : captures) :
  isLower x = true -> m afterType j (x :: s') g accept = None.
Proof.
  intros H. pose proof (lower_not_space x H) as Hs.
  assert (x <> 40 /\ x <> 33 /\ x <> 58)%N as (H1 & H2 & H3)
    by (units H; lia).
  apply N.eqb_neq in H1, H2, H3.
  unfold afterType; simpl. rewrite H1, H2, Hs, H3. reflexivity.
Qed.

(** A subject that matches has a type, which is a run of small
    letters and not empty, and a description. *)
Lemma COMMIT_PATTERN_groups (subject : jsstring) (groups : captures) :
  exec COMMIT_PATTERN subject = Some groups ->
  exists t d,
    group "type" groups = Some t /\ t <> [] /\ forallb isLower t = true
    /\ group "description" groups = Some d.
Proof.
  rewrite COMMIT_PATTERN_unfold, exec_anchored, m_type_token.
  destruct subject as [|x rest]; [discriminate|].
  destruct (isLower x) eqn:Hx; [|discriminate].
  intros H. apply m_star_factor in H as (taken & s' & -> & Ht & H).
  replace (1 + length taken - 0)%nat with (S (length taken)) in H by lia.
  rewrite firstn_cons, firstn_app, firstn_all, Nat.sub_diag in H.
  rewrite firstn_0, app_nil_r in H.
  apply m_factor in H as (i' & s'' & new & Hk & Hm & Hn).
  unfold accept in Hk. injection Hk as <-.
  exists (x :: taken).
  assert (Hd : In "description" (map fst (new ++ [("type", x :: taken)]))).
  { rewrite map_app; apply in_or_app; left; apply Hm; simpl; auto. }
  destruct (group_found _ _ Hd) as (d & Hgd). exists d.
  split; [|split; [discriminate | split; [simpl; rewrite Hx; exact Ht | exact Hgd]]].
  rewrite group_skip; [reflexivity|].
  intros Hin. apply Hn in Hin. simpl in Hin.
  repeat destruct Hin as [Hin|Hin]; try discriminate; exact Hin.
Qed.

(** A type token followed by an empty pair of parentheses: the scope
    needs one character at least, and the grammar does not match. *)
Lemma COMMIT_PATTERN_empty_scope (t d : jsstring) :
  forallb isLower t = true ->
  exec COMMIT_PATTERN (t ++ js "():" ++ d) = None.
Proof.
  intros Ht. rewrite COMMIT_PATTERN_unfold, exec_anchored, m_type_token.
  destruct t as [|x t]; [reflexivity|].
  simpl in Ht. apply andb_true_iff in Ht as [Hx Ht].
  cbn [app]. rewrite Hx.
  rewrite m_star_blocked; [|exact Ht|].
  - reflexivity.
  - intros j y s' Hy. apply afterType_blocked; exact Hy.
Qed.

(* ================================================================== *)
(** * Commit parser *)
(* ================================================================== *)

(** A subject outside the grammar takes the early return, whatever the
    body says. *)
Lemma parseCommit_unmatched (rawCommit : jsstring) :
  subjectOf rawCommit <> [] ->
  exec COMMIT_PATTERN (subjectOf rawCommit) = None ->
  parseCommit rawCommit = Returned (Some (unclassified rawCommit)).
Proof.
  intros Hs Hm. unfold parseCommit. fold (subjectOf rawCommit).
  destruct (truthy (subjectOf rawCommit)) eqn:E.
  - simpl. rewrite Hm. reflexivity.
  - apply truthy_nil in E. contradiction.
Qed.

(** A subject inside the grammar is classified by its type token. *)
Lemma parseCommit_matched (rawCommit : jsstring) (groups : captures) :
  exec COMMIT_PATTERN (subjectOf rawCommit) = Some groups ->
  exists c t,
    parseCommit rawCommit = Returned (Some c)
    /\ group "type" groups = Some t /\ type c = t /\ t <> []
    /\ raw c = subjectOf rawCommit.
Proof.
  intros Hm. unfold parseCommit. fold (subjectOf rawCommit).
  destruct (COMMIT_PATTERN_groups _ Hm) as (t & d & Ht & Hne & Hlow & Hd).
  destruct (truthy (subjectOf rawCommit)) eqn:E.
  - simpl. rewrite Hm, Ht, Hd. simpl.
    eexists; exists t. split; [reflexivity|]. simpl.
    repeat split; auto.
    unfold toLowerCase. rewrite <- (map_id t) at 2.
    apply map_ext_in. intros c Hc. unfold lowerUnit.
    rewrite forallb_forall in Hlow. specialize (Hlow c Hc).
    destruct (isUpper c) eqn:Hu; [|reflexivity].
    units Hlow; units Hu; lia.
  - apply truthy_nil in E. rewrite E in Hm. discriminate.
Qed.

(** C1, on the code: a commit whose subject is outside the grammar and
    whose body carries [BREAKING CHANGE:] is classified as not
    breaking; the early return for such subjects never looks at the
    body. *)
Theorem parseCommit_unmatched_ignores_breaking_body :
  let r := rawRecord (js "9fceb02d0ae5") (js "just a message")
                     (js "BREAKING CHANGE: drop the v1 API") in
  exec COMMIT_PATTERN (subjectOf r) = None
  /\ test BREAKING_BODY_PATTERN (bodyOf r) = true
  /\ parseCommit r =
     Returned (Some {| hash := js "9fceb02d0ae5";
                       type := js "other";
                       scope := None;
                       description := js "just a message";
                       body := js "BREAKING CHANGE: drop the v1 API";
                       breaking := false;
                       raw := js "just a message" |}).
Proof. vm_compute. repeat split. Qed.

(** C6: [parseCommit] never throws; it returns [null] exactly for the
    records whose trimmed subject is empty; a commit it returns has a
    type that is not empty, which is ['other'] when the subject is
    outside the grammar; and [parseCommits] returns one commit for each
    record with a subject, in order, dropping the others. *)
Theorem parseCommit_total :
  (forall rawCommit : jsstring,
     exists result,
       parseCommit rawCommit = Returned result
       /\ (result = None <-> subjectOf rawCommit = [])
       /\ (forall c, result = Some c ->
             type c <> []
             /\ (exec COMMIT_PATTERN (subjectOf rawCommit) = None ->
                 type c = js "other")))
  /\ (forall rawCommits : list jsstring,
        parseCommits rawCommits = Returned (classified rawCommits)
        /\ map raw (classified rawCommits)
           = filter truthy (map subjectOf rawCommits)).
Proof.
  assert (One : forall rawCommit : jsstring,
     exists result,
       parseCommit rawCommit = Returned result
       /\ (result = None <-> subjectOf rawCommit = [])
       /\ (forall c, result = Some c ->
             type c <> []
             /\ (exec COMMIT_PATTERN (subjectOf rawCommit) = None ->
                 type c = js "other"))
       /\ (forall c, result = Some c -> raw c = subjectOf rawCommit)).
  { intros rawCommit.
    destruct (subjectOf rawCommit) as [|x s] eqn:Hs.
    - exists None. unfold parseCommit. fold (subjectOf rawCommit).
      rewrite Hs. simpl. repeat split; auto; discriminate.
    - destruct (exec COMMIT_PATTERN (subjectOf rawCommit)) as [g|] eqn:Hm.
      + destruct (parseCommit_matched _ Hm) as (c & t & Hp & _ & Ht & Hne & Hr).
        exists (Some c). rewrite Hp, <- Hs.
        split; [reflexivity|]. split; [split; [discriminate | rewrite Hs; discriminate]|].
        split; intros c' [= <-]; [split; [congruence | intros Hno; congruence] | exact Hr].
      + exists (Some (unclassified rawCommit)).
        assert (Hne : subjectOf rawCommit <> []) by (rewrite Hs; discriminate).
        rewrite (parseCommit_unmatched _ Hne Hm).
        rewrite <- Hs.
        split; [reflexivity|]. split; [split; [discriminate | rewrite Hs; discriminate]|].
        split; intros c' [= <-]; [split; [discriminate | reflexivity] | reflexivity]. }
  split.
  - intros rawCommit. destruct (One rawCommit) as (r & H1 & H2 & H3 & _).
    exists r; auto.
  - induction rawCommits as [|r rest [IH1 IH2]]; [split; reflexivity|].
    destruct (One r) as (res & H1 & H2 & _ & H4).
    unfold classified in *. simpl. rewrite H1, IH1. simpl.
    destruct res as [c|]; simpl; rewrite IH2.
    + rewrite (H4 c eq_refl).
      destruct (subjectOf r) eqn:E; [|split; reflexivity].
      destruct H2 as [_ H2]. discriminate (H2 eq_refl).
    + destruct H2 as [H2 _]. rewrite (H2 eq_refl). split; reflexivity.
Qed.

(** C10: a subject made of a type token, an empty pair of parentheses,
    a colon and a description is outside the grammar, and the commit
    is classified as ['other'] with the whole trimmed subject as its
    description and no scope. *)
Theorem parseCommit_empty_scope (rawCommit t d : jsstring) :
  forallb isLower t = true ->
  subjectOf rawCommit = t ++ js "():" ++ d ->
  exec COMMIT_PATTERN (subjectOf rawCommit) = None
  /\ parseCommit rawCommit =
     Returned (Some {| hash := hashOf rawCommit;
                       type := js "other";
                       scope := None;
                       description := t ++ js "():" ++ d;
                       body := bodyOf rawCommit;
                       breaking := false;
                       raw := t ++ js "():" ++ d |}).
Proof.
  intros Ht Hs.
  assert (Hm : exec COMMIT_PATTERN (subjectOf rawCommit) = None)
    by (rewrite Hs; apply COMMIT_PATTERN_empty_scope; exact Ht).
  split; [exact Hm|].
  rewrite parseCommit_unmatched; [unfold unclassified; rewrite Hs; reflexivity| |exact Hm].
  rewrite Hs. destruct t; discriminate.
Qed.

Lemma parseCommit_empty_scope_witness :
  let r := rawRecord (js "4b825dc642cb") (js "  feat(): add export ") (js "") in
  forallb isLower (js "feat") = true
  /\ subjectOf r = js "feat" ++ js "():" ++ js " add export"
  /\ type_of_result (parseCommit r) = Some (js "other").
Proof.
  split; [reflexivity|]. split; [reflexivity|].
  rewrite (proj2 (parseCommit_empty_scope
             (rawRecord (js "4b825dc642cb") (js "  feat(): add export ") (js ""))
             (js "feat") (js " add export") eq_refl eq_refl)).
  reflexivity.
Defined.

(* ================================================================== *)
(** * Version arithmetic *)
(* ================================================================== *)

Lemma span_all (p : N -> bool) (s : jsstring) :
  forallb p s = true -> span p s = (s, []).
Proof.
  induction s as [|c t IH]; simpl; intros H; [reflexivity|].
  apply andb_true_iff in H as [Hc Ht]. rewrite Hc, (IH Ht). reflexivity.
Qed.

Lemma valueIn_snoc (base : Z) (ds : jsstring) (c : N) :
  valueIn base (ds ++ [c]) = (base * valueIn base ds + digitValue c)%Z.
Proof. unfold valueIn. rewrite fold_left_app. reflexivity. Qed.

Lemma valueIn_nonneg (ds : jsstring) : (0 <= valueIn 10 ds)%Z.
Proof.
  induction ds as [|c ds IH] using rev_ind; [unfold valueIn; simpl; lia|].
  rewrite valueIn_snoc.
  assert (0 <= digitValue c)%Z
    by (unfold digitValue; destruct (isDigit c), (isLower c); lia).
  lia.
Qed.

Lemma digits_forall (q : N -> bool) (s : jsstring) :
  (forall c, isDigit c = true -> q c = true) ->
  forallb isDigit s = true -> forallb q s = true.
Proof.
  intros Hq H. rewrite forallb_forall in *. auto.
Qed.

(** A numeral converts to the double of its value. *)
Lemma Number_numeral (a : jsstring) :
  isNumeral a = true -> Number a = ofInteger (valueIn 10 a).
Proof.
  unfold isNumeral. intros H. apply andb_true_iff in H as [Hne Hd].
  unfold Number.
  rewrite trim_no_space
    by (apply (digits_forall _ _ (fun c Hc => eq_trans
              (f_equal negb (digit_not_space c Hc)) eq_refl) Hd)).
  destruct a as [|c u]; [discriminate|].
  pose proof Hd as Hd'. simpl in Hd'. apply andb_true_iff in Hd' as [Hc Hu].
  assert (Hnd : nonDecimalIntegerLiteral (c :: u) = None).
  { unfold nonDecimalIntegerLiteral. destruct u as [|p ds]; [reflexivity|].
    simpl in Hu. apply andb_true_iff in Hu as [Hp _].
    destruct (negb (c =? 48)%N); [reflexivity|].
    assert (p <> 120 /\ p <> 88 /\ p <> 111 /\ p <> 79 /\ p <> 98 /\ p <> 66)%N
      as (E1 & E2 & E3 & E4 & E5 & E6) by (units Hp; lia).
    apply N.eqb_neq in E1, E2, E3, E4, E5, E6.
    rewrite E1, E2, E3, E4, E5, E6. reflexivity. }
  rewrite Hnd.
  assert (c <> 43 /\ c <> 45 /\ c <> 73)%N as (E1 & E2 & E3)
    by (units Hc; lia).
  apply N.eqb_neq in E1, E2, E3. rewrite E1, E2.
  unfold strUnsignedDecimalLiteral.
  replace (streq (c :: u) (js "Infinity")) with false
    by (cbn; rewrite E3; reflexivity).
  rewrite (span_all _ _ Hd). cbn [truthy negb andb exponentPart length].
  rewrite app_nil_r. unfold ofDecimal. cbn [Z.of_nat Z.sub Z.opp Z.leb Z.compare].
  destruct (Z.eqb_spec (valueIn 10 (c :: u)) 0) as [->|_]; [reflexivity|].
  cbn [Z.pow]. rewrite Z.mul_1_r. reflexivity.
Qed.

(** A numeral is never [NaN]; one of at most 2^53 is held exactly. *)
Lemma Number_numeral_not_NaN (a : jsstring) :
  isNumeral a = true -> isNaN (Number a) = false.
Proof.
  intros H. rewrite (Number_numeral _ H). unfold ofInteger.
  destruct (Z.abs (valueIn 10 a) <=? two53)%Z; reflexivity.
Qed.

Lemma Number_numeral_exact (a : jsstring) :
  isNumeral a = true -> (valueIn 10 a <= two53)%Z ->
  Number a = Int (valueIn 10 a).
Proof.
  intros H Hb. rewrite (Number_numeral _ H). unfold ofInteger.
  pose proof (valueIn_nonneg a).
  destruct (Z.leb_spec (Z.abs (valueIn 10 a)) two53); [reflexivity | lia].
Qed.

(** The digits of a number are digits, and there is one at least. *)
Lemma digit_unit (n : N) : isDigit (48 + n mod 10) = true.
Proof.
  assert (H : (n mod 10 < 10)%N) by (apply N.mod_upper_bound; discriminate).
  unfold isDigit. generalize dependent (n mod 10)%N. intros r Hr.
  apply andb_true_iff; split; apply N.leb_le; lia.
Qed.

Lemma digitsOf_digits (fuel : nat) :
  forall n acc,
    forallb isDigit acc = true ->
    forallb isDigit (digitsOf (S fuel) n acc) = true
    /\ digitsOf (S fuel) n acc <> [].
Proof.
  induction fuel as [|fuel IH]; intros n acc Hacc;
    pose proof (digit_unit n) as Hd.
  - cbn [digitsOf]. destruct (n / 10 =? 0)%N; cbn [forallb];
      rewrite Hd, Hacc; split; auto; discriminate.
  - change (digitsOf (S (S fuel)) n acc)
      with (if (n / 10 =? 0)%N then (48 + n mod 10)%N :: acc
            else digitsOf (S fuel) (n / 10)%N ((48 + n mod 10)%N :: acc)).
    destruct (n / 10 =? 0)%N.
    + cbn [forallb]. rewrite Hd, Hacc. split; auto; discriminate.
    + apply IH. cbn [forallb]. rewrite Hd, Hacc. reflexivity.
Qed.

Lemma decimal_digits (n : N) :
  forallb isDigit (decimal n) = true /\ decimal n <> [].
Proof. unfold decimal. apply digitsOf_digits. reflexivity. Qed.

Lemma numeral_head (n : Z) :
  exists c rest, numeral n = c :: rest /\ isDigit c = true.
Proof.
  unfold numeral. destruct (decimal_digits (Z.to_N n)) as [Hd Hne].
  destruct (decimal (Z.to_N n)) as [|c rest]; [contradiction|].
  simpl in Hd. apply andb_true_iff in Hd as [Hc _]. eauto.
Qed.

Lemma numToString_nonneg (z : Z) :
  (0 <= z)%Z -> numToString (Int z) = Returned (numeral z).
Proof.
  intros H. unfold numToString, numeral.
  destruct (Z.ltb_spec z 0); [lia | reflexivity].
Qed.

Lemma add1_safe (z : Z) : (z < two53)%Z -> add1 (Int z) = Int (z + 1).
Proof.
  intros H. unfold add1. destruct (Z.ltb_spec z two53); [reflexivity | lia].
Qed.

(** The parts of a well-formed version text. *)
Lemma numeral_no_dot (a : jsstring) :
  forallb isDigit a = true -> forallb (fun c => negb (c =? 46)%N) a = true.
Proof.
  apply digits_forall. intros c Hc. apply negb_true_iff, N.eqb_neq.
  units Hc; lia.
Qed.

Lemma split_versionText (a b c : jsstring) :
  isNumeral a = true -> isNumeral b = true -> isNumeral c = true ->
  splitOn 46 (versionText a b c) = [a; b; c]
  /\ stripLeadingV (versionText a b c) = versionText a b c.
Proof.
  unfold isNumeral, versionText. intros Ha Hb Hc.
  apply andb_true_iff in Ha as [Hna Ha], Hb as [_ Hb], Hc as [_ Hc].
  split.
  - change (js ".") with [46%N]. cbn [app].
    rewrite splitOn_piece by (apply numeral_no_dot; exact Ha).
    rewrite splitOn_piece by (apply numeral_no_dot; exact Hb).
    rewrite splitOn_last by (apply numeral_no_dot; exact Hc).
    reflexivity.
  - destruct a as [|x a]; [discriminate|]. simpl in Ha.
    apply andb_true_iff in Ha as [Hx _].
    assert (E : x <> 118%N) by (units Hx; lia).
    apply N.eqb_neq in E. cbn [app stripLeadingV]. rewrite E. reflexivity.
Qed.

(** [calcNextVersion] on a text whose three parts convert to tracked
    integers. *)
Lemma calcNextVersion_tracked (current kind a b c : jsstring) (x y z : Z) :
  splitOn 46 (stripLeadingV current) = [a; b; c] ->
  Number a = Int x -> Number b = Int y -> Number c = Int z ->
  calcNextVersion current kind =
  let '(major, minor, patch) :=
    if streq kind (js "major") then (add1 (Int x), Int 0, Int 0)
    else if streq kind (js "minor") then (Int x, add1 (Int y), Int 0)
    else if streq kind (js "patch") then (Int x, Int y, add1 (Int z))
    else (Int x, Int y, Int z) in
  p <- numToString major ;;
  q <- numToString minor ;;
  r <- numToString patch ;;
  Returned (p ++ js "." ++ q ++ js "." ++ r).
Proof.
  intros Hs Ha Hb Hc. unfold calcNextVersion.
  rewrite Hs. cbn [map length Nat.eqb negb orb existsb].
  rewrite Ha, Hb, Hc. reflexivity.
Qed.

Lemma startsWith_v_numeral (n : Z) (rest : jsstring) :
  startsWith (js "v") (numeral n ++ rest) = false.
Proof.
  destruct (numeral_head n) as (c & r & -> & Hc).
  assert (E : (118 <> c)%N) by (units Hc; lia).
  apply N.eqb_neq in E.
  change (js "v") with [118%N]. cbn [startsWith app]. rewrite E. reflexivity.
Qed.

(** C3, on the code: a version text with an empty component is not
    three dot-separated non-negative integers, yet [calcNextVersion]
    accepts it, because [Number('')] is 0 and not [NaN]; so it does a
    text with a negative or a hexadecimal component.  The two texts the
    specification names are rejected. *)
Theorem calcNextVersion_accepts_malformed :
  isStrictVersion (js "1..3") = false
  /\ calcNextVersion (js "1..3") (js "patch") = Returned (js "1.0.4")
  /\ isStrictVersion (js "-1.2.3") = false
  /\ calcNextVersion (js "-1.2.3") (js "patch") = Returned (js "-1.2.4")
  /\ isStrictVersion (js "0x10.2.3") = false
  /\ calcNextVersion (js "0x10.2.3") (js "minor") = Returned (js "16.3.0")
  /\ throws (calcNextVersion (js "1.2") (js "patch")) = true
  /\ throws (calcNextVersion (js "1.2.x") (js "patch")) = true.
Proof. vm_compute. repeat split. Qed.

(** The direction of C3 that holds: a text of the specified form is
    never rejected. *)
Lemma calcNextVersion_strict_accepted (current kind : jsstring) :
  isStrictVersion current = true ->
  throws (calcNextVersion current kind) = false.
Proof.
  unfold isStrictVersion, calcNextVersion.
  destruct (splitOn 46 (stripLeadingV current)) as [|a [|b [|c [|]]]];
    try discriminate.
  intros H. apply andb_true_iff in H as [H Hc].
  apply andb_true_iff in H as [Ha Hb].
  pose proof (Number_numeral_not_NaN a Ha) as Na.
  pose proof (Number_numeral_not_NaN b Hb) as Nb.
  pose proof (Number_numeral_not_NaN c Hc) as Nc.
  cbn [map length Nat.eqb negb orb existsb].
  destruct (Number a) as [|x|]; [discriminate| |];
    (destruct (Number b) as [|y|]; [discriminate| |]);
    (destruct (Number c) as [|z|]; [discriminate| |]);
    cbn [isNaN orb];
    destruct (streq kind (js "major")), (streq kind (js "minor")),
      (streq kind (js "patch")); unfold add1, numToString; cbn [bind];
    repeat match goal with
           | |- context [(?u <? two53)%Z] => destruct (u <? two53)%Z
           end; reflexivity.
Qed.

(** C5, as stated, fails on the code: at 2^53 adding one to a double
    gives the same double back, and the major component is not
    incremented. *)
Lemma calcNextVersion_major_unchanged :
  ~ (forall a b c : jsstring,
       isNumeral a = true -> isNumeral b = true -> isNumeral c = true ->
       calcNextVersion (versionText a b c) (js "major")
       = Returned (versionText (numeral (valueIn 10 a + 1)) (js "0") (js "0"))).
Proof.
  intros H.
  specialize (H (js "9007199254740992") (js "0") (js "0")
                eq_refl eq_refl eq_refl).
  vm_compute in H. discriminate H.
Qed.

Lemma calcNextVersion_at_two53 :
  calcNextVersion (js "9007199254740992.0.0") (js "major")
  = Returned (js "9007199254740992.0.0").
Proof. vm_compute. reflexivity. Qed.

(** C5, amended: for three numerals below 2^53, with or without a
    leading [v], a major bump increments the first and zeroes the other
    two, a minor bump increments the second and zeroes the third, a
    patch bump increments the third, and no output starts with [v]. *)
Theorem calcNextVersion_arithmetic (a b c current : jsstring) :
  isNumeral a = true -> isNumeral b = true -> isNumeral c = true ->
  (valueIn 10 a < 2 ^ 53)%Z -> (valueIn 10 b < 2 ^ 53)%Z ->
  (valueIn 10 c < 2 ^ 53)%Z ->
  current = versionText a b c \/ current = js "v" ++ versionText a b c ->
  calcNextVersion current (js "major")
  = Returned (versionText (numeral (valueIn 10 a + 1)) (js "0") (js "0"))
  /\ calcNextVersion current (js "minor")
     = Returned (versionText (numeral (valueIn 10 a))
                             (numeral (valueIn 10 b + 1)) (js "0"))
  /\ calcNextVersion current (js "patch")
     = Returned (versionText (numeral (valueIn 10 a)) (numeral (valueIn 10 b))
                             (numeral (valueIn 10 c + 1)))
  /\ (forall kind out,
        calcNextVersion current kind = Returned out ->
        startsWith (js "v") out = false).
Proof.
  intros Ha Hb Hc Ba Bb Bc Hcur.
  fold two53 in Ba, Bb, Bc.
  pose proof (valueIn_nonneg a) as Pa.
  pose proof (valueIn_nonneg b) as Pb.
  pose proof (valueIn_nonneg c) as Pc.
  destruct (split_versionText a b c Ha Hb Hc) as [Hsplit Hstrip].
  assert (Hs : splitOn 46 (stripLeadingV current) = [a; b; c]).
  { destruct Hcur as [-> | ->]; [rewrite Hstrip; exact Hsplit | exact Hsplit]. }
  pose proof (fun kind => calcNextVersion_tracked current kind Hs
    (Number_numeral_exact a Ha (Z.lt_le_incl _ _ Ba))
    (Number_numeral_exact b Hb (Z.lt_le_incl _ _ Bb))
    (Number_numeral_exact c Hc (Z.lt_le_incl _ _ Bc))) as Hcalc.
  assert (Z0 : numToString (Int 0) = Returned (js "0")) by reflexivity.
  repeat split.
  - rewrite Hcalc.
    change (streq (js "major") (js "major")) with true. cbv iota beta.
    rewrite add1_safe, numToString_nonneg, Z0 by lia. reflexivity.
  - rewrite Hcalc.
    change (streq (js "minor") (js "major")) with false.
    change (streq (js "minor") (js "minor")) with true. cbv iota beta.
    rewrite Z0, add1_safe, !numToString_nonneg by lia. reflexivity.
  - rewrite Hcalc.
    change (streq (js "patch") (js "major")) with false.
    change (streq (js "patch") (js "minor")) with false.
    change (streq (js "patch") (js "patch")) with true. cbv iota beta.
    rewrite add1_safe, !numToString_nonneg by lia. reflexivity.
  - intros kind out. rewrite Hcalc.
    destruct (streq kind (js "major")); [|destruct (streq kind (js "minor"));
      [|destruct (streq kind (js "patch"))]]; cbv iota beta;
      rewrite ?add1_safe, ?numToString_nonneg, ?Z0 by lia;
      cbn [bind]; intros [= <-]; apply startsWith_v_numeral.
Qed.

Lemma calcNextVersion_arithmetic_witness :
  calcNextVersion (js "1.2.3") (js "major") = Returned (js "2.0.0")
  /\ calcNextVersion (js "1.2.3") (js "minor") = Returned (js "1.3.0")
  /\ calcNextVersion (js "1.2.3") (js "patch") = Returned (js "1.2.4")
  /\ calcNextVersion (js "v1.2.3") (js "patch") = Returned (js "1.2.4").
Proof.
  destruct (@calcNextVersion_arithmetic (js "1") (js "2") (js "3")
              (js "1.2.3") eq_refl eq_refl eq_refl eq_refl eq_refl eq_refl
              (or_introl eq_refl)) as (Hmajor & Hminor & Hpatch & _).
  destruct (@calcNextVersion_arithmetic (js "1") (js "2") (js "3")
              (js "v1.2.3") eq_refl eq_refl eq_refl eq_refl eq_refl eq_refl
              (or_intror eq_refl)) as (_ & _ & Hv & _).
  exact (conj Hmajor (conj Hminor (conj Hpatch Hv))).
Defined.

(* ================================================================== *)
(** * Bump policy *)
(* ================================================================== *)

Lemma existsb_filter_other (x v : jsstring) (l : list jsstring) :
  existsb (streq x) (filter (fun y => negb (streq y v)) l)
  = negb (streq x v) && existsb (streq x) l.
Proof.
  induction l as [|y l IH]; simpl; [rewrite andb_false_r; reflexivity|].
  destruct (streq y v) eqn:Eyv; simpl; rewrite IH.
  - destruct (streq x y) eqn:Exy; simpl; [|reflexivity].
    apply streq_spec in Eyv, Exy. subst.
    rewrite streq_refl. reflexivity.
  - destruct (streq x y) eqn:Exy; simpl; [|reflexivity].
    apply streq_spec in Exy. subst. rewrite Eyv. reflexivity.
Qed.

Lemma existsb_feat (commits : list Commit) :
  existsb (streq (js "feat")) (map type commits)
  = existsb (fun c => streq (type c) (js "feat")) commits.
Proof.
  induction commits as [|c l IH]; cbn [existsb map]; [reflexivity|].
  rewrite IH. f_equal.
  destruct (streq (type c) (js "feat")) eqn:E1,
           (streq (js "feat") (type c)) eqn:E2; auto.
  - apply streq_spec in E1. rewrite E1, streq_refl in E2. discriminate.
  - apply streq_spec in E2. rewrite <- E2, streq_refl in E1. discriminate.
Qed.

(** Membership in the set of a list is membership in the list. *)
Lemma has_SetOf (x : jsstring) (l : list jsstring) :
  has (SetOf l) x = existsb (streq x) l.
Proof.
  unfold has. induction l as [|v l IH]; simpl; [reflexivity|].
  rewrite existsb_filter_other, IH.
  destruct (streq x v); reflexivity.
Qed.

(** C2: [determineBumpType] is ['major'] when some commit is breaking,
    else ['minor'] when some commit has type ['feat'], else ['patch'],
    which it is for no commits; and a bump with a forced type does not
    depend on the policy, and the [bumpType] it returns is the forced
    one, from which the next version is computed. *)
Theorem bump_policy_and_override :
  (forall commits : list Commit,
     determineBumpType commits =
     if existsb breaking commits then js "major"
     else if existsb (fun c => streq (type c) (js "feat")) commits
          then js "minor"
          else js "patch")
  /\ determineBumpType [] = js "patch"
  /\ (forall (dryRun : bool) (override : jsstring) (w : World),
        truthy override = true ->
        (forall policy : list Commit -> jsstring,
           bumpWith policy dryRun (Some override) w
           = bump dryRun (Some override) w)
        /\ (forall (r : BumpResult) (w' : World),
              bump dryRun (Some override) w = (Returned r, w') ->
              bumpType r = override
              /\ calcNextVersion (current r) override = Returned (next r))).
Proof.
  split; [|split; [reflexivity|]].
  - intros commits. unfold determineBumpType, hasBreakingChanges.
    destruct (existsb breaking commits); [reflexivity|].
    rewrite has_SetOf, existsb_feat. reflexivity.
  - intros dryRun override w Hov.
    destruct override as [|o ov]; [discriminate|]. split.
    + intros policy. reflexivity.
    + intros r w'. unfold bump, bumpWith.
      destruct (getLastTag w) as [lastTag w1].
      destruct (fetchCommitsSince lastTag w1) as [rawCommits w2].
      destruct (parseCommits rawCommits) as [commits|e|]; cbn [bind truthy];
        try (intros [= ]; fail).
      destruct (readCurrentVersion w2) as [cur|e|]; cbn [bind];
        try (intros [= ]; fail).
      destruct (calcNextVersion cur (o :: ov)) as [nxt|e|] eqn:Hnext;
        cbn [bind]; try (intros [= ]; fail).
      destruct (negb dryRun).
      * destruct (writeVersion _ w2) as [[u|e|] w3]; intros [= <- <-];
          simpl; auto.
      * intros [= <- <-]; simpl; auto.
Qed.

(** A forced patch bump over commits that the policy takes for a
    major one. *)
Lemma bump_policy_and_override_witness :
  exists r w',
    bump true (Some (js "patch")) sampleWorld = (Returned r, w')
    /\ determineBumpType (commits r) = js "major"
    /\ bumpType r = js "patch"
    /\ next r = js "1.2.4".
Proof.
  destruct (bump true (Some (js "patch")) sampleWorld) as [[r| |] w'] eqn:E;
    [|vm_compute in E; discriminate E|vm_compute in E; discriminate E].
  exists r, w'.
  destruct (proj2 (proj2 bump_policy_and_override) true (js "patch")
              sampleWorld eq_refl) as [_ H].
  destruct (H r w' E) as [Hb Hn].
  split; [reflexivity|]. split; [|split; [exact Hb|]].
  - vm_compute in E. injection E as <- <-. vm_compute. reflexivity.
  - vm_compute in E. injection E as <- <-. vm_compute. reflexivity.
Defined.

(* ================================================================== *)
(** * Grouping *)
(* ================================================================== *)

Lemma streq_sym (a b : jsstring) : streq a b = streq b a.
Proof.
  destruct (streq a b) eqn:E1, (streq b a) eqn:E2; auto.
  - apply streq_spec in E1. rewrite E1, streq_refl in E2. discriminate.
  - apply streq_spec in E2. rewrite E2, streq_refl in E1. discriminate.
Qed.

Lemma existsb_key (t : jsstring) (ks : list jsstring) :
  existsb (fun k => streq k t) ks = true <-> In t ks.
Proof.
  rewrite existsb_exists. split.
  - intros (k & Hk & E). apply streq_spec in E. subst. exact Hk.
  - intros H. exists t. split; [exact H | apply streq_refl].
Qed.

(** Pushing a commit: its group gets it at the end, a new group comes
    last. *)
Lemma push_map (l : list Commit) (t : jsstring) (c : Commit)
    (ks : list jsstring) :
  NoDup ks ->
  push t c (map (fun k => (k, membersOf l k)) ks)
  = map (fun k => (k, if streq k t then membersOf l k ++ [c]
                      else membersOf l k)) ks
    ++ (if existsb (fun k => streq k t) ks then [] else [(t, [c])]).
Proof.
  induction ks as [|k ks IH]; intros Hnd; [reflexivity|].
  inversion Hnd as [|? ? Hk Hks]; subst.
  cbn [map push existsb fst]. destruct (streq k t) eqn:E.
  - cbn [orb app]. rewrite app_nil_r. f_equal.
    apply map_ext_in. intros k' Hk'.
    destruct (streq k' t) eqn:E'; [|reflexivity].
    apply streq_spec in E, E'. subst. contradiction.
  - cbn [orb app]. f_equal. apply IH. exact Hks.
Qed.

Lemma membersOf_snoc (l : list Commit) (c : Commit) (k : jsstring) :
  membersOf (l ++ [c]) k
  = if streq k (groupKey c) then membersOf l k ++ [c] else membersOf l k.
Proof.
  unfold membersOf. rewrite filter_app. cbn [filter].
  rewrite (streq_sym (groupKey c) k).
  destruct (streq k (groupKey c)); [reflexivity | apply app_nil_r].
Qed.

(** The loop builds one group for each key, in the order of the first
    commit of each, and the group of a key holds the commits with that
    key in input order. *)
Lemma grouped_closed (commits : list Commit) :
  grouped commits
  = map (fun k => (k, membersOf commits k)) (firstKeys commits)
  /\ NoDup (firstKeys commits)
  /\ (forall k, In k (firstKeys commits)
                <-> exists c, In c commits /\ groupKey c = k).
Proof.
  unfold grouped, firstKeys.
  induction commits as [|c l (IHg & IHn & IHk)] using rev_ind.
  - split; [reflexivity|]. split; [constructor|].
    intros k; split; [intros [] | intros (c & [] & _)].
  - rewrite !fold_left_app. cbn [fold_left]. rewrite IHg.
    set (ks := fold_left (fun ks c => addKey (groupKey c) ks) l []) in *.
    assert (Hstep : forall k, In k (addKey (groupKey c) ks)
                              <-> In k ks \/ k = groupKey c).
    { intros k. unfold addKey.
      destruct (existsb (fun k0 => streq k0 (groupKey c)) ks) eqn:E.
      - apply existsb_key in E. split; [auto | intros [H| ->]; auto].
      - rewrite in_app_iff. simpl. intuition congruence. }
    split; [|split].
    + rewrite push_map by exact IHn. unfold addKey.
      destruct (existsb (fun k => streq k (groupKey c)) ks) eqn:E.
      * rewrite app_nil_r. apply map_ext. intros k.
        rewrite membersOf_snoc. reflexivity.
      * rewrite map_app. cbn [map].
        f_equal; [apply map_ext; intros k; rewrite membersOf_snoc; reflexivity|].
        rewrite membersOf_snoc, streq_refl.
        replace (membersOf l (groupKey c)) with (@nil Commit); [reflexivity|].
        symmetry. unfold membersOf.
        destruct (filter (fun c0 => streq (groupKey c0) (groupKey c)) l)
          as [|c' rest] eqn:F; [reflexivity|].
        assert (Hin : In c' (filter (fun c0 => streq (groupKey c0) (groupKey c)) l))
          by (rewrite F; left; reflexivity).
        apply filter_In in Hin as [Hin Hkey]. apply streq_spec in Hkey.
        assert (In (groupKey c) ks) by (apply IHk; exists c'; auto).
        apply existsb_key in H. congruence.
    + unfold addKey.
      destruct (existsb (fun k => streq k (groupKey c)) ks) eqn:E;
        [exact IHn|].
      apply NoDup_app; [exact IHn | repeat constructor; intros [] |].
      intros k Hk [<-|[]]. apply existsb_key in Hk. congruence.
    + intros k. rewrite Hstep, IHk. split.
      * intros [(c' & Hc' & Hkey) | ->].
        -- exists c'. rewrite in_app_iff. auto.
        -- exists c. rewrite in_app_iff. simpl. auto.
      * intros (c' & Hc' & Hkey). apply in_app_iff in Hc' as [Hc'|[<-|[]]].
        -- left. exists c'. auto.
        -- right. auto.
Qed.

Lemma insertByOrder_perm (e : jsstring * list Commit) (l : groups) :
  Permutation (e :: l) (insertByOrder e l).
Proof.
  induction l as [|e' l IH]; simpl; [reflexivity|].
  destruct (orderOf (fst e) <=? orderOf (fst e'))%Z; [reflexivity|].
  rewrite perm_swap. constructor. exact IH.
Qed.

Lemma sortByOrder_perm (g : groups) : Permutation g (sortByOrder g).
Proof.
  induction g as [|e g IH]; simpl; [reflexivity|].
  rewrite <- insertByOrder_perm. constructor. exact IH.
Qed.

Lemma insertByOrder_sorted (e : jsstring * list Commit) (l : groups) :
  ascending l -> ascending (insertByOrder e l).
Proof.
  unfold ascending. induction l as [|e' l IH]; simpl; intros H.
  - repeat constructor.
  - inversion H as [|? ? Hl Hall]; subst.
    destruct (Z.leb_spec (orderOf (fst e)) (orderOf (fst e'))) as [Hle|Hgt].
    + constructor; [exact H|]. constructor; [exact Hle|].
      rewrite Forall_forall in *. intros x Hx. specialize (Hall x Hx). lia.
    + constructor; [apply IH; exact Hl|].
      rewrite Forall_forall in *. intros x Hx.
      apply (Permutation_in _ (Permutation_sym (insertByOrder_perm e l))) in Hx.
      destruct Hx as [<-|Hx]; [lia | apply Hall; exact Hx].
Qed.

Lemma sortByOrder_sorted (g : groups) : ascending (sortByOrder g).
Proof.
  induction g as [|e g IH]; simpl; [constructor|].
  apply insertByOrder_sorted. exact IH.
Qed.

(** What [groupByType] returns: the groups in ascending display order,
    one for each key that some commit has, none of them empty, each
    with the commits of its key in input order. *)
Lemma groupByType_sections (commits : list Commit) :
  ascending (groupByType commits)
  /\ NoDup (map fst (groupByType commits))
  /\ (forall k cs,
        In (k, cs) (groupByType commits)
        <-> (exists c, In c commits /\ groupKey c = k)
            /\ cs = membersOf commits k).
Proof.
  destruct (grouped_closed commits) as (Hg & Hnd & Hk).
  unfold groupByType. fold (grouped commits).
  pose proof (sortByOrder_perm (grouped commits)) as Hp.
  split; [apply sortByOrder_sorted|]. split.
  - apply (Permutation_NoDup (Permutation_map fst Hp)).
    rewrite Hg, map_map. cbn [fst]. rewrite map_id. exact Hnd.
  - intros k cs. split.
    + intros H. apply (Permutation_in _ (Permutation_sym Hp)) in H.
      rewrite Hg in H. apply in_map_iff in H as (k' & [= -> <-] & Hin).
      split; [apply Hk; exact Hin | reflexivity].
    + intros [Hex ->]. apply (Permutation_in _ Hp).
      rewrite Hg. apply in_map_iff. exists k. split; [reflexivity|].
      apply Hk; exact Hex.
Qed.

(** Every commit is in the group of its key. *)
Lemma groupByType_covers (commits : list Commit) (c : Commit) :
  In c commits ->
  In (groupKey c, membersOf commits (groupKey c)) (groupByType commits)
  /\ In c (membersOf commits (groupKey c)).
Proof.
  intros Hc. split.
  - apply groupByType_sections. split; [exists c; auto | reflexivity].
  - unfold membersOf. apply filter_In. split; [exact Hc | apply streq_refl].
Qed.

Lemma ascending_tail (a b : groups) : ascending (a ++ b) -> ascending b.
Proof.
  unfold ascending. induction a as [|e a IH]; simpl; intros H; [exact H|].
  inversion H; subst. auto.
Qed.

(** The [feat] group comes before the [fix] group whenever both are
    there. *)
Lemma groupByType_feat_before_fix (commits : list Commit)
    (before after : groups) (cs : list Commit) :
  groupByType commits = before ++ (js "fix", cs) :: after ->
  ~ In (js "feat") (map fst after).
Proof.
  intros E Hin. apply in_map_iff in Hin as ([k cs'] & Hk & Hin).
  cbn [fst] in Hk. subst k.
  destruct (groupByType_sections commits) as (Hs & _ & _).
  rewrite E in Hs. apply ascending_tail in Hs.
  inversion Hs as [|? ? _ Hall]; subst.
  rewrite Forall_forall in Hall. specialize (Hall _ Hin).
  vm_compute in Hall. apply Hall. reflexivity.
Qed.

(* ================================================================== *)
(** * Changelog renderer *)
(* ================================================================== *)

Lemma dropLegacy_parsed :
  parseCommit (rawRecord (js "3f2a9c41d07e") (js "feat!: drop legacy API") [])
  = Returned (Some dropLegacy).
Proof. vm_compute. reflexivity. Qed.

Lemma filter_nonempty {A} (p : A -> bool) (l : list A) :
  existsb p l = true -> (0 <? length (filter p l))%nat = true.
Proof.
  induction l as [|x l IH]; simpl; [discriminate|].
  destruct (p x); simpl; [reflexivity | exact IH].
Qed.

(** C4, as stated, fails on the code: the groups are built from all
    the commits, and a breaking commit is listed in the section of its
    category as well. *)
Lemma groupByType_keeps_breaking :
  ~ (forall commits : list Commit,
       hasBreakingChanges commits = true ->
       forall k cs c,
         In (k, cs) (groupByType commits) -> In c cs -> breaking c = false).
Proof.
  intros H.
  specialize (H [dropLegacy] eq_refl (js "feat") [dropLegacy] dropLegacy).
  assert (E : breaking dropLegacy = false).
  { apply H; [vm_compute|]; left; reflexivity. }
  discriminate E.
Qed.

(** C4, amended: when some commit is breaking, the lines are the
    header, an empty line, the [BREAKING CHANGES] heading, an empty
    line, one bullet for each breaking commit with its scope prefix
    when it has a scope, an empty line, then the category sections and
    the link line; the category sections group all the commits, the
    breaking ones too, each in the group of its key. *)
Theorem changelog_breaking_section (w : World) (version : jsstring)
    (commits : list Commit) (lastTag : option jsstring) :
  hasBreakingChanges commits = true ->
  (exists link,
     changelogLines w version commits lastTag
     = [js "## [" ++ version ++ js "] - " ++ slice0 10 (toISOString (clock w));
        []; js "### BREAKING CHANGES"; []]
       ++ map (fun c => js "- " ++ scopePrefix c ++ description c)
              (filter breaking commits)
       ++ [[]]
       ++ concat (map section (groupByType commits))
       ++ [link])
  /\ (forall c, In c commits ->
        exists cs, In (groupKey c, cs) (groupByType commits) /\ In c cs)
  /\ (forall k cs, In (k, cs) (groupByType commits) ->
        cs = membersOf commits k).
Proof.
  intros Hb. split; [|split].
  - unfold changelogLines, collectBreakingChanges.
    rewrite length_map, (filter_nonempty _ _ Hb).
    eexists. cbn [app]. do 4 f_equal.
    rewrite map_map, <- !app_assoc. reflexivity.
  - intros c Hc. destruct (groupByType_covers commits c Hc) as [H1 H2]. eauto.
  - intros k cs H. apply groupByType_sections in H as [_ H]. exact H.
Qed.

Lemma changelog_breaking_section_witness :
  hasBreakingChanges [dropLegacy] = true
  /\ exists cs, In (groupKey dropLegacy, cs) (groupByType [dropLegacy])
                /\ In dropLegacy cs.
Proof.
  split; [reflexivity|].
  exact (proj1 (proj2 (@changelog_breaking_section sampleWorld
           (js "2.0.0") [dropLegacy] None eq_refl))
           dropLegacy (or_introl eq_refl)).
Defined.

(** C7, on the code: a type that names a property [COMMIT_TYPES]
    inherits from [Object.prototype] is in no registry entry, yet it is
    not absorbed into ['other']: it keeps a group of its own, rendered
    under the heading [Other] after [Other Changes]. *)
Theorem groupByType_inherited_key :
  let commits :=
    classified
      [ rawRecord (js "3f2a9c41d07e") (js "wip: tidy up") [];
        rawRecord (js "8d1c07be6a25") (js "constructor: inject the clock") [] ] in
  assoc (js "wip") COMMIT_TYPES = None
  /\ assoc (js "constructor") COMMIT_TYPES = None
  /\ map (fun g => (fst g, labelOf (fst g), orderOf (fst g),
                    map description (snd g)))
         (groupByType commits)
     = [ (js "other", js "Other Changes", 11%Z, [js "tidy up"]);
         (js "constructor", js "Other", 99%Z, [js "inject the clock"]) ].
Proof. vm_compute. repeat split. Qed.

(** The parts of C7 that hold: ascending order, no empty section,
    input order inside a section, and every type that names no
    property of [COMMIT_TYPES] in the group ['other']. *)
Lemma groupByType_order (commits : list Commit) :
  ascending (groupByType commits)
  /\ (forall k cs, In (k, cs) (groupByType commits) ->
        cs <> [] /\ cs = membersOf commits k)
  /\ (forall c, In c commits -> COMMIT_TYPES_get (type c) = None ->
        In c (membersOf commits (js "other"))).
Proof.
  destruct (groupByType_sections commits) as (Hs & _ & Hk).
  split; [exact Hs|]. split.
  - intros k cs H. apply Hk in H as [(c & Hc & <-) ->]. split; [|reflexivity].
    intros E. destruct (groupByType_covers commits c Hc) as [_ Hin].
    rewrite E in Hin. exact Hin.
  - intros c Hc Hnone. unfold membersOf. apply filter_In. split; [exact Hc|].
    unfold groupKey. rewrite Hnone. apply streq_refl.
Qed.

(** The date of the header depends on the day of the clock only. *)
Lemma pad_length (width : nat) (n : Z) : (width <= length (pad width n))%nat.
Proof. unfold pad. rewrite length_app, repeat_length. lia. Qed.

Lemma isoDate_length (day : Z) : (10 <= length (isoDate day))%nat.
Proof.
  unfold isoDate. destruct (civil day) as [[y mo] d].
  set (year := if ((0 <=? y)%Z && (y <=? 9999)%Z)%bool then pad 4 y
               else (if (y <? 0)%Z then 45%N else 43%N) :: pad 6 (Z.abs y)).
  assert (4 <= length year)%nat.
  { subst year. destruct ((0 <=? y)%Z && (y <=? 9999)%Z)%bool.
    - apply pad_length.
    - pose proof (pad_length 6 (Z.abs y)). simpl. lia. }
  rewrite !length_app.
  pose proof (pad_length 2 mo). pose proof (pad_length 2 d).
  change (length (js "-")) with 1%nat. lia.
Qed.

Lemma header_date (t : Z) :
  slice0 10 (toISOString t) = firstn 10 (isoDate (Day t)).
Proof.
  unfold slice0, toISOString. rewrite firstn_app.
  pose proof (isoDate_length (Day t)) as H.
  replace (10 - length (isoDate (Day t)))%nat with 0%nat by lia.
  rewrite firstn_0, app_nil_r. reflexivity.
Qed.

(** C9: two calls with the same version, commits and last tag, made at
    two instants of the same UTC day, return the same text. *)
Theorem generateChangelog_same_day (w1 w2 : World) (version : jsstring)
    (commits : list Commit) (lastTag : option jsstring) :
  Day (clock w1) = Day (clock w2) ->
  generateChangelog w1 version commits lastTag
  = generateChangelog w2 version commits lastTag.
Proof.
  intros H. unfold generateChangelog, changelogLines.
  rewrite !header_date, H. reflexivity.
Qed.

Lemma generateChangelog_same_day_witness :
  clock sampleWorld <> clock laterWorld
  /\ Day (clock sampleWorld) = Day (clock laterWorld)
  /\ generateChangelog sampleWorld (js "2.0.0") [dropLegacy] (Some (js "v1.2.3"))
     = generateChangelog laterWorld (js "2.0.0") [dropLegacy] (Some (js "v1.2.3")).
Proof.
  split; [discriminate|]. split; [reflexivity|].
  exact (@generateChangelog_same_day sampleWorld laterWorld (js "2.0.0")
           [dropLegacy] (Some (js "v1.2.3")) eq_refl).
Defined.

(* ================================================================== *)
(** * Tagging *)
(* ================================================================== *)

(** C8, as stated, fails on the code: for a version that starts with
    [v] the tag is the version itself, and a tag named [v] + version
    does not stop [createTag]. *)
Lemma createTag_prefixed_version :
  ~ (forall (version message : jsstring) (dryRun : bool) (w : World),
       hasTag (js "v" ++ version) w = true ->
       throws (fst (createTag version message dryRun w)) = true).
Proof.
  intros H.
  specialize (H (js "v1.3.0") (js "Release v1.3.0") false doubledWorld eq_refl).
  vm_compute in H. discriminate H.
Qed.

Lemma verifies_hasTag (name : jsstring) (w : World) :
  hasTag name w = true -> verifies name w = true.
Proof. intros H. unfold verifies. rewrite H. reflexivity. Qed.

Lemma verifies_free (name : jsstring) (w : World) :
  verifies name w = false -> hasTag name w = false.
Proof.
  unfold verifies. intros H. apply orb_false_iff in H. exact (proj1 H).
Qed.

(** C8, amended: with the tag named the version itself when the
    version starts with [v], and [v] + version otherwise: [createTag]
    first asks git whether [refs/tags/] + tag verifies, which it does
    for a tag there is.  When it verifies, [createTag] throws the
    [already exists] message, the check is all that ran and no tag is
    created, whether dry-run or not.  When it does not, a dry run
    returns the tag name and the check is all that ran; otherwise
    [git tag -a] runs after the check, and [createTag] returns the tag
    name with the tag created where git accepts, and throws git's
    error with no tag created where git refuses. *)
Theorem createTag_checks_first (version message : jsstring) (dryRun : bool)
    (w : World) :
  let tag := tagName version in
  let check := GitRevParseVerify (js "refs/tags/" ++ tag) in
  let create := GitTagAnnotated tag message in
  (hasTag tag w = true -> verifies tag w = true)
  /\ (verifies tag w = true ->
      exists w',
        createTag version message dryRun w = (Thrown (tagTaken tag), w')
        /\ tags w' = tags w
        /\ trace w' = trace w ++ [check])
  /\ (verifies tag w = false ->
      exists w',
        createTag version message true w = (Returned tag, w')
        /\ tags w' = tags w
        /\ trace w' = trace w ++ [check])
  /\ (verifies tag w = false -> refused tag message w = None ->
      exists w',
        createTag version message false w = (Returned tag, w')
        /\ tags w' = tags w ++ [(tag, annotation (git w) message)]
        /\ trace w' = trace w ++ [check; create])
  /\ (forall e,
        verifies tag w = false -> refused tag message w = Some e ->
        exists w',
          createTag version message false w = (Thrown e, w')
          /\ tags w' = tags w
          /\ trace w' = trace w ++ [check; create]).
Proof.
  cbv zeta. unfold createTag, tagExists. fold (tagName version).
  split; [exact (@verifies_hasTag (tagName version) w)|].
  split; [intros H; rewrite H; eexists; repeat split|].
  split; [intros H; rewrite H; eexists; repeat split|].
  assert (G : forall o,
            verifies (tagName version) w = false ->
            refused (tagName version) message w = o ->
            gitTag (tagName version) message
              (run (GitRevParseVerify (js "refs/tags/" ++ tagName version)) w)
            = match o with
              | Some e =>
                  (Thrown e,
                   run (GitTagAnnotated (tagName version) message)
                     (run (GitRevParseVerify
                             (js "refs/tags/" ++ tagName version)) w))
              | None =>
                  (Returned tt,
                   setTags (tags w ++ [(tagName version,
                                        annotation (git w) message)])
                     (run (GitTagAnnotated (tagName version) message)
                        (run (GitRevParseVerify
                                (js "refs/tags/" ++ tagName version)) w)))
              end).
  { intros o H R. unfold gitTag.
    change (hasTag (tagName version)
              (run (GitRevParseVerify (js "refs/tags/" ++ tagName version)) w))
      with (hasTag (tagName version) w).
    rewrite (verifies_free _ _ H).
    change (refused (tagName version) message
              (run (GitRevParseVerify (js "refs/tags/" ++ tagName version)) w))
      with (refused (tagName version) message w).
    rewrite R. destruct o; reflexivity. }
  split.
  - intros H R. rewrite H. cbn [negb]. rewrite (G None H R).
    eexists. split; [reflexivity|]. split; [reflexivity|].
    cbn [trace setTags run]. rewrite <- app_assoc. reflexivity.
  - intros e H R. rewrite H. cbn [negb]. rewrite (G (Some e) H R).
    eexists. split; [reflexivity|]. split; [reflexivity|].
    cbn [trace run]. rewrite <- app_assoc. reflexivity.
Qed.

Lemma createTag_checks_first_witness :
  hasTag (js "v1.2.3") sampleWorld = true
  /\ verifies (js "v1.2.4") sampleWorld = false
  /\ refused (js "v1.2.4") (js "Release v1.2.4") sampleWorld = None
  /\ (exists w',
        createTag (js "1.2.3") (js "Release v1.2.3") true sampleWorld
        = (Thrown (tagTaken (js "v1.2.3")), w')
        /\ tags w' = tags sampleWorld
        /\ trace w' = [GitRevParseVerify (js "refs/tags/v1.2.3")])
  /\ (exists w',
        createTag (js "1.2.4") (js "Release v1.2.4") false sampleWorld
        = (Returned (js "v1.2.4"), w')
        /\ tags w' = tags sampleWorld
                     ++ [(js "v1.2.4",
                          annotation (git sampleWorld) (js "Release v1.2.4"))]
        /\ trace w' = [GitRevParseVerify (js "refs/tags/v1.2.4");
                       GitTagAnnotated (js "v1.2.4") (js "Release v1.2.4")]).
Proof.
  assert (T : hasTag (js "v1.2.3") sampleWorld = true) by reflexivity.
  assert (F : verifies (js "v1.2.4") sampleWorld = false) by reflexivity.
  assert (R : refused (js "v1.2.4") (js "Release v1.2.4") sampleWorld = None)
    by reflexivity.
  destruct (@createTag_checks_first (js "1.2.3") (js "Release v1.2.3") true
              sampleWorld) as (V & K & _).
  destruct (@createTag_checks_first (js "1.2.4") (js "Release v1.2.4") false
              sampleWorld) as (_ & _ & _ & C & _).
  exact (conj T (conj F (conj R (conj (K (V T)) (C F R))))).
Defined.

(* ================================================================== *)
(** * Worked examples *)
(* ================================================================== *)

(** [Number] on the texts a version component can be. *)
Example Number_examples :
  map (fun s => Number (js s))
      ["7"; "007"; ""; " 12 "; "-7"; "+7"; "0x1F"; "0b101"; "1e3"; "10e-1";
       "x"; "1e"; "+"; "- 1"; "1_0"; "0x"; "9007199254740992";
       "9007199254740993"; "1e-1"; "Infinity"]
  = [Int 7; Int 7; Int 0; Int 12; Int (-7); Int 7; Int 31; Int 5; Int 1000;
     Int 1; NaN; NaN; NaN; NaN; NaN; NaN; Int 9007199254740992;
     Other; Other; Other].
Proof. vm_compute. reflexivity. Qed.

Example toISOString_examples :
  map toISOString [0; 1793577600123; -1; 253402300800000; -62198755200000]%Z
  = map js ["1970-01-01T00:00:00.000Z"; "2026-11-02T00:00:00.123Z";
            "1969-12-31T23:59:59.999Z"; "+010000-01-01T00:00:00.000Z";
            "-000001-01-01T00:00:00.000Z"].
Proof. vm_compute. reflexivity. Qed.

(** The grammar on a few subjects: type, scope, breaking marker and
    description, or no match. *)
Example COMMIT_PATTERN_examples :
  map (fun s => match exec COMMIT_PATTERN (js s) with
                | Some g => Some (group "type" g, group "scope" g,
                                  group "breaking" g, group "description" g)
                | None => None
                end)
      ["feat(api)!: drop v1"; "fix : trailing"; "just a message";
       "Feat: capital"; "feat(): empty scope"; "feat(x(): odd scope";
       "docs:"; "chore(deps) : bump"]
  = [ Some (Some (js "feat"), Some (js "api"), Some (js "!"),
            Some (js "drop v1"));
      Some (Some (js "fix"), None, None, Some (js "trailing"));
      None; None; None;
      Some (Some (js "feat"), Some (js "x("), None, Some (js "odd scope"));
      None;
      Some (Some (js "chore"), Some (js "deps"), None, Some (js "bump")) ].
Proof. vm_compute. reflexivity. Qed.

Example BREAKING_BODY_PATTERN_examples :
  map (fun s => test BREAKING_BODY_PATTERN (js s))
      ["BREAKING CHANGE: x"; "see below. breaking change here";
       "BREAKING CHANGE"; "BREAKING-CHANGE: x"; "BREAKING CHANGES: x"; ""]
  = [true; true; false; false; false; false].
Proof. vm_compute. reflexivity. Qed.

(** The scenario of the specification: three commits on version
    1.2.3. *)
Example release_scenario :
  let commits :=
    classified (map (fun s => rawRecord (js "3f2a9c41d07e") (js s) [])
                    ["feat: add export"; "fix: null pointer";
                     "feat!: drop legacy API"]) in
  determineBumpType commits = js "major"
  /\ calcNextVersion (js "1.2.3") (determineBumpType commits)
     = Returned (js "2.0.0")
  /\ changelogLines sampleWorld (js "2.0.0") commits (Some (js "v1.2.3"))
     = map js
         [ "## [2.0.0] - 2026-11-02"; "";
           "### BREAKING CHANGES"; "";
           "- drop legacy API"; "";
           "### Features"; "";
           "- add export ([3f2a9c4])";
           "- drop legacy API ([3f2a9c4])"; "";
           "### Bug Fixes"; "";
           "- null pointer ([3f2a9c4])"; "";
           "[2.0.0]: https://github.com/NickCirv/release-pilot/compare/v1.2.3...v2.0.0" ].
Proof. vm_compute. repeat split. Qed.

(* ================================================================== *)
(** * Trimming *)
(* ================================================================== *)

Lemma trimStart_shape (s : jsstring) :
  trimStart s = [] \/ exists x t, trimStart s = x :: t /\ isSpace x = false.
Proof.
  induction s as [|c s IH]; simpl; [auto|].
  destruct (isSpace c) eqn:E; [exact IH | right; eauto].
Qed.

Lemma trimStart_suffix (s : jsstring) :
  exists dropped, s = dropped ++ trimStart s /\ forallb isSpace dropped = true.
Proof.
  induction s as [|c s (d & Hd & Hs)]; simpl; [exists []; auto|].
  destruct (isSpace c) eqn:E.
  - exists (c :: d). simpl. rewrite E, Hs, <- Hd. auto.
  - exists []. auto.
Qed.

(** Trimming the start keeps a last code unit that is no white space. *)
Lemma trimStart_snoc (a : jsstring) (c : N) :
  isSpace c = false -> exists a', trimStart (a ++ [c]) = a' ++ [c].
Proof.
  intros Hc. induction a as [|x a (a' & IH)]; simpl.
  - rewrite Hc. exists []. reflexivity.
  - destruct (isSpace x); [exists a'; exact IH | exists (x :: a); reflexivity].
Qed.

Lemma trimEnd_snoc (a : jsstring) (c : N) :
  isSpace c = false -> trimEnd (a ++ [c]) = a ++ [c].
Proof.
  intros Hc. unfold trimEnd. rewrite rev_app_distr. simpl. rewrite Hc.
  simpl. rewrite rev_involutive. reflexivity.
Qed.

Lemma last_snoc (a : jsstring) (c d : N) : last (a ++ [c]) d = c.
Proof. apply last_last. Qed.

(** A text that is not empty ends with its last code unit. *)
Lemma snoc_last (s : jsstring) (d : N) :
  s <> [] -> s = removelast s ++ [last s d].
Proof. intros H. apply app_removelast_last. exact H. Qed.

Lemma tidy_ends (x y : N) (p q : jsstring) :
  isSpace x = false -> isSpace y = false -> x :: p = q ++ [y] ->
  tidy (x :: p) = true.
Proof.
  intros Hx Hy E. unfold tidy.
  replace (last (x :: p) x) with y by (rewrite E; symmetry; apply last_last).
  rewrite Hx, Hy. reflexivity.
Qed.

(** [trim] returns a tidy text, and leaves a tidy text as it is. *)
Lemma trim_tidy (s : jsstring) : tidy (trim s) = true.
Proof.
  unfold trim. destruct (trimStart_shape s) as [E | (x & t & E & Hx)];
    rewrite E; [reflexivity|].
  unfold trimEnd. simpl rev.
  destruct (trimStart_snoc (rev t) x Hx) as (a' & Ha).
  destruct (trimStart_shape (rev t ++ [x])) as [E' | (y & u & E' & Hy)].
  - rewrite Ha in E'. destruct a'; discriminate.
  - assert (E1 : rev (trimStart (rev t ++ [x])) = x :: rev a')
      by (rewrite Ha, rev_app_distr; reflexivity).
    assert (E2 : rev (trimStart (rev t ++ [x])) = rev u ++ [y])
      by (rewrite E'; reflexivity).
    rewrite E1. apply (@tidy_ends x y (rev a') (rev u) Hx Hy). congruence.
Qed.

Lemma tidy_trim (s : jsstring) : tidy s = true -> trim s = s.
Proof.
  destruct s as [|x t]; [reflexivity|]. unfold tidy. intros H.
  apply andb_true_iff in H as [Hx Hl]. apply negb_true_iff in Hx, Hl.
  unfold trim. rewrite (@trimStart_head x t Hx).
  rewrite (@snoc_last (x :: t) x) by discriminate.
  apply trimEnd_snoc. exact Hl.
Qed.

Lemma trim_idempotent (s : jsstring) : trim (trim s) = trim s.
Proof. apply tidy_trim, trim_tidy. Qed.

(** A text that ends with something that is no white space does not
    trim to nothing, and keeps its end. *)
Lemma trim_snoc (a : jsstring) (c : N) :
  isSpace c = false -> exists a', trim (a ++ [c]) = a' ++ [c].
Proof.
  intros Hc. unfold trim.
  destruct (trimStart_snoc a c Hc) as (a' & Ha). rewrite Ha.
  exists a'. apply trimEnd_snoc. exact Hc.
Qed.

(* ================================================================== *)
(** * The matcher, step by step *)
(* ================================================================== *)

Lemma firstn_taken (i : nat) (a b : jsstring) :
  firstn (i + length a - i) (a ++ b) = a.
Proof.
  replace (i + length a - i)%nat with (length a) by lia.
  rewrite firstn_app, firstn_all, Nat.sub_diag, firstn_0, app_nil_r.
  reflexivity.
Qed.

(** A greedy repetition takes the whole run when what follows the run
    lets the rest of the pattern match. *)
Lemma m_star_greedy (p : N -> bool) (taken rest : jsstring) :
  forall i g k out,
    forallb p taken = true ->
    k (i + length taken)%nat rest g = Some out ->
    stops p rest = true ->
    m_star p i (taken ++ rest) g k = Some out.
Proof.
  induction taken as [|x t IH]; simpl; intros i g k out Hp Hk Hs.
  - rewrite Nat.add_0_r in Hk. destruct rest as [|c r]; simpl; [exact Hk|].
    simpl in Hs. apply negb_true_iff in Hs. rewrite Hs. exact Hk.
  - apply andb_true_iff in Hp as [Hx Ht]. rewrite Hx.
    rewrite (IH (S i) g k out Ht); [reflexivity | | exact Hs].
    rewrite Nat.add_succ_r in Hk. exact Hk.
Qed.

(** Forward steps: how a pattern that starts with one construct
    matches a text that starts with what the construct takes. *)
Lemma step_chr (c : N) (r : regex) (i : nat) (rest : jsstring)
    (g : captures) (k : cont) :
  m (Chr c +> r) i (c :: rest) g k = m r (S i) rest g k.
Proof. simpl. rewrite N.eqb_refl. reflexivity. Qed.

Lemma step_star (p : N -> bool) (r : regex) (i : nat)
    (taken rest : jsstring) (g : captures) (k : cont) (out : captures) :
  forallb p taken = true -> stops p rest = true ->
  m r (i + length taken) rest g k = Some out ->
  m (Star p +> r) i (taken ++ rest) g k = Some out.
Proof.
  intros Hp Hs Hk. simpl. apply m_star_greedy; assumption.
Qed.

Lemma step_group (n : string) (p : N -> bool) (r : regex) (i : nat)
    (taken rest : jsstring) (g : captures) (k : cont) (out : captures) :
  truthy taken = true -> forallb p taken = true -> stops p rest = true ->
  m r (i + length taken) rest ((n, taken) :: g) k = Some out ->
  m (Grp n (Plus p) +> r) i (taken ++ rest) g k = Some out.
Proof.
  intros Hne Hp Hs Hk. destruct taken as [|x t]; [discriminate|].
  simpl in Hp. apply andb_true_iff in Hp as [Hx Ht].
  cbn [m app]. rewrite Hx. apply m_star_greedy; [exact Ht | | exact Hs].
  cbv beta.
  replace (S i + length t - i)%nat with (i + length (x :: t) - i)%nat
    by (cbn [length]; lia).
  change (x :: t ++ rest) with ((x :: t) ++ rest). rewrite firstn_taken.
  replace (S i + length t)%nat with (i + length (x :: t))%nat
    by (cbn [length]; lia).
  exact Hk.
Qed.

Lemma step_opt_taken (a r : regex) (i : nat) (s : jsstring) (g : captures)
    (k : cont) (out : captures) :
  m (a +> r) i s g k = Some out -> m (Opt a +> r) i s g k = Some out.
Proof. simpl. intros H. rewrite H. reflexivity. Qed.

Lemma step_opt_skipped (a r : regex) (i : nat) (s : jsstring) (g : captures)
    (k : cont) :
  m (a +> r) i s g k = None -> m (Opt a +> r) i s g k = m r i s g k.
Proof. simpl. intros H. rewrite H. reflexivity. Qed.

(** Backward steps: what a match of such a pattern says of the text. *)
Lemma back_chr (c : N) (r : regex) (i : nat) (s : jsstring) (g : captures)
    (k : cont) (out : captures) :
  m (Chr c +> r) i s g k = Some out ->
  exists rest, s = c :: rest /\ m r (S i) rest g k = Some out.
Proof.
  simpl. destruct s as [|x t]; [discriminate|].
  destruct (N.eqb_spec x c) as [->|_]; [|discriminate]. eauto.
Qed.

Lemma back_star (p : N -> bool) (r : regex) (i : nat) (s : jsstring)
    (g : captures) (k : cont) (out : captures) :
  m (Star p +> r) i s g k = Some out ->
  exists taken rest,
    s = taken ++ rest /\ forallb p taken = true
    /\ m r (i + length taken) rest g k = Some out.
Proof. simpl. intros H. apply m_star_factor in H. exact H. Qed.

Lemma back_group (n : string) (p : N -> bool) (r : regex) (i : nat)
    (s : jsstring) (g : captures) (k : cont) (out : captures) :
  m (Grp n (Plus p) +> r) i s g k = Some out ->
  exists taken rest,
    s = taken ++ rest /\ truthy taken = true /\ forallb p taken = true
    /\ m r (i + length taken) rest ((n, taken) :: g) k = Some out.
Proof.
  cbn [m]. destruct s as [|x t]; [discriminate|].
  destruct (p x) eqn:Hx; [|discriminate]. intros H.
  apply m_star_factor in H as (taken & rest & -> & Hp & H).
  exists (x :: taken), rest. simpl. rewrite Hx, Hp.
  repeat split; auto.
  cbv beta in H.
  replace (S i + length taken - i)%nat
    with (i + length (x :: taken) - i)%nat in H by (cbn [length]; lia).
  change (x :: taken ++ rest) with ((x :: taken) ++ rest) in H.
  rewrite firstn_taken in H.
  replace (i + S (length taken))%nat with (S i + length taken)%nat by lia.
  exact H.
Qed.

Lemma back_opt (a r : regex) (i : nat) (s : jsstring) (g : captures)
    (k : cont) (out : captures) :
  m (Opt a +> r) i s g k = Some out ->
  m (a +> r) i s g k = Some out
  \/ (m (a +> r) i s g k = None /\ m r i s g k = Some out).
Proof.
  simpl. destruct (m a i s g (fun i' s' g' => m r i' s' g' k)) as [o|];
    [intros [= ->]; auto | auto].
Qed.

(* ================================================================== *)
(** * The commit grammar, in both directions *)
(* ================================================================== *)

Lemma m_assoc (a b c : regex) (i : nat) (s : jsstring) (g : captures)
    (k : cont) :
  m ((a +> b) +> c) i s g k = m (a +> b +> c) i s g k.
Proof. reflexivity. Qed.

Lemma afterType_unfold : afterType = Opt scopePattern +> afterScope.
Proof. reflexivity. Qed.

Lemma afterScope_unfold :
  afterScope = Opt (Grp "breaking" (Chr 33)) +> afterBang.
Proof. reflexivity. Qed.

(** What comes before the colon after the type, the scope and the
    marker starts with white space or with the colon. *)
Lemma colon_part_head (ws1 tail : jsstring) :
  forallb isSpace ws1 = true ->
  exists c r, ws1 ++ [58%N] ++ tail = c :: r
              /\ (isSpace c = true \/ c = 58%N).
Proof.
  destruct ws1 as [|c ws]; simpl; intros H.
  - exists 58%N, tail. auto.
  - apply andb_true_iff in H as [Hc _]. exists c, (ws ++ 58%N :: tail). auto.
Qed.

Lemma colon_head_facts (c : N) :
  isSpace c = true \/ c = 58%N ->
  (c =? 33)%N = false /\ (c =? 40)%N = false /\ isLower c = false.
Proof.
  intros [H | ->]; [|repeat split; reflexivity].
  repeat split.
  - apply N.eqb_neq. intros ->. discriminate H.
  - apply N.eqb_neq. intros ->. discriminate H.
  - destruct (isLower c) eqn:E; [|reflexivity].
    rewrite (lower_not_space _ E) in H. discriminate H.
Qed.

(** From the first white space before the colon on. *)
Lemma afterBang_forward (i : nat) (ws1 ws2 d : jsstring) (g : captures) :
  forallb isSpace ws1 = true -> forallb isSpace ws2 = true ->
  truthy d = true -> forallb isDot d = true -> stops isSpace d = true ->
  m afterBang i (ws1 ++ [58%N] ++ ws2 ++ d) g accept
  = Some (("description", d) :: g).
Proof.
  intros H1 H2 Hd Hdot Hstop. unfold afterBang.
  apply step_star; [exact H1 | reflexivity |].
  cbn [app]. rewrite step_chr.
  apply step_star; [exact H2 | exact Hstop |].
  rewrite <- (app_nil_r d) at 1.
  apply step_group; [exact Hd | exact Hdot | reflexivity | reflexivity].
Qed.

Lemma afterBang_back (i : nat) (s : jsstring) (g out : captures) :
  m afterBang i s g accept = Some out ->
  exists ws1 ws2 d,
    s = ws1 ++ [58%N] ++ ws2 ++ d
    /\ forallb isSpace ws1 = true /\ forallb isSpace ws2 = true
    /\ truthy d = true /\ forallb isDot d = true
    /\ out = ("description", d) :: g.
Proof.
  unfold afterBang. intros H.
  apply back_star in H as (ws1 & s1 & -> & H1 & H).
  apply back_chr in H as (s2 & -> & H).
  apply back_star in H as (ws2 & s3 & -> & H2 & H).
  apply back_group in H as (d & s4 & -> & Hd & Hdot & H).
  simpl in H. destruct s4; [|discriminate]. injection H as <-.
  exists ws1, ws2, d. rewrite app_nil_r. repeat split; auto.
Qed.

(** From the breaking marker on. *)
Lemma afterScope_forward (i : nat) (bang : bool) (ws1 ws2 d : jsstring)
    (g : captures) :
  forallb isSpace ws1 = true -> forallb isSpace ws2 = true ->
  truthy d = true -> forallb isDot d = true -> stops isSpace d = true ->
  m afterScope i (bangText bang ++ ws1 ++ [58%N] ++ ws2 ++ d) g accept
  = Some (("description", d)
          :: (if bang then [("breaking", [33%N])] else []) ++ g).
Proof.
  intros H1 H2 Hd Hdot Hstop. rewrite afterScope_unfold.
  destruct bang; cbn [bangText app].
  - apply step_opt_taken. cbn [m]. rewrite N.eqb_refl.
    replace (S i - i)%nat with 1%nat by lia. cbn [firstn].
    apply afterBang_forward; assumption.
  - rewrite step_opt_skipped; [apply afterBang_forward; assumption|].
    destruct (colon_part_head ws1 (ws2 ++ d) H1) as (c & r & E & Hc).
    cbn [app] in E. rewrite E. destruct (colon_head_facts Hc) as (E33 & _ & _).
    cbn [m]. rewrite E33. reflexivity.
Qed.

Lemma afterScope_back (i : nat) (s : jsstring) (g out : captures) :
  m afterScope i s g accept = Some out ->
  exists bang ws1 ws2 d,
    s = bangText bang ++ ws1 ++ [58%N] ++ ws2 ++ d
    /\ forallb isSpace ws1 = true /\ forallb isSpace ws2 = true
    /\ truthy d = true /\ forallb isDot d = true
    /\ out = ("description", d)
             :: (if bang then [("breaking", [33%N])] else []) ++ g.
Proof.
  rewrite afterScope_unfold. intros H.
  apply back_opt in H as [H | [_ H]].
  - cbn [m] in H. destruct s as [|x s]; [discriminate|].
    destruct (N.eqb_spec x 33) as [->|_]; [|discriminate].
    replace (S i - i)%nat with 1%nat in H by lia. cbn [firstn] in H.
    apply afterBang_back in H as (ws1 & ws2 & d & -> & H).
    exists true, ws1, ws2, d. split; [reflexivity | exact H].
  - apply afterBang_back in H as (ws1 & ws2 & d & -> & H).
    exists false, ws1, ws2, d. split; [reflexivity | exact H].
Qed.

(** From the scope on. *)
Lemma afterType_forward (i : nat) (sc : option jsstring) (bang : bool)
    (ws1 ws2 d : jsstring) (g : captures) :
  match sc with
  | Some x => truthy x && forallb notRParen x
  | None => true
  end = true ->
  forallb isSpace ws1 = true -> forallb isSpace ws2 = true ->
  truthy d = true -> forallb isDot d = true -> stops isSpace d = true ->
  m afterType i (scopeText sc ++ bangText bang ++ ws1 ++ [58%N] ++ ws2 ++ d)
    g accept
  = Some (("description", d)
          :: (if bang then [("breaking", [33%N])] else [])
          ++ (match sc with Some x => [("scope", x)] | None => [] end) ++ g).
Proof.
  intros Hsc H1 H2 Hd Hdot Hstop. rewrite afterType_unfold.
  destruct sc as [x|]; cbn [scopeText].
  - apply andb_true_iff in Hsc as [Hx Hp].
    apply step_opt_taken. unfold scopePattern. rewrite m_assoc.
    cbn [app]. rewrite step_chr, m_assoc. rewrite <- app_assoc.
    apply step_group; [exact Hx | exact Hp | reflexivity |].
    cbn [app]. rewrite step_chr.
    apply afterScope_forward; assumption.
  - cbn [app]. rewrite step_opt_skipped; [apply afterScope_forward; assumption|].
    unfold scopePattern. rewrite !m_assoc.
    destruct (colon_part_head ws1 (ws2 ++ d) H1) as (c & r & E & Hc).
    destruct (colon_head_facts Hc) as (_ & E40 & _).
    destruct bang; cbn [bangText app]; [reflexivity|].
    cbn [app] in E. rewrite E. cbn [m]. rewrite E40. reflexivity.
Qed.

Lemma afterType_back (i : nat) (s : jsstring) (g out : captures) :
  m afterType i s g accept = Some out ->
  exists sc bang ws1 ws2 d,
    s = scopeText sc ++ bangText bang ++ ws1 ++ [58%N] ++ ws2 ++ d
    /\ match sc with
       | Some x => truthy x && forallb notRParen x
       | None => true
       end = true
    /\ forallb isSpace ws1 = true /\ forallb isSpace ws2 = true
    /\ truthy d = true /\ forallb isDot d = true
    /\ out = ("description", d)
             :: (if bang then [("breaking", [33%N])] else [])
             ++ (match sc with Some x => [("scope", x)] | None => [] end)
             ++ g.
Proof.
  rewrite afterType_unfold. intros H.
  apply back_opt in H as [H | [_ H]].
  - unfold scopePattern in H. rewrite m_assoc in H.
    apply back_chr in H as (s1 & -> & H). rewrite m_assoc in H.
    apply back_group in H as (x & s2 & -> & Hx & Hp & H).
    apply back_chr in H as (s3 & -> & H).
    apply afterScope_back in H as (bang & ws1 & ws2 & d & -> & H).
    exists (Some x), bang, ws1, ws2, d. cbn [scopeText].
    split; [rewrite <- !app_assoc; reflexivity|].
    split; [rewrite Hx, Hp; reflexivity | exact H].
  - apply afterScope_back in H as (bang & ws1 & ws2 & d & -> & H).
    exists None, bang, ws1, ws2, d. cbn [scopeText app].
    split; [reflexivity|]. split; [reflexivity|]. exact H.
Qed.

(** The grammar matches every text of the conventional shape, with
    the four pieces as its groups. *)
Lemma COMMIT_PATTERN_forward (t : jsstring) (sc : option jsstring)
    (bang : bool) (ws1 ws2 d : jsstring) :
  wellFormed t sc ws1 ws2 d = true -> stops isSpace d = true ->
  exec COMMIT_PATTERN (subjectText t sc bang ws1 ws2 d)
  = Some (capturesOf t sc bang d).
Proof.
  unfold wellFormed. intros H Hstop.
  repeat (apply andb_true_iff in H as [H ?]).
  rewrite COMMIT_PATTERN_unfold, exec_anchored. unfold subjectText.
  apply step_group; [assumption | assumption | |].
  - destruct (colon_part_head ws1 (ws2 ++ d)) as (c & r & E & Hc);
      [assumption|].
    destruct (colon_head_facts Hc) as (_ & _ & Hl).
    destruct sc; [reflexivity|]. destruct bang; [reflexivity|].
    cbn [scopeText bangText app]. cbn [app] in E. rewrite E. cbn [stops].
    rewrite Hl. reflexivity.
  - unfold capturesOf. rewrite afterType_forward by assumption.
    reflexivity.
Qed.

(** Every text that the grammar matches has the conventional shape,
    and the groups are its pieces. *)
Lemma COMMIT_PATTERN_back (subject : jsstring) (groups : captures) :
  exec COMMIT_PATTERN subject = Some groups ->
  exists t sc bang ws1 ws2 d,
    subject = subjectText t sc bang ws1 ws2 d
    /\ wellFormed t sc ws1 ws2 d = true
    /\ groups = capturesOf t sc bang d.
Proof.
  rewrite COMMIT_PATTERN_unfold, exec_anchored. intros H.
  apply back_group in H as (t & s1 & -> & Ht & Hl & H).
  apply afterType_back in H
    as (sc & bang & ws1 & ws2 & d & -> & Hsc & H1 & H2 & Hd & Hdot & ->).
  exists t, sc, bang, ws1, ws2, d. unfold subjectText, wellFormed, capturesOf.
  rewrite Ht, Hl, Hsc, H1, H2, Hd, Hdot. repeat split.
Qed.

(* ================================================================== *)
(** * Commit parser: what a classification holds *)
(* ================================================================== *)

Lemma toLowerCase_lower (t : jsstring) :
  forallb isLower t = true -> toLowerCase t = t.
Proof.
  intros H. unfold toLowerCase. rewrite <- (map_id t) at 2.
  apply map_ext_in. intros c Hc. unfold lowerUnit.
  rewrite forallb_forall in H. specialize (H c Hc).
  destruct (isUpper c) eqn:Hu; [|reflexivity].
  units H; units Hu; lia.
Qed.

Lemma capturesOf_groups (t : jsstring) (sc : option jsstring) (bang : bool)
    (d : jsstring) :
  group "type" (capturesOf t sc bang d) = Some t
  /\ group "scope" (capturesOf t sc bang d) = sc
  /\ truthy_opt (group "breaking" (capturesOf t sc bang d)) = bang
  /\ group "description" (capturesOf t sc bang d) = Some d.
Proof. destruct sc, bang; repeat split. Qed.

Lemma trim_bodyOf (rawCommit : jsstring) :
  trim (bodyOf rawCommit) = bodyOf rawCommit.
Proof. unfold bodyOf. apply trim_idempotent. Qed.

(** [parseCommit] on a subject that the grammar matches, in terms of
    the pieces of the subject. *)
Lemma parseCommit_pieces (rawCommit t : jsstring) (sc : option jsstring)
    (bang : bool) (ws1 ws2 d : jsstring) :
  subjectOf rawCommit = subjectText t sc bang ws1 ws2 d ->
  wellFormed t sc ws1 ws2 d = true ->
  exec COMMIT_PATTERN (subjectOf rawCommit) = Some (capturesOf t sc bang d) ->
  parseCommit rawCommit
  = Returned (Some {| hash := hashOf rawCommit;
                      type := t;
                      scope := sc;
                      description := trim d;
                      body := bodyOf rawCommit;
                      breaking := bang || test BREAKING_BODY_PATTERN
                                               (bodyOf rawCommit);
                      raw := subjectOf rawCommit |}).
Proof.
  intros Hs Hw Hm. unfold parseCommit.
  fold (subjectOf rawCommit) (hashOf rawCommit) (bodyOf rawCommit).
  rewrite Hm.
  destruct (capturesOf_groups t sc bang d) as (Gt & Gs & Gb & Gd).
  rewrite Gt, Gs, Gb, Gd.
  unfold wellFormed in Hw. repeat (apply andb_true_iff in Hw as [Hw ?]).
  assert (Hne : truthy (subjectOf rawCommit) = true).
  { rewrite Hs. unfold subjectText. destruct t; [discriminate | reflexivity]. }
  rewrite Hne. cbn [negb method bind].
  rewrite toLowerCase_lower by assumption.
  rewrite trim_bodyOf.
  replace (if truthy_opt sc then sc else None) with sc; [reflexivity|].
  destruct sc as [x|]; [|reflexivity]. simpl.
  match goal with H : _ && forallb notRParen x = true |- _ =>
    apply andb_true_iff in H as [-> _] end.
  reflexivity.
Qed.

(** X1.  A subject of the conventional shape -- a type of small
    letters, a scope in parentheses that is not empty and has no
    closing parenthesis (or no scope), the breaking marker or not,
    a colon with white space around it, a tidy description on one
    line -- is classified by its pieces: the type, the scope, the
    description, and breaking when the marker is there or the body
    carries the breaking phrase. *)
Theorem parseCommit_conventional (rawCommit t : jsstring)
    (sc : option jsstring) (bang : bool) (ws1 ws2 d : jsstring) :
  wellFormed t sc ws1 ws2 d = true -> tidy d = true ->
  subjectOf rawCommit = subjectText t sc bang ws1 ws2 d ->
  parseCommit rawCommit
  = Returned (Some {| hash := hashOf rawCommit;
                      type := t;
                      scope := sc;
                      description := d;
                      body := bodyOf rawCommit;
                      breaking := bang || test BREAKING_BODY_PATTERN
                                               (bodyOf rawCommit);
                      raw := subjectOf rawCommit |}).
Proof.
  intros Hw Ht Hs.
  assert (Hstop : stops isSpace d = true).
  { destruct d as [|x d']; [reflexivity|]. unfold tidy in Ht.
    apply andb_true_iff in Ht as [Hx _]. exact Hx. }
  rewrite (@parseCommit_pieces rawCommit t sc bang ws1 ws2 d Hs Hw).
  - rewrite (tidy_trim _ Ht). reflexivity.
  - rewrite Hs. apply COMMIT_PATTERN_forward; assumption.
Qed.

Lemma parseCommit_conventional_witness :
  parseCommit (rawRecord (js "3f2a9c41d07e")
                         (js " feat(api)! :  drop the v1 routes ")
                         (js "see the migration guide"))
  = Returned (Some {| hash := js "3f2a9c41d07e";
                      type := js "feat";
                      scope := Some (js "api");
                      description := js "drop the v1 routes";
                      body := js "see the migration guide";
                      breaking := true;
                      raw := js "feat(api)! :  drop the v1 routes" |}).
Proof.
  exact (@parseCommit_conventional
           (rawRecord (js "3f2a9c41d07e")
                      (js " feat(api)! :  drop the v1 routes ")
                      (js "see the migration guide"))
           (js "feat") (Some (js "api")) true (js " ") (js "  ")
           (js "drop the v1 routes") eq_refl eq_refl eq_refl).
Defined.

(** X2.  Whatever [parseCommit] returns is either the classification
    of a subject outside the grammar, or that of a subject which is
    its type, its scope in parentheses, the breaking marker, a colon
    with white space around it, and a text whose trimming is the
    description, in this order and with nothing else. *)
Theorem parseCommit_anatomy (rawCommit : jsstring) (c : Commit) :
  parseCommit rawCommit = Returned (Some c) ->
  (exec COMMIT_PATTERN (subjectOf rawCommit) = None
   /\ c = unclassified rawCommit)
  \/ (exists bang ws1 ws2 d,
        subjectOf rawCommit = subjectText (type c) (scope c) bang ws1 ws2 d
        /\ wellFormed (type c) (scope c) ws1 ws2 d = true
        /\ description c = trim d
        /\ breaking c = bang || test BREAKING_BODY_PATTERN (bodyOf rawCommit)
        /\ raw c = subjectOf rawCommit).
Proof.
  intros H.
  destruct (exec COMMIT_PATTERN (subjectOf rawCommit)) as [groups|] eqn:Hm.
  - right.
    destruct (COMMIT_PATTERN_back _ Hm)
      as (t & sc & bang & ws1 & ws2 & d & Hs & Hw & ->).
    rewrite (@parseCommit_pieces rawCommit t sc bang ws1 ws2 d Hs Hw Hm) in H.
    injection H as <-. cbn [type scope description breaking raw].
    exists bang, ws1, ws2, d. repeat split; assumption.
  - left. split; [reflexivity|].
    assert (Hne : subjectOf rawCommit <> []).
    { intros E. unfold parseCommit in H. fold (subjectOf rawCommit) in H.
      rewrite E in H. discriminate H. }
    rewrite (parseCommit_unmatched _ Hne Hm) in H. congruence.
Qed.

Lemma parseCommit_anatomy_witness :
  exists bang ws1 ws2 d,
    js "fix(parser) : handle tabs"
    = subjectText (js "fix") (Some (js "parser")) bang ws1 ws2 d
    /\ trim d = js "handle tabs".
Proof.
  destruct (@parseCommit_anatomy
              (rawRecord (js "8d1c07be6a25") (js "fix(parser) : handle tabs") [])
              {| hash := js "8d1c07be6a25"; type := js "fix";
                 scope := Some (js "parser");
                 description := js "handle tabs"; body := [];
                 breaking := false; raw := js "fix(parser) : handle tabs" |}
              eq_refl)
    as [[Hno _] | (bang & ws1 & ws2 & d & Hs & _ & Hd & _)].
  - vm_compute in Hno. discriminate Hno.
  - exists bang, ws1, ws2, d. split; [exact Hs | symmetry; exact Hd].
Defined.

Lemma tidy_last (a : jsstring) (c : N) :
  tidy (a ++ [c]) = true -> isSpace c = false.
Proof.
  unfold tidy. destruct (a ++ [c]) as [|x r] eqn:E;
    [destruct a; discriminate|].
  rewrite <- E, last_last. intros H.
  apply andb_true_iff in H as [_ H]. apply negb_true_iff in H. exact H.
Qed.

(** X3.  No commit that [parseCommit] returns has an empty type or an
    empty description, and its hash, description, body and raw subject
    have no white space at either end. *)
Theorem parseCommit_fields_tidy (rawCommit : jsstring) (c : Commit) :
  parseCommit rawCommit = Returned (Some c) ->
  type c <> [] /\ description c <> [] /\ raw c <> []
  /\ tidy (hash c) = true /\ tidy (description c) = true
  /\ tidy (body c) = true /\ tidy (raw c) = true.
Proof.
  intros H.
  assert (Hsub : subjectOf rawCommit <> []).
  { intros E. unfold parseCommit in H. fold (subjectOf rawCommit) in H.
    rewrite E in H. discriminate H. }
  assert (Tsub : tidy (subjectOf rawCommit) = true) by apply trim_tidy.
  destruct (exec COMMIT_PATTERN (subjectOf rawCommit)) as [groups|] eqn:Hm.
  - destruct (COMMIT_PATTERN_back _ Hm)
      as (t & sc & bang & ws1 & ws2 & d & Hs & Hw & ->).
    rewrite (@parseCommit_pieces rawCommit t sc bang ws1 ws2 d Hs Hw Hm) in H.
    injection H as <-. cbn [type description raw hash body] in *.
    unfold wellFormed in Hw. repeat (apply andb_true_iff in Hw as [Hw ?]).
    repeat split; try assumption; try apply trim_tidy.
    + destruct t; [discriminate | discriminate].
    + destruct d as [|x d'] using rev_ind; [discriminate|].
      assert (Hx : isSpace x = false).
      { rewrite Hs in Tsub. unfold subjectText in Tsub.
        rewrite !app_assoc in Tsub. apply tidy_last in Tsub. exact Tsub. }
      destruct (trim_snoc d' x Hx) as (a' & E). rewrite E.
      destruct a'; discriminate.
  - rewrite (parseCommit_unmatched _ Hsub Hm) in H. injection H as <-.
    cbn [type description raw hash body unclassified].
    repeat split; try assumption; try discriminate; apply trim_tidy.
Qed.

Lemma parseCommit_fields_tidy_witness :
  description dropLegacy <> [] /\ tidy (description dropLegacy) = true.
Proof.
  destruct (@parseCommit_fields_tidy
              (rawRecord (js "3f2a9c41d07e") (js "feat!: drop legacy API") [])
              dropLegacy eq_refl) as (_ & Hd & _ & _ & Ht & _).
  exact (conj Hd Ht).
Defined.

(* ================================================================== *)
(** * The breaking phrase *)
(* ================================================================== *)

(** A search succeeds exactly when the pattern matches at some index. *)
Lemma search_sound (r : regex) (s : jsstring) :
  forall i g,
    search r i s = Some g ->
    exists pre rest,
      s = pre ++ rest /\ m r (i + length pre) rest [] accept = Some g.
Proof.
  induction s as [|c t IH]; intros i g; simpl.
  - destruct (m r i [] [] accept) as [o|] eqn:E; [|discriminate].
    intros [= <-]. exists [], []. simpl. rewrite Nat.add_0_r. auto.
  - destruct (m r i (c :: t) [] accept) as [o|] eqn:E.
    + intros [= <-]. exists [], (c :: t). simpl. rewrite Nat.add_0_r. auto.
    + intros H. apply IH in H as (pre & rest & -> & H).
      exists (c :: pre), rest. simpl. rewrite Nat.add_succ_r. auto.
Qed.

Lemma search_complete (r : regex) (pre : jsstring) :
  forall rest i g,
    m r (i + length pre) rest [] accept = Some g ->
    exists g', search r i (pre ++ rest) = Some g'.
Proof.
  induction pre as [|c pre IH]; intros rest i g H.
  - simpl in H. rewrite Nat.add_0_r in H. simpl.
    destruct rest; simpl; rewrite H; eauto.
  - simpl. destruct (m r i (c :: pre ++ rest) [] accept) as [o|]; [eauto|].
    apply (IH rest (S i) g). simpl in H. rewrite Nat.add_succ_r in H. exact H.
Qed.

(** A literal under the [i] flag takes a text of the same letters, in
    either case. *)
Lemma LitI_back (lit : jsstring) (r : regex) :
  forall i s g k out,
    m (LitI lit r) i s g k = Some out ->
    exists w s',
      s = w ++ s' /\ map canonicalize w = map canonicalize lit
      /\ m r (i + length w) s' g k = Some out.
Proof.
  induction lit as [|c l IH]; intros i s g k out H.
  - exists [], s. simpl. rewrite Nat.add_0_r. auto.
  - cbn [LitI ChrI m] in H. destruct s as [|x t]; [discriminate|].
    destruct (N.eqb_spec (canonicalize x) (canonicalize c)) as [E|_];
      [|discriminate].
    apply IH in H as (w & s' & -> & Hw & H).
    exists (x :: w), s'. simpl. rewrite E, Hw, Nat.add_succ_r. auto.
Qed.

Lemma LitI_forward (lit : jsstring) (r : regex) :
  forall w i s' g k,
    map canonicalize w = map canonicalize lit ->
    m (LitI lit r) i (w ++ s') g k = m r (i + length w) s' g k.
Proof.
  induction lit as [|c l IH]; intros w i s' g k Hw.
  - destruct w; [|discriminate]. simpl. rewrite Nat.add_0_r. reflexivity.
  - destruct w as [|x w]; [discriminate|]. injection Hw as Hx Hw.
    cbn [LitI ChrI m app]. rewrite Hx, N.eqb_refl.
    rewrite (IH w (S i) s' g k Hw). simpl. rewrite Nat.add_succ_r.
    reflexivity.
Qed.

Lemma breaking_phrase_sound (text : jsstring) :
  test BREAKING_BODY_PATTERN text = true ->
  exists pre w c post,
    text = pre ++ w ++ c :: post
    /\ map canonicalize w = js "BREAKING CHANGE"
    /\ (c = 58%N \/ isSpace c = true).
Proof.
  unfold test, exec, BREAKING_BODY_PATTERN.
  destruct (search _ 0 text) as [g|] eqn:E; [intros _ | discriminate].
  apply search_sound in E as (pre & rest & -> & H).
  apply LitI_back in H as (w & s' & -> & Hw & H).
  cbn [m] in H. destruct s' as [|c post]; [discriminate|].
  destruct ((c =? 58)%N || isSpace c) eqn:Hc; [|discriminate].
  exists pre, w, c, post. split; [reflexivity|]. split; [exact Hw|].
  apply orb_true_iff in Hc as [Hc|Hc]; [left; apply N.eqb_eq | right];
    exact Hc.
Qed.

Lemma breaking_phrase_complete (pre w post : jsstring) (c : N) :
  map canonicalize w = js "BREAKING CHANGE" ->
  c = 58%N \/ isSpace c = true ->
  test BREAKING_BODY_PATTERN (pre ++ w ++ c :: post) = true.
Proof.
  intros Hw Hc. unfold test, exec, BREAKING_BODY_PATTERN.
  assert (Hw' : map canonicalize w = map canonicalize (js "BREAKING CHANGE"))
    by (rewrite Hw; reflexivity).
  assert (H : m (LitI (js "BREAKING CHANGE")
                   (Cls (fun c => (c =? 58)%N || isSpace c)))
                (0 + length pre) (w ++ c :: post) [] accept = Some []).
  { rewrite (LitI_forward _ _ _ _ _ _ _ Hw'). cbn [m].
    replace ((c =? 58)%N || isSpace c) with true; [reflexivity|].
    symmetry. apply orb_true_iff.
    destruct Hc as [-> | Hc]; [left; reflexivity | right; exact Hc]. }
  apply search_complete in H as (g' & ->). reflexivity.
Qed.

(** X4.  [BREAKING_BODY_PATTERN] finds the phrase anywhere in a text,
    not only at the start of a line: it tests true exactly for the
    texts that hold the fifteen code units of [BREAKING CHANGE], each
    letter in either case, followed by a colon or by white space. *)
Theorem BREAKING_BODY_PATTERN_spec (text : jsstring) :
  test BREAKING_BODY_PATTERN text = true
  <-> exists pre w c post,
        text = pre ++ w ++ c :: post
        /\ map canonicalize w = js "BREAKING CHANGE"
        /\ (c = 58%N \/ isSpace c = true).
Proof.
  split; [apply breaking_phrase_sound|].
  intros (pre & w & c & post & -> & Hw & Hc).
  apply breaking_phrase_complete; assumption.
Qed.

(** X5.  A subject inside the grammar with the breaking phrase anywhere
    in the body is classified as breaking, marker or not. *)
Theorem parseCommit_breaking_body (rawCommit pre w post : jsstring) (c : N) :
  exec COMMIT_PATTERN (subjectOf rawCommit) <> None ->
  bodyOf rawCommit = pre ++ w ++ c :: post ->
  map canonicalize w = js "BREAKING CHANGE" ->
  c = 58%N \/ isSpace c = true ->
  exists commit,
    parseCommit rawCommit = Returned (Some commit)
    /\ breaking commit = true.
Proof.
  intros Hm Hb Hw Hc.
  destruct (exec COMMIT_PATTERN (subjectOf rawCommit)) as [groups|] eqn:E;
    [|contradiction].
  destruct (COMMIT_PATTERN_back _ E)
    as (t & sc & bang & ws1 & ws2 & d & Hs & Hwf & ->).
  rewrite (@parseCommit_pieces rawCommit t sc bang ws1 ws2 d Hs Hwf E).
  eexists. split; [reflexivity|]. cbn [breaking].
  replace (test BREAKING_BODY_PATTERN (bodyOf rawCommit)) with true;
    [apply orb_true_r|].
  symmetry. rewrite Hb. apply breaking_phrase_complete; assumption.
Qed.

Lemma parseCommit_breaking_body_witness :
  exists commit,
    parseCommit (rawRecord (js "8d1c07be6a25") (js "fix: reject empty names")
                           (js "Details below." ++ [10%N]
                            ++ js "Breaking change: names are now required"))
    = Returned (Some commit)
    /\ breaking commit = true.
Proof.
  apply (@parseCommit_breaking_body
           (rawRecord (js "8d1c07be6a25") (js "fix: reject empty names")
                      (js "Details below." ++ [10%N]
                       ++ js "Breaking change: names are now required"))
           (js "Details below." ++ [10%N]) (js "Breaking change")
           (js " names are now required") 58%N).
  - discriminate.
  - reflexivity.
  - reflexivity.
  - left. reflexivity.
Defined.

(** X6.  The fields of a log record are read back trimmed: the hash,
    the subject, and the body up to its first NUL; what follows a NUL
    in the body is dropped. *)
Theorem rawRecord_fields (h subject b rest : jsstring) :
  nulFree h = true -> nulFree subject = true -> nulFree b = true ->
  (hashOf (rawRecord h subject b) = trim h
   /\ subjectOf (rawRecord h subject b) = trim subject
   /\ bodyOf (rawRecord h subject b) = trim b)
  /\ bodyOf (rawRecord h subject (b ++ 0%N :: rest)) = trim b.
Proof.
  unfold nulFree. intros Hh Hs Hb.
  unfold hashOf, subjectOf, bodyOf, rawRecord, part. cbn [app].
  rewrite !(splitOn_piece 0 h _ Hh), !(splitOn_piece 0 subject _ Hs).
  rewrite (splitOn_last 0 b Hb), (splitOn_piece 0 b rest Hb).
  repeat split.
Qed.

Lemma rawRecord_fields_witness :
  bodyOf (rawRecord (js "3f2a9c41d07e") (js "feat: add export")
                    (js " first part " ++ 0%N :: js "second part"))
  = js "first part".
Proof.
  rewrite (proj2 (@rawRecord_fields (js "3f2a9c41d07e")
                    (js "feat: add export") (js " first part ")
                    (js "second part") eq_refl eq_refl eq_refl)).
  reflexivity.
Defined.

(* ================================================================== *)
(** * Grouping: nothing lost, nothing twice, ties in input order *)
(* ================================================================== *)

Lemma membersOf_nil (k : jsstring) : membersOf [] k = [].
Proof. reflexivity. Qed.

Lemma membersOf_cons (c : Commit) (l : list Commit) (k : jsstring) :
  membersOf (c :: l) k
  = if streq (groupKey c) k then c :: membersOf l k else membersOf l k.
Proof. reflexivity. Qed.

Lemma concat_members_other (c : Commit) (l : list Commit)
    (ks : list jsstring) :
  ~ In (groupKey c) ks ->
  concat (map (membersOf (c :: l)) ks) = concat (map (membersOf l) ks).
Proof.
  induction ks as [|k ks IH]; intros H; [reflexivity|].
  cbn [map concat]. rewrite membersOf_cons.
  destruct (streq (groupKey c) k) eqn:E.
  - apply streq_spec in E. exfalso. apply H. left. auto.
  - rewrite IH; [reflexivity|]. intros Hin. apply H. right. exact Hin.
Qed.

(** The groups of distinct keys that cover the commits hold each
    commit once. *)
Lemma concat_members_perm (l : list Commit) :
  forall ks,
    NoDup ks -> (forall c, In c l -> In (groupKey c) ks) ->
    Permutation (concat (map (membersOf l) ks)) l.
Proof.
  induction l as [|c l IH]; intros ks Hnd Hcov.
  - replace (concat (map (membersOf []) ks)) with (@nil Commit);
      [constructor|].
    induction ks as [|k ks IHk]; [reflexivity|].
    cbn [map concat]. rewrite <- IHk; [reflexivity| |intros ? []].
    inversion Hnd; assumption.
  - assert (Hin : In (groupKey c) ks) by (apply Hcov; left; reflexivity).
    apply in_split in Hin as (k1 & k2 & ->).
    pose proof (NoDup_remove _ _ _ Hnd) as [_ Hnot].
    rewrite map_app, concat_app. cbn [map concat].
    rewrite membersOf_cons, streq_refl.
    rewrite !concat_members_other
      by (intros Hin; apply Hnot; apply in_or_app; auto).
    cbn [app]. rewrite <- Permutation_middle. constructor.
    specialize (IH (k1 ++ groupKey c :: k2)).
    rewrite map_app, concat_app in IH. cbn [map concat] in IH.
    apply IH; [exact Hnd|].
    intros c' Hc'. apply Hcov. right. exact Hc'.
Qed.

Lemma Permutation_concat {A} (l l' : list (list A)) :
  Permutation l l' -> Permutation (concat l) (concat l').
Proof.
  induction 1; cbn [concat].
  - constructor.
  - apply Permutation_app_head. assumption.
  - rewrite !app_assoc. apply Permutation_app_tail, Permutation_app_comm.
  - etransitivity; eassumption.
Qed.

Lemma grouped_members (commits : list Commit) :
  map snd (grouped commits) = map (membersOf commits) (firstKeys commits).
Proof.
  destruct (grouped_closed commits) as (-> & _ & _).
  rewrite map_map. reflexivity.
Qed.

(** X7.  [groupByType] neither drops nor repeats a commit: the commits
    of its groups, taken together, are the commits it was given, and
    so the bullets of the category sections are one for each commit. *)
Theorem groupByType_partition (commits : list Commit) :
  Permutation (concat (map snd (groupByType commits))) commits
  /\ Permutation
       (concat (map (fun g => map formatEntry (snd g)) (groupByType commits)))
       (map formatEntry commits).
Proof.
  assert (P : Permutation (concat (map snd (groupByType commits))) commits).
  { unfold groupByType. fold (grouped commits).
    rewrite <- (Permutation_concat
                  (Permutation_map snd (sortByOrder_perm (grouped commits)))).
    rewrite grouped_members.
    destruct (grouped_closed commits) as (_ & Hnd & Hk).
    apply concat_members_perm; [exact Hnd|].
    intros c Hc. apply Hk. exists c. auto. }
  split; [exact P|].
  rewrite <- (Permutation_map formatEntry P).
  rewrite concat_map, map_map. reflexivity.
Qed.

Lemma insertByOrder_ofOrder (o : Z) (e : jsstring * list Commit)
    (l : groups) :
  ofOrder o (insertByOrder e l)
  = if (orderOf (fst e) =? o)%Z then e :: ofOrder o l else ofOrder o l.
Proof.
  unfold ofOrder. induction l as [|e' l IH]; [reflexivity|].
  cbn [insertByOrder].
  destruct (Z.leb_spec (orderOf (fst e)) (orderOf (fst e'))) as [Hle|Hgt].
  - reflexivity.
  - cbn [filter]. rewrite IH.
    destruct (Z.eqb_spec (orderOf (fst e)) o) as [He|He]; [|reflexivity].
    destruct (Z.eqb_spec (orderOf (fst e')) o) as [He'|He']; [lia|].
    reflexivity.
Qed.

Lemma sortByOrder_ofOrder (o : Z) (g : groups) :
  ofOrder o (sortByOrder g) = ofOrder o g.
Proof.
  induction g as [|e g IH]; [reflexivity|].
  cbn [sortByOrder fold_right]. fold (sortByOrder g).
  rewrite insertByOrder_ofOrder, IH. reflexivity.
Qed.

(** X8.  The sort of [groupByType] is stable: the groups of one
    display order come out in the order in which their first commits
    came in, each with the commits of its key. *)
Theorem groupByType_stable (commits : list Commit) (o : Z) :
  ofOrder o (groupByType commits)
  = map (fun k => (k, membersOf commits k))
        (filter (fun k => (orderOf k =? o)%Z) (firstKeys commits)).
Proof.
  unfold groupByType. fold (grouped commits).
  rewrite sortByOrder_ofOrder.
  destruct (grouped_closed commits) as (-> & _ & _).
  unfold ofOrder. induction (firstKeys commits) as [|k ks IH];
    [reflexivity|].
  cbn [map filter fst]. rewrite IH.
  destruct (orderOf k =? o)%Z; reflexivity.
Qed.

(** The labels a section can have. *)
Lemma assoc_in {V} (k : jsstring) (l : list (jsstring * V)) (v : V) :
  assoc k l = Some v -> In v (map snd l).
Proof.
  induction l as [|[k' v'] l IH]; simpl; [discriminate|].
  destruct (streq k' k); [intros [= ->]; auto | auto].
Qed.

Lemma labelOf_values (k : jsstring) :
  In (labelOf k) (js "Other" :: map (fun e => fst (snd e)) COMMIT_TYPES).
Proof.
  unfold labelOf, COMMIT_TYPES_get.
  destruct (assoc k COMMIT_TYPES) as [[label order]|] eqn:E.
  - right. apply assoc_in in E. apply in_map_iff in E as ([k' [l o]] & Ev & Hin).
    cbn [snd] in Ev. injection Ev as -> ->.
    apply in_map_iff. exists (k', (label, order)). auto.
  - left. destruct (existsb (streq k) Object_prototype); reflexivity.
Qed.

Lemma labelOf_not_breaking (k : jsstring) :
  labelOf k <> js "BREAKING CHANGES".
Proof.
  intros E. pose proof (labelOf_values k) as H. rewrite E in H.
  vm_compute in H.
  repeat (destruct H as [H|H]; [discriminate H|]). exact H.
Qed.

Lemma line_not_heading (start rest : jsstring) :
  start = js "## [" \/ start = js "- " \/ start = js "[" ->
  start ++ rest <> js "### BREAKING CHANGES".
Proof.
  intros [-> | [-> | ->]] H; vm_compute in H; discriminate H.
Qed.

Lemma changelogLines_no_heading (w : World) (version : jsstring)
    (commits : list Commit) (lastTag : option jsstring) :
  hasBreakingChanges commits = false ->
  ~ In (js "### BREAKING CHANGES")
       (changelogLines w version commits lastTag).
Proof.
  intros Hb. unfold changelogLines, collectBreakingChanges.
  assert (E : filter breaking commits = []).
  { unfold hasBreakingChanges in Hb. induction commits as [|c l IH];
      [reflexivity|]. simpl in *. apply orb_false_iff in Hb as [-> Hl]. auto. }
  rewrite E. cbn [map length Nat.ltb Nat.leb app].
  intros [H | [H | H]].
  - exact (line_not_heading _ (or_introl eq_refl) H).
  - discriminate H.
  - apply in_app_or in H as [H | [H | []]].
    + apply in_concat in H as (sec & Hsec & Hin).
      apply in_map_iff in Hsec as ([k cs] & <- & _).
      unfold section in Hin. cbn [fst snd app] in Hin.
      destruct Hin as [H | [H | H]].
      * change (js "### BREAKING CHANGES")
          with (js "### " ++ js "BREAKING CHANGES") in H.
        apply app_inv_head in H. exact (labelOf_not_breaking k H).
      * discriminate H.
      * apply in_app_or in H as [H | [H | []]]; [|discriminate H].
        apply in_map_iff in H as (c & H & _). unfold formatEntry in H.
        exact (line_not_heading _ (or_intror (or_introl eq_refl)) H).
    + destruct lastTag as [t|]; [destruct (truthy t)|];
        exact (line_not_heading _ (or_intror (or_intror eq_refl)) H).
Qed.

Lemma oneLine_app (a b : jsstring) :
  oneLine (a ++ b) = oneLine a && oneLine b.
Proof. apply forallb_app. Qed.

Lemma oneLine_firstn (n : nat) (s : jsstring) :
  oneLine s = true -> oneLine (firstn n s) = true.
Proof.
  revert n. induction s as [|c s IH]; intros [|n] H; try reflexivity.
  cbn [firstn oneLine forallb] in *. apply andb_prop in H as [Hc Hs].
  rewrite Hc. exact (IH n Hs).
Qed.

Lemma oneLine_digits (s : jsstring) :
  forallb isDigit s = true -> oneLine s = true.
Proof.
  induction s as [|c s IH]; [reflexivity|].
  cbn [forallb oneLine]. intros H. apply andb_prop in H as [Hc Hs].
  fold (oneLine s). rewrite (IH Hs), andb_true_r.
  unfold isDigit in Hc. apply andb_prop in Hc as [Hlo _].
  apply N.leb_le in Hlo. apply negb_true_iff, N.eqb_neq. lia.
Qed.

Lemma oneLine_pad (width : nat) (n : Z) : oneLine (pad width n) = true.
Proof.
  unfold pad. rewrite oneLine_app.
  rewrite (oneLine_digits _ (proj1 (decimal_digits (Z.to_N n)))).
  rewrite andb_true_r. induction (width - _)%nat as [|k IH]; [reflexivity|].
  cbn [repeat oneLine forallb]. exact IH.
Qed.

Lemma oneLine_isoDate (day : Z) : oneLine (isoDate day) = true.
Proof.
  unfold isoDate. destruct (civil day) as [[y mo] d].
  rewrite !oneLine_app, !oneLine_pad.
  destruct ((0 <=? y)%Z && (y <=? 9999)%Z); [rewrite oneLine_pad; reflexivity|].
  change (oneLine ((if (y <? 0)%Z then 45%N else 43%N) :: pad 6 (Z.abs y)))
    with (negb ((if (y <? 0)%Z then 45 else 43) =? 10)%N
          && oneLine (pad 6 (Z.abs y))).
  rewrite oneLine_pad. destruct (y <? 0)%Z; reflexivity.
Qed.

Lemma splitOn_join (lines : list jsstring) :
  lines <> [] -> forallb oneLine lines = true ->
  splitOn 10 (join [10%N] lines) = lines.
Proof.
  induction lines as [|l rest IH]; intros Hne Hall; [contradiction|].
  cbn [forallb] in Hall. apply andb_prop in Hall as [Hl Hrest].
  destruct rest as [|l2 rest].
  - exact (splitOn_last 10 l Hl).
  - change (join [10%N] (l :: l2 :: rest))
      with (l ++ 10%N :: join [10%N] (l2 :: rest)).
    rewrite (splitOn_piece 10 l _ Hl).
    rewrite IH; [reflexivity | discriminate | exact Hrest].
Qed.

Lemma oneLine_label (k : jsstring) : oneLine (labelOf k) = true.
Proof.
  pose proof (labelOf_values k) as H.
  assert (A : forallb oneLine
                (js "Other" :: map (fun e => fst (snd e)) COMMIT_TYPES) = true)
    by reflexivity.
  rewrite forallb_forall in A. exact (A _ H).
Qed.

Lemma oneLine_scopePrefix (c : Commit) :
  oneLine (orEmpty (scope c)) = true -> oneLine (scopePrefix c) = true.
Proof.
  unfold scopePrefix. destruct (scope c) as [sc|]; [|reflexivity].
  cbn [orEmpty]. intros H. destruct (truthy sc); [|reflexivity].
  rewrite !oneLine_app, H. reflexivity.
Qed.

Lemma oneLine_entry (c : Commit) :
  oneLineCommit c = true -> oneLine (formatEntry c) = true.
Proof.
  unfold oneLineCommit. intros H.
  apply andb_prop in H as [H Hh]. apply andb_prop in H as [Hd Hs].
  unfold formatEntry. rewrite !oneLine_app, Hd, (oneLine_scopePrefix c Hs).
  destruct (truthy (hash c)); [|reflexivity].
  rewrite !oneLine_app, Hh. reflexivity.
Qed.

Lemma membersOf_in (commits : list Commit) (k : jsstring) (c : Commit) :
  In c (membersOf commits k) -> In c commits.
Proof. unfold membersOf. intros H. apply filter_In in H. exact (proj1 H). Qed.

Lemma changelogLines_oneLine (w : World) (version : jsstring)
    (commits : list Commit) (lastTag : option jsstring) :
  hasBreakingChanges commits = false ->
  forallb oneLineCommit commits = true ->
  oneLine version = true -> oneLine (orEmpty lastTag) = true ->
  forallb oneLine (changelogLines w version commits lastTag) = true.
Proof.
  intros Hb Hc Hv Ht. apply forallb_forall. intros line Hin.
  unfold changelogLines, collectBreakingChanges in Hin.
  assert (E : filter breaking commits = []).
  { unfold hasBreakingChanges in Hb. clear Hc Hin.
    induction commits as [|c l IH]; [reflexivity|]. simpl in *.
    apply orb_false_iff in Hb as [-> Hl]. auto. }
  rewrite E in Hin. cbn [map length Nat.ltb Nat.leb app] in Hin.
  destruct Hin as [<- | [<- | Hin]]; [| reflexivity |].
  - rewrite !oneLine_app, Hv, header_date.
    rewrite (oneLine_firstn 10 _ (oneLine_isoDate _)). reflexivity.
  - apply in_app_or in Hin as [Hin | [<- | []]].
    + apply in_concat in Hin as (sec & Hsec & Hin).
      apply in_map_iff in Hsec as ([k cs] & <- & Hg).
      unfold section in Hin. cbn [fst snd app] in Hin.
      destruct Hin as [<- | [<- | Hin]]; [| reflexivity |].
      * rewrite oneLine_app, oneLine_label. reflexivity.
      * apply in_app_or in Hin as [Hin | [<- | []]]; [|reflexivity].
        apply in_map_iff in Hin as (c & <- & Hm).
        apply oneLine_entry.
        destruct (groupByType_sections commits) as (_ & _ & Hs).
        apply Hs in Hg as (_ & ->).
        rewrite forallb_forall in Hc. exact (Hc c (membersOf_in _ _ _ Hm)).
    + destruct lastTag as [t|]; cbn [orEmpty] in Ht;
        [destruct (truthy t)|]; rewrite !oneLine_app, ?Hv, ?Ht; reflexivity.
Qed.

(** X9.  Without a breaking commit the changelog has no
    [### BREAKING CHANGES] line: where the version, the last tag, and
    the description, the scope and the seven code units printed of
    the hash of every commit hold no line feed, no line of the text
    [generateChangelog] returns is that heading, whatever the types,
    scopes and descriptions of the commits are. *)
Theorem changelog_without_breaking (w : World) (version : jsstring)
    (commits : list Commit) (lastTag : option jsstring) :
  hasBreakingChanges commits = false ->
  forallb oneLineCommit commits = true ->
  oneLine version = true -> oneLine (orEmpty lastTag) = true ->
  splitOn 10 (generateChangelog w version commits lastTag)
  = changelogLines w version commits lastTag
  /\ ~ In (js "### BREAKING CHANGES")
          (splitOn 10 (generateChangelog w version commits lastTag)).
Proof.
  intros Hb Hc Hv Ht.
  assert (S : splitOn 10 (generateChangelog w version commits lastTag)
              = changelogLines w version commits lastTag).
  { unfold generateChangelog. apply splitOn_join.
    - unfold changelogLines. discriminate.
    - exact (@changelogLines_oneLine w version commits lastTag Hb Hc Hv Ht). }
  split; [exact S|]. rewrite S.
  exact (@changelogLines_no_heading w version commits lastTag Hb).
Qed.

Lemma changelog_without_breaking_witness :
  forallb oneLineCommit [shoutingCommit] = true
  /\ ~ In (js "### BREAKING CHANGES")
          (splitOn 10
             (generateChangelog sampleWorld (js "1.2.4") [shoutingCommit]
                None)).
Proof.
  assert (C : forallb oneLineCommit [shoutingCommit] = true) by reflexivity.
  exact (conj C (proj2 (@changelog_without_breaking sampleWorld (js "1.2.4")
                          [shoutingCommit] None eq_refl C eq_refl eq_refl))).
Defined.

(* ================================================================== *)
(** * Version arithmetic: printing, reading back, composing *)
(* ================================================================== *)

Lemma valueIn_app (base : Z) (a b : jsstring) :
  valueIn base (a ++ b)
  = (valueIn base a * base ^ Z.of_nat (length b) + valueIn base b)%Z.
Proof.
  induction b as [|c b IH] using rev_ind.
  - rewrite app_nil_r. unfold valueIn at 3. simpl. lia.
  - rewrite app_assoc, !valueIn_snoc, IH, length_app. cbn [length].
    rewrite Nat2Z.inj_add, Z.pow_add_r by lia. change (Z.of_nat 1) with 1%Z.
    rewrite Z.pow_1_r. ring.
Qed.

Lemma digitValue_digit (r : N) :
  (r < 10)%N -> digitValue (48 + r) = Z.of_N r.
Proof.
  intros H. unfold digitValue.
  replace (isDigit (48 + r)) with true.
  - f_equal. lia.
  - symmetry. unfold isDigit. apply andb_true_iff; split; apply N.leb_le; lia.
Qed.

(** The digits of a number are read back as the number, given fuel
    for its bits. *)
Lemma digitsOf_value (fuel : nat) :
  forall n acc,
    (Z.of_N n < 2 ^ Z.of_nat fuel)%Z ->
    valueIn 10 (digitsOf fuel n acc)
    = (Z.of_N n * 10 ^ Z.of_nat (length acc) + valueIn 10 acc)%Z.
Proof.
  induction fuel as [|fuel IH]; intros n acc Hn.
  - simpl in Hn. assert (n = 0%N) by lia. subst. simpl. lia.
  - cbn [digitsOf].
    assert (Hr : (n mod 10 < 10)%N) by (apply N.mod_upper_bound; discriminate).
    assert (Hdm : Z.of_N n = (10 * Z.of_N (n / 10) + Z.of_N (n mod 10))%Z).
    { pose proof (N.div_mod n 10) as E.
      rewrite E at 1 by discriminate.
      rewrite N2Z.inj_add, N2Z.inj_mul. reflexivity. }
    assert (Hc : valueIn 10 ((48 + n mod 10)%N :: acc)
                 = (Z.of_N (n mod 10) * 10 ^ Z.of_nat (length acc)
                    + valueIn 10 acc)%Z).
    { change ((48 + n mod 10)%N :: acc) with ([(48 + n mod 10)%N] ++ acc).
      rewrite valueIn_app. unfold valueIn at 1. cbn [fold_left].
      rewrite digitValue_digit by exact Hr. ring. }
    destruct (N.eqb_spec (n / 10) 0) as [E|E].
    + rewrite Hc, Hdm, E. simpl Z.of_N. ring.
    + rewrite IH.
      * rewrite Hc. cbn [length]. rewrite Nat2Z.inj_succ, Z.pow_succ_r by lia.
        rewrite Hdm. ring.
      * rewrite Nat2Z.inj_succ, Z.pow_succ_r in Hn by lia.
        pose proof (N2Z.is_nonneg (n mod 10)) as Pr.
        pose proof (N2Z.is_nonneg (n / 10)) as Pq.
        rewrite Hdm in Hn.
        generalize dependent (Z.of_N (n / 10)).
        generalize dependent (Z.of_N (n mod 10)).
        generalize dependent (2 ^ Z.of_nat fuel)%Z. intros. lia.
Qed.

(** Printing a natural number and reading it back. *)
Lemma numeral_value (z : Z) : (0 <= z)%Z -> valueIn 10 (numeral z) = z.
Proof.
  intros Hz. unfold numeral, decimal. rewrite digitsOf_value.
  - cbn [length]. unfold valueIn at 1. simpl. rewrite Z2N.id by exact Hz. lia.
  - rewrite Nat2Z.inj_succ, N_nat_Z.
    destruct (Z.to_N z) as [|p] eqn:E; [reflexivity|].
    rewrite <- N2Z.inj_succ.
    change 2%Z with (Z.of_N 2). rewrite <- N2Z.inj_pow.
    apply N2Z.inj_lt. apply N.log2_spec. reflexivity.
Qed.

Lemma numeral_isNumeral (z : Z) : isNumeral (numeral z) = true.
Proof.
  unfold isNumeral, numeral.
  destruct (decimal_digits (Z.to_N z)) as [Hd Hne]. rewrite Hd.
  destruct (decimal (Z.to_N z)); [contradiction | reflexivity].
Qed.

(** [calcNextVersion] on three numerals at most 2^53 - 1. *)
Lemma calcNextVersion_numerals (a b c current kind : jsstring) :
  isNumeral a = true -> isNumeral b = true -> isNumeral c = true ->
  within two53 (valueIn 10 a, valueIn 10 b, valueIn 10 c) ->
  current = versionText a b c \/ current = js "v" ++ versionText a b c ->
  calcNextVersion current kind
  = Returned (versionOf (bumped kind (valueIn 10 a, valueIn 10 b,
                                      valueIn 10 c))).
Proof.
  intros Ha Hb Hc (Ba & Bb & Bc) Hcur.
  destruct (split_versionText a b c Ha Hb Hc) as [Hsplit Hstrip].
  assert (Hs : splitOn 46 (stripLeadingV current) = [a; b; c]).
  { destruct Hcur as [-> | ->]; [rewrite Hstrip; exact Hsplit | exact Hsplit]. }
  rewrite (@calcNextVersion_tracked current kind a b c _ _ _ Hs
    (Number_numeral_exact a Ha (Z.lt_le_incl _ _ (proj2 Ba)))
    (Number_numeral_exact b Hb (Z.lt_le_incl _ _ (proj2 Bb)))
    (Number_numeral_exact c Hc (Z.lt_le_incl _ _ (proj2 Bc)))).
  assert (Z0 : numToString (Int 0) = Returned (numeral 0)) by reflexivity.
  unfold bumped, versionOf.
  destruct (streq kind (js "major")); [|destruct (streq kind (js "minor"));
    [|destruct (streq kind (js "patch"))]];
    cbv iota beta; rewrite ?add1_safe, ?Z0, ?numToString_nonneg by lia;
    reflexivity.
Qed.

Lemma versionOf_strict (v : Z * Z * Z) : isStrictVersion (versionOf v) = true.
Proof.
  destruct v as [[x y] z]. unfold isStrictVersion, versionOf.
  destruct (split_versionText _ _ _ (numeral_isNumeral x)
              (numeral_isNumeral y) (numeral_isNumeral z)) as [Hsplit Hstrip].
  rewrite Hstrip, Hsplit, !numeral_isNumeral. reflexivity.
Qed.

(** X10.  Bumps compose: for three numerals below 2^53 - 1, the text
    that a bump returns is again three dot-separated numerals in
    canonical form (no leading zeros, no [v]), and a second bump of
    that text gives what the two bumps give on the numbers. *)
Theorem calcNextVersion_compose (a b c first second : jsstring) :
  isNumeral a = true -> isNumeral b = true -> isNumeral c = true ->
  within (2 ^ 53 - 1) (valueIn 10 a, valueIn 10 b, valueIn 10 c) ->
  let v := (valueIn 10 a, valueIn 10 b, valueIn 10 c) in
  calcNextVersion (versionText a b c) first
  = Returned (versionOf (bumped first v))
  /\ isStrictVersion (versionOf (bumped first v)) = true
  /\ calcNextVersion (versionOf (bumped first v)) second
     = Returned (versionOf (bumped second (bumped first v))).
Proof.
  intros Ha Hb Hc (Ba & Bb & Bc). cbv zeta.
  assert (B : within two53 (valueIn 10 a, valueIn 10 b, valueIn 10 c))
    by (unfold within, two53; lia).
  split; [apply calcNextVersion_numerals; auto|].
  split; [apply versionOf_strict|].
  destruct (bumped first (valueIn 10 a, valueIn 10 b, valueIn 10 c))
    as [[x y] z] eqn:E.
  assert (Bx : within two53 (x, y, z)).
  { unfold bumped in E. unfold within, two53.
    destruct (streq first (js "major")); [|destruct (streq first (js "minor"));
      [|destruct (streq first (js "patch"))]]; injection E as <- <- <-; lia. }
  destruct Bx as (Bx & By & Bz).
  unfold versionOf at 1.
  rewrite (@calcNextVersion_numerals (numeral x) (numeral y) (numeral z)
             _ second (numeral_isNumeral x) (numeral_isNumeral y)
             (numeral_isNumeral z)); [| |left; reflexivity].
  - rewrite !numeral_value by lia. reflexivity.
  - rewrite !numeral_value by lia. unfold within. auto.
Qed.

Lemma calcNextVersion_compose_witness :
  calcNextVersion (js "01.9.3") (js "minor") = Returned (js "1.10.0")
  /\ calcNextVersion (js "1.10.0") (js "patch") = Returned (js "1.10.1").
Proof.
  assert (B : within (2 ^ 53 - 1)
                (valueIn 10 (js "01"), valueIn 10 (js "9"), valueIn 10 (js "3")))
    by (unfold within; repeat split; vm_compute; congruence).
  destruct (@calcNextVersion_compose (js "01") (js "9") (js "3")
              (js "minor") (js "patch") eq_refl eq_refl eq_refl B)
    as (H1 & _ & H2).
  exact (conj H1 H2).
Defined.

(** X11.  A bump kind that is none of [major], [minor] and [patch]
    (nothing checks what [--force] is given) is no error: a version of
    three numerals, each below 2^53, with or without a leading [v],
    comes back with its numbers unchanged, in canonical form, and is a
    fixed point of such a bump. *)
Theorem calcNextVersion_unknown_kind (a b c current kind : jsstring) :
  isNumeral a = true -> isNumeral b = true -> isNumeral c = true ->
  within (2 ^ 53) (valueIn 10 a, valueIn 10 b, valueIn 10 c) ->
  current = versionText a b c \/ current = js "v" ++ versionText a b c ->
  streq kind (js "major") = false -> streq kind (js "minor") = false ->
  streq kind (js "patch") = false ->
  let canonical := versionText (numeral (valueIn 10 a))
                     (numeral (valueIn 10 b)) (numeral (valueIn 10 c)) in
  calcNextVersion current kind = Returned canonical
  /\ calcNextVersion canonical kind = Returned canonical.
Proof.
  intros Ha Hb Hc B Hcur K1 K2 K3. cbv zeta.
  assert (Hb' : bumped kind (valueIn 10 a, valueIn 10 b, valueIn 10 c)
                = (valueIn 10 a, valueIn 10 b, valueIn 10 c))
    by (unfold bumped; rewrite K1, K2, K3; reflexivity).
  pose proof (valueIn_nonneg a). pose proof (valueIn_nonneg b).
  pose proof (valueIn_nonneg c).
  split.
  - rewrite (@calcNextVersion_numerals a b c current kind Ha Hb Hc B Hcur).
    rewrite Hb'. reflexivity.
  - rewrite (@calcNextVersion_numerals _ _ _ _ kind
               (numeral_isNumeral (valueIn 10 a))
               (numeral_isNumeral (valueIn 10 b))
               (numeral_isNumeral (valueIn 10 c)));
      [| |left; reflexivity].
    + rewrite !numeral_value by assumption. rewrite Hb'. reflexivity.
    + rewrite !numeral_value by assumption. exact B.
Qed.

Lemma calcNextVersion_unknown_kind_witness :
  calcNextVersion (js "v1.02.3") (js "premajor") = Returned (js "1.2.3")
  /\ calcNextVersion (js "1.2.3") (js "premajor") = Returned (js "1.2.3").
Proof.
  assert (B : within (2 ^ 53)
                (valueIn 10 (js "1"), valueIn 10 (js "02"), valueIn 10 (js "3")))
    by (unfold within; repeat split; vm_compute; congruence).
  exact (@calcNextVersion_unknown_kind (js "1") (js "02") (js "3")
           (js "v1.02.3") (js "premajor") eq_refl eq_refl eq_refl B
           (or_intror eq_refl) eq_refl eq_refl eq_refl).
Defined.

Lemma length_splitOn (sep : N) (s : jsstring) :
  length (splitOn sep s) = S (count_occ N.eq_dec s sep).
Proof.
  induction s as [|c t IH]; [reflexivity|].
  cbn [splitOn count_occ].
  destruct (N.eqb_spec c sep) as [E|E]; destruct (N.eq_dec c sep) as [E'|E'];
    try contradiction.
  - cbn [length]. rewrite IH. reflexivity.
  - destruct (splitOn sep t) as [|h r] eqn:Es;
      [exfalso; exact (splitOn_nonempty sep t Es)|].
    cbn [length] in *. exact IH.
Qed.

(** X12.  A version text that, after one leading [v] is removed, does
    not have exactly two dots is rejected whatever the bump kind, with
    a message that quotes the text as it was given. *)
Theorem calcNextVersion_wrong_arity (current kind : jsstring) :
  count_occ N.eq_dec (stripLeadingV current) 46%N <> 2%nat ->
  calcNextVersion current kind
  = Thrown (js "Invalid semver: " ++ [34%N] ++ current ++ [34%N]).
Proof.
  intros H. unfold calcNextVersion.
  pose proof (length_splitOn 46 (stripLeadingV current)) as L.
  rewrite length_map.
  destruct (Nat.eqb_spec (length (splitOn 46 (stripLeadingV current))) 3)
    as [E|E]; [lia | reflexivity].
Qed.

Lemma calcNextVersion_wrong_arity_witness :
  calcNextVersion (js "v1.2.3.4") (js "patch")
  = Thrown (js "Invalid semver: " ++ [34%N] ++ js "v1.2.3.4" ++ [34%N]).
Proof.
  apply (@calcNextVersion_wrong_arity (js "v1.2.3.4") (js "patch")).
  vm_compute. discriminate.
Defined.

(* ================================================================== *)
(** * The bump: what it reads, what it writes *)
(* ================================================================== *)

Lemma parseCommit_returns (rawCommit : jsstring) :
  exists result, parseCommit rawCommit = Returned result.
Proof.
  unfold parseCommit. fold (subjectOf rawCommit).
  destruct (truthy (subjectOf rawCommit)); cbn [negb]; [|eauto].
  destruct (exec COMMIT_PATTERN (subjectOf rawCommit)) as [g|] eqn:Hm;
    [|eauto].
  destruct (COMMIT_PATTERN_groups _ Hm) as (t & d & -> & _ & _ & ->).
  cbn [method bind]. eauto.
Qed.

Lemma parseCommits_classified (rawCommits : list jsstring) :
  parseCommits rawCommits = Returned (classified rawCommits).
Proof.
  induction rawCommits as [|r rest IH]; [reflexivity|].
  unfold classified in *. cbn [parseCommits flat_map].
  destruct (parseCommit_returns r) as (res & ->). rewrite IH.
  destruct res; reflexivity.
Qed.

Lemma sameRepo_refl (w : World) : sameRepo w w.
Proof. repeat split. Qed.

Lemma sameRepo_run (c : command) (w w' : World) :
  sameRepo w w' -> sameRepo w (run c w').
Proof. intros H. exact H. Qed.

Lemma sameRepo_trans (a b c : World) :
  sameRepo a b -> sameRepo b c -> sameRepo a c.
Proof.
  unfold sameRepo. intros (H1 & H2 & H3 & H4 & H5 & H6) (K1 & K2 & K3 & K4 & K5 & K6).
  repeat split; congruence.
Qed.

(** The two reads of the history, on any world with the same
    repository. *)
Lemma getLastTag_reads (w : World) :
  getLastTag w = (lastTagOf w, run GitDescribe w).
Proof.
  unfold lastTagOf, getLastTag. destruct (described w); reflexivity.
Qed.

Lemma fetchCommitsSince_reads (w w' : World) :
  sameRepo w w' ->
  fetchCommitsSince (lastTagOf w) w'
  = (fst (fetchCommitsSince (lastTagOf w) w), run (GitLog (rangeOf w)) w').
Proof.
  intros (_ & _ & Hh & _). unfold fetchCommitsSince, rangeOf. rewrite Hh.
  assert (E : (if truthy_opt (lastTagOf w)
               then match lastTagOf w with
                    | Some t => t ++ js "..HEAD"
                    | None => []
                    end
               else js "HEAD")
              = match lastTagOf w with
                | Some t => t ++ js "..HEAD"
                | None => js "HEAD"
                end).
  { unfold lastTagOf, getLastTag. destruct (described w) as [out|];
      [|reflexivity]. cbn [fst].
    destruct (truthy (trim out)) eqn:T; [cbn; rewrite T|]; reflexivity. }
  rewrite E.
  destruct (history w _); reflexivity.
Qed.

Lemma lastTagOf_same (w w' : World) :
  sameRepo w w' -> lastTagOf w' = lastTagOf w.
Proof.
  intros (_ & Hd & _). unfold lastTagOf, getLastTag. rewrite Hd.
  destruct (described w); reflexivity.
Qed.

Lemma commitsOf_same (w w' : World) :
  sameRepo w w' -> commitsOf w' = commitsOf w.
Proof.
  intros H. unfold commitsOf. rewrite (lastTagOf_same H).
  rewrite (fetchCommitsSince_reads H). reflexivity.
Qed.

(** [bump], step by step: two reads, the computation of the result,
    and one write of the manifest unless dry-run. *)
Lemma bump_steps (dryRun : bool) (force : option jsstring) (w : World) :
  let w2 := run (GitLog (rangeOf w)) (run GitDescribe w) in
  bump dryRun force w
  = match (current <- readCurrentVersion w ;;
           next <- calcNextVersion current (chosenBump force (commitsOf w)) ;;
           Returned {| current := current; next := next;
                       bumpType := chosenBump force (commitsOf w);
                       commits := commitsOf w |}) with
    | Returned r =>
        (Returned r,
         if dryRun then w2 else setPkg (Parsed (Some (next r))) w2)
    | Thrown e => (Thrown e, w2)
    | Untracked => (Untracked, w2)
    end.
Proof.
  cbv zeta. unfold bump, bumpWith.
  rewrite getLastTag_reads.
  rewrite (@fetchCommitsSince_reads w (run GitDescribe w) (sameRepo_refl w)).
  rewrite parseCommits_classified. cbn [bind]. fold (commitsOf w).
  fold (chosenBump force (commitsOf w)).
  change (readCurrentVersion (run (GitLog (rangeOf w)) (run GitDescribe w)))
    with (readCurrentVersion w).
  destruct (readCurrentVersion w) as [cur|e|] eqn:Hr; cbn [bind];
    [|reflexivity|reflexivity].
  destruct (calcNextVersion cur (chosenBump force (commitsOf w)))
    as [nxt|e|]; cbn [bind]; [|reflexivity|reflexivity].
  destruct dryRun; cbn [negb next]; [reflexivity|].
  unfold writeVersion. cbn [pkg run].
  unfold readCurrentVersion in Hr.
  destruct (pkg w); [discriminate Hr | reflexivity].
Qed.


(** X13.  [bump] reads the history twice and writes at most the
    manifest: tags, history, clock and path are left as they were, and
    the trace grows by [git describe] and [git log] of the range.  A
    [bump] that returns leaves the manifest as it was in a dry run and
    with the next version in it otherwise; a [bump] that throws leaves
    the manifest as it was. *)
Theorem bump_writes_only_manifest (dryRun : bool) (force : option jsstring)
    (w : World) :
  let w' := snd (bump dryRun force w) in
  tags w' = tags w /\ described w' = described w /\ history w' = history w
  /\ pkgPath w' = pkgPath w /\ clock w' = clock w
  /\ trace w' = trace w ++ [GitDescribe; GitLog (rangeOf w)]
  /\ (forall r, fst (bump dryRun force w) = Returned r ->
                pkg w' = if dryRun then pkg w else Parsed (Some (next r)))
  /\ (forall e, fst (bump dryRun force w) = Thrown e -> pkg w' = pkg w).
Proof.
  cbv zeta. rewrite bump_steps.
  assert (T : trace (run (GitLog (rangeOf w)) (run GitDescribe w))
              = trace w ++ [GitDescribe; GitLog (rangeOf w)])
    by (cbn [run trace]; rewrite <- app_assoc; reflexivity).
  destruct (current <- readCurrentVersion w ;; _) as [r|e|];
    cbn [fst snd].
  - assert (W : forall r',
              Returned r = Returned r' ->
              pkg (if dryRun
                   then run (GitLog (rangeOf w)) (run GitDescribe w)
                   else setPkg (Parsed (Some (next r)))
                          (run (GitLog (rangeOf w)) (run GitDescribe w)))
              = if dryRun then pkg w else Parsed (Some (next r')))
      by (intros r' H; injection H as <-; destruct dryRun; reflexivity).
    destruct dryRun;
      (do 5 (split; [reflexivity|]); split; [exact T|]; split; [exact W|];
       intros e H; discriminate H).
  - do 5 (split; [reflexivity|]). split; [exact T|].
    split; [intros r' H; discriminate H | intros e' _; reflexivity].
  - do 5 (split; [reflexivity|]). split; [exact T|].
    split; intros x H; discriminate H.
Qed.

(** X14.  Without a usable [version] in the manifest (unreadable,
    unparsable, no field, or an empty one) [bump] throws [Cannot read
    package.json at <path>: <message>], also for a missing field, whose
    own message is wrapped; it does so after both git calls, and for
    any history, flags and forced type. *)
Theorem bump_unusable_manifest (dryRun : bool) (force : option jsstring)
    (w : World) :
  versionField w = None ->
  bump dryRun force w
  = (Thrown (js "Cannot read package.json at " ++ pkgPath w ++ js ": "
             ++ manifestTrouble w),
     run (GitLog (rangeOf w)) (run GitDescribe w)).
Proof.
  intros H. rewrite bump_steps.
  unfold versionField in H. unfold readCurrentVersion, manifestTrouble.
  destruct (pkg w) as [message|[v|]]; cbn [bind]; try reflexivity.
  destruct (truthy v); [discriminate H | reflexivity].
Qed.

Lemma bump_unusable_manifest_witness :
  versionField brokenWorld = None
  /\ fst (bump false (Some (js "major")) brokenWorld)
     = Thrown (js "Cannot read package.json at /repo/package.json: Unexpected end of JSON input").
Proof.
  assert (H : versionField brokenWorld = None) by reflexivity.
  split; [exact H|].
  rewrite (@bump_unusable_manifest false (Some (js "major")) brokenWorld H).
  reflexivity.
Defined.


(* ================================================================== *)
(** * The changelog a release builds *)
(* ================================================================== *)

Lemma generateChangelog_clock (w w' : World) (version : jsstring)
    (commits : list Commit) (lastTag : option jsstring) :
  clock w' = clock w ->
  generateChangelog w' version commits lastTag
  = generateChangelog w version commits lastTag.
Proof.
  intros H. unfold generateChangelog, changelogLines. rewrite H. reflexivity.
Qed.

Lemma buildChangelog_steps (nextVersion : jsstring) (w : World) :
  buildChangelog nextVersion w
  = (Returned {| changelog := generateChangelog w nextVersion (commitsOf w)
                                (lastTagOf w);
                 builtCommits := commitsOf w;
                 builtLastTag := lastTagOf w;
                 builtBreaking := hasBreakingChanges (commitsOf w) |},
     run (GitLog (rangeOf w)) (run GitDescribe w)).
Proof.
  unfold buildChangelog. rewrite getLastTag_reads.
  rewrite (@fetchCommitsSince_reads w (run GitDescribe w) (sameRepo_refl w)).
  rewrite parseCommits_classified. cbn [bind]. fold (commitsOf w).
  reflexivity.
Qed.

Lemma reads_same (w w' : World) :
  described w' = described w -> history w' = history w ->
  lastTagOf w' = lastTagOf w /\ commitsOf w' = commitsOf w
  /\ rangeOf w' = rangeOf w.
Proof.
  intros Hd Hh.
  assert (L : lastTagOf w' = lastTagOf w).
  { unfold lastTagOf, getLastTag. rewrite Hd.
    destruct (described w); reflexivity. }
  split; [exact L|]. split.
  - unfold commitsOf. rewrite L. unfold fetchCommitsSince. rewrite Hh.
    destruct (history w _); reflexivity.
  - unfold rangeOf. rewrite L. reflexivity.
Qed.

Lemma bump_world (dryRun : bool) (force : option jsstring) (w : World) :
  let w' := snd (bump dryRun force w) in
  described w' = described w /\ history w' = history w
  /\ clock w' = clock w /\ tags w' = tags w /\ git w' = git w.
Proof.
  cbv zeta. rewrite bump_steps.
  destruct (current <- readCurrentVersion w ;; _) as [r|e|];
    cbn [fst snd]; try (repeat split; reflexivity).
  destruct dryRun; repeat split; reflexivity.
Qed.

Lemma bump_commits (dryRun : bool) (force : option jsstring) (w w1 : World)
    (r : BumpResult) :
  bump dryRun force w = (Returned r, w1) -> commits r = commitsOf w.
Proof.
  rewrite bump_steps.
  destruct (readCurrentVersion w) as [cur|e|]; cbn [bind];
    [|discriminate|discriminate].
  destruct (calcNextVersion cur _) as [nxt|e|]; cbn [bind];
    [|discriminate|discriminate].
  intros H. injection H as <- _. reflexivity.
Qed.

(** X15.  The changelog of a release is built from the very commits
    [bump] classified, since the bump leaves the history alone: after a
    [bump] that returned, [buildChangelog] always returns, with the
    commits of the bump result, the tag the bump started from, and the
    breaking flag of those commits, whatever bump type was forced. *)
Theorem buildChangelog_after_bump (dryRun : bool) (force : option jsstring)
    (w w1 : World) (r : BumpResult) (nextVersion : jsstring) :
  bump dryRun force w = (Returned r, w1) ->
  fst (buildChangelog nextVersion w1)
  = Returned {| changelog := generateChangelog w nextVersion (commits r)
                               (lastTagOf w);
                builtCommits := commits r;
                builtLastTag := lastTagOf w;
                builtBreaking := hasBreakingChanges (commits r) |}.
Proof.
  intros H. rewrite (bump_commits _ _ _ H).
  destruct (bump_world dryRun force w) as (Hd & Hh & Hk & _).
  rewrite H in Hd, Hh, Hk. cbn [snd] in Hd, Hh, Hk.
  destruct (@reads_same w w1 Hd Hh) as (Ht & Hc & _).
  rewrite buildChangelog_steps. cbn [fst]. rewrite Ht, Hc.
  rewrite (@generateChangelog_clock w w1 nextVersion (commitsOf w)
             (lastTagOf w) Hk).
  reflexivity.
Qed.

Lemma buildChangelog_after_bump_witness :
  exists r w1,
    bump false (Some (js "patch")) sampleWorld = (Returned r, w1)
    /\ next r = js "1.2.4"
    /\ fst (buildChangelog (next r) w1)
       = Returned {| changelog := generateChangelog sampleWorld (next r)
                                    (commits r) (lastTagOf sampleWorld);
                     builtCommits := commits r;
                     builtLastTag := lastTagOf sampleWorld;
                     builtBreaking := hasBreakingChanges (commits r) |}.
Proof.
  destruct (bump false (Some (js "patch")) sampleWorld) as [o w1] eqn:E.
  destruct o as [r|e|]; try (vm_compute in E; discriminate E).
  exists r, w1.
  assert (N : next r = js "1.2.4")
    by (vm_compute in E; injection E as <- _; reflexivity).
  exact (conj eq_refl (conj N
    (@buildChangelog_after_bump false (Some (js "patch")) sampleWorld w1 r
       (next r) E))).
Defined.


(* ================================================================== *)
(** * Tagging and pushing *)
(* ================================================================== *)

Lemma createTag_taken (version message : jsstring) (dryRun : bool)
    (w : World) :
  verifies (tagName version) w = true ->
  createTag version message dryRun w
  = (Thrown (tagTaken (tagName version)),
     run (GitRevParseVerify (js "refs/tags/" ++ tagName version)) w).
Proof.
  intros H. unfold createTag, tagExists. fold (tagName version).
  rewrite H. reflexivity.
Qed.


Lemma createTag_free (version message : jsstring) (w : World) :
  verifies (tagName version) w = false ->
  refused (tagName version) message w = None ->
  createTag version message false w
  = (Returned (tagName version),
     setTags (tags w ++ [(tagName version, annotation (git w) message)])
       (run (GitTagAnnotated (tagName version) message)
          (run (GitRevParseVerify (js "refs/tags/" ++ tagName version)) w))).
Proof.
  intros H R. unfold createTag, tagExists. fold (tagName version).
  rewrite H. cbn [negb]. unfold gitTag.
  change (hasTag (tagName version)
            (run (GitRevParseVerify (js "refs/tags/" ++ tagName version)) w))
    with (hasTag (tagName version) w).
  rewrite (verifies_free _ _ H).
  change (refused (tagName version) message
            (run (GitRevParseVerify (js "refs/tags/" ++ tagName version)) w))
    with (refused (tagName version) message w).
  rewrite R. reflexivity.
Qed.

Lemma sameSite_refl (s : Site) : sameSite s s.
Proof. repeat split. Qed.

(** X16.  A tag that exists stops [tag] at once, in a dry run or not:
    it throws the [already exists] message, creates nothing and pushes
    nothing, whether or not a push was asked for and a remote is
    configured. *)
Theorem tag_existing_stops (version message remote : jsstring)
    (dryRun push : bool) (s : Site) :
  hasTag (tagName version) (repo s) = true ->
  fst (tag version message remote dryRun push s)
  = Thrown (tagTaken (tagName version))
  /\ sameSite s (snd (tag version message remote dryRun push s)).
Proof.
  intros H. unfold tag.
  rewrite (@createTag_taken version message dryRun (repo s)
             (@verifies_hasTag (tagName version) (repo s) H)).
  split; [reflexivity | repeat split].
Qed.

Lemma tag_existing_stops_witness :
  hasTag (tagName (js "1.2.3")) (repo (sampleSite false)) = true
  /\ fst (tag (js "1.2.3") (js "again") (js "origin") false true
            (sampleSite false))
     = Thrown (js "Tag " ++ [34%N] ++ js "v1.2.3" ++ [34%N]
               ++ js " already exists. Delete it first or bump the version.")
  /\ pushes (snd (tag (js "1.2.3") (js "again") (js "origin") false true
                    (sampleSite false))) = [].
Proof.
  assert (H : hasTag (tagName (js "1.2.3")) (repo (sampleSite false)) = true)
    by reflexivity.
  destruct (@tag_existing_stops (js "1.2.3") (js "again") (js "origin")
              false true (sampleSite false) H) as (E & _ & _ & P & _).
  exact (conj H (conj E P)).
Defined.

Lemma tag_dry_site (version message remote : jsstring) (push : bool)
    (s : Site) :
  sameSite s (snd (tag version message remote true push s)).
Proof.
  unfold tag. unfold createTag, tagExists.
  destruct (verifies _ (repo s)); [repeat split|].
  cbn [negb].
  destruct push; [|repeat split].
  destruct (negb (hasRemote remote _)); repeat split.
Qed.


(** X18.  Outside a dry run, where [git rev-parse --verify] does not
    resolve [refs/tags/] + tag, git accepts [git tag -a] with the name
    and the message, and the push is not refused: [tag] runs the check
    and then [git tag -a <tag> -m <message>], the tag is there
    afterwards with the annotation git makes of the message, and
    [pushed] is reported exactly when a push was asked for and the
    remote is configured; without the remote the push is skipped and
    [tag] still returns; the one push it makes is of the tag to that
    remote. *)
Theorem tag_pushes_iff_remote (version message remote : jsstring)
    (push : bool) (s : Site) :
  verifies (tagName version) (repo s) = false ->
  refused (tagName version) message (repo s) = None ->
  pushError s remote (tagName version) = None ->
  fst (tag version message remote false push s)
  = Returned {| tagged := tagName version;
                pushed := push && hasRemote remote s |}
  /\ tags (repo (snd (tag version message remote false push s)))
     = tags (repo s)
       ++ [(tagName version, annotation (git (repo s)) message)]
  /\ trace (repo (snd (tag version message remote false push s)))
     = trace (repo s)
       ++ [GitRevParseVerify (js "refs/tags/" ++ tagName version);
           GitTagAnnotated (tagName version) message]
  /\ pushes (snd (tag version message remote false push s))
     = if push && hasRemote remote s
       then pushes s ++ [(remote, tagName version)]
       else pushes s.
Proof.
  intros H R P. unfold tag.
  rewrite (@createTag_free version message (repo s) H R).
  assert (T : forall t,
            trace (setTags t
                     (run (GitTagAnnotated (tagName version) message)
                        (run (GitRevParseVerify
                                (js "refs/tags/" ++ tagName version))
                           (repo s))))
            = trace (repo s)
              ++ [GitRevParseVerify (js "refs/tags/" ++ tagName version);
                  GitTagAnnotated (tagName version) message])
    by (intros t; cbn [trace setTags run]; rewrite <- app_assoc;
        reflexivity).
  destruct push; cbn [andb]; [|repeat split; apply T].
  change (hasRemote remote (setRepo _ s)) with (hasRemote remote s).
  destruct (hasRemote remote s); cbn [negb]; [|repeat split; apply T].
  unfold pushTag. cbn [pushError setRepo]. rewrite P.
  repeat split; apply T.
Qed.

Lemma tag_pushes_iff_remote_witness :
  verifies (tagName (js "1.3.0")) (repo localSite) = false
  /\ refused (tagName (js "1.3.0")) (js "Release") (repo localSite) = None
  /\ pushError localSite (js "origin") (tagName (js "1.3.0")) = None
  /\ fst (tag (js "1.3.0") (js "Release") (js "origin") false true localSite)
     = Returned {| tagged := js "v1.3.0"; pushed := false |}.
Proof.
  assert (H : verifies (tagName (js "1.3.0")) (repo localSite) = false)
    by reflexivity.
  assert (R : refused (tagName (js "1.3.0")) (js "Release") (repo localSite)
              = None) by reflexivity.
  assert (P : pushError localSite (js "origin") (tagName (js "1.3.0")) = None)
    by reflexivity.
  destruct (@tag_pushes_iff_remote (js "1.3.0") (js "Release") (js "origin")
              true localSite H R P) as (E & _).
  exact (conj H (conj R (conj P E))).
Defined.

(** X19.  A push that fails leaves the tag behind: outside a dry run,
    where [git rev-parse --verify] does not resolve [refs/tags/] + tag,
    git accepts [git tag -a] with the name and the message, and the
    remote is configured, a failing push makes [tag] throw [Failed to
    push tag "<tag>" to "<remote>": <message>], and the annotated tag
    it created before stays in the repository. *)
Theorem tag_push_failure_keeps_tag (version message remote failure : jsstring)
    (s : Site) :
  verifies (tagName version) (repo s) = false ->
  refused (tagName version) message (repo s) = None ->
  hasRemote remote s = true ->
  pushError s remote (tagName version) = Some failure ->
  fst (tag version message remote false true s)
  = Thrown (pushFailed (tagName version) remote failure)
  /\ tags (repo (snd (tag version message remote false true s)))
     = tags (repo s)
       ++ [(tagName version, annotation (git (repo s)) message)]
  /\ pushes (snd (tag version message remote false true s)) = pushes s.
Proof.
  intros H G R P. unfold tag.
  rewrite (@createTag_free version message (repo s) H G).
  change (hasRemote remote (setRepo _ s)) with (hasRemote remote s).
  rewrite R. cbn [negb]. unfold pushTag. cbn [pushError setRepo].
  rewrite P. repeat split.
Qed.

Lemma tag_push_failure_keeps_tag_witness :
  verifies (tagName (js "1.3.0")) (repo (sampleSite true)) = false
  /\ hasRemote (js "origin") (sampleSite true) = true
  /\ hasTag (js "v1.3.0")
       (repo (snd (tag (js "1.3.0") (js "Release") (js "origin") false true
                     (sampleSite true)))) = true.
Proof.
  assert (H : verifies (tagName (js "1.3.0")) (repo (sampleSite true))
              = false) by reflexivity.
  assert (G : refused (tagName (js "1.3.0")) (js "Release")
                (repo (sampleSite true)) = None) by reflexivity.
  assert (R : hasRemote (js "origin") (sampleSite true) = true)
    by reflexivity.
  assert (P : pushError (sampleSite true) (js "origin")
                (tagName (js "1.3.0"))
              = Some (js "Command failed: git push")) by reflexivity.
  destruct (@tag_push_failure_keeps_tag (js "1.3.0") (js "Release")
              (js "origin") (js "Command failed: git push")
              (sampleSite true) H G R P) as (_ & T & _).
  refine (conj H (conj R _)).
  unfold hasTag. rewrite T. reflexivity.
Defined.


(* ================================================================== *)
(** * The changelog file *)
(* ================================================================== *)

Lemma startsWith_section (s : jsstring) :
  startsWith (js "## ") s = true ->
  exists rest, s = 35%N :: 35%N :: 32%N :: rest.
Proof.
  change (js "## ") with [35%N; 35%N; 32%N].
  destruct s as [|a [|b [|c rest]]]; cbn [startsWith]; intros H.
  - discriminate H.
  - destruct (35 =? a)%N; discriminate H.
  - destruct (35 =? a)%N; [|discriminate H].
    destruct (35 =? b)%N; discriminate H.
  - destruct (35 =? a)%N eqn:A; [|discriminate H].
    destruct (35 =? b)%N eqn:B; [|discriminate H].
    destruct (32 =? c)%N eqn:C; [|discriminate H].
    apply N.eqb_eq in A, B, C. subst. eauto.
Qed.

Lemma startsWith_line (l more : jsstring) :
  startsWith (js "## ") l = false ->
  startsWith (js "## ") (l ++ 10%N :: more) = false.
Proof.
  change (js "## ") with [35%N; 35%N; 32%N].
  destruct l as [|a [|b [|c rest]]]; cbn [startsWith app]; intros H.
  - reflexivity.
  - destruct (35 =? a)%N; reflexivity.
  - destruct (35 =? a)%N; [|reflexivity]. destruct (35 =? b)%N; reflexivity.
  - exact H.
Qed.

Lemma fromSection_inside (l more : jsstring) :
  forallb (fun c => negb (isLineTerminator c)) l = true ->
  fromSection false (l ++ 10%N :: more) = fromSection true more.
Proof.
  induction l as [|c l IH]; intros H.
  - reflexivity.
  - cbn [forallb] in H. apply andb_prop in H as [Hc Hl].
    apply negb_true_iff in Hc.
    cbn [app fromSection andb]. rewrite Hc. exact (IH Hl).
Qed.

Lemma fromSection_line (l more : jsstring) :
  plainLine l = true ->
  fromSection true (l ++ 10%N :: more) = fromSection true more.
Proof.
  unfold plainLine. intros H. apply andb_prop in H as [Hl Hs].
  apply negb_true_iff in Hs.
  pose proof (startsWith_line l more Hs) as S.
  destruct l as [|c l].
  - cbn [app] in *. cbn [fromSection andb]. rewrite S. reflexivity.
  - cbn [app] in *. cbn [fromSection andb]. rewrite S.
    cbn [forallb] in Hl. apply andb_prop in Hl as [Hc Hl].
    apply negb_true_iff in Hc. rewrite Hc.
    exact (fromSection_inside l more Hl).
Qed.

Lemma fromSection_found (sec : jsstring) :
  startsWith (js "## ") sec = true -> fromSection true sec = Some sec.
Proof.
  intros H. destruct sec as [|c t]; [discriminate H|].
  cbn [fromSection andb]. rewrite H. reflexivity.
Qed.

Lemma fromSection_lines (ls : list jsstring) (sec : jsstring) :
  forallb plainLine ls = true ->
  startsWith (js "## ") sec = true ->
  fromSection true (linesText ls ++ sec) = Some sec.
Proof.
  intros Hl Hs. induction ls as [|l ls IH].
  - exact (fromSection_found sec Hs).
  - cbn [forallb] in Hl. apply andb_prop in Hl as [H1 H2].
    unfold linesText. cbn [map concat]. rewrite <- !app_assoc.
    cbn [app]. rewrite (fromSection_line l _ H1). exact (IH H2).
Qed.

Lemma afterLine_line (line more : jsstring) :
  forallb (fun c => negb (c =? 10)%N) line = true ->
  afterLine (line ++ 10%N :: more) = Some more.
Proof.
  induction line as [|c line IH]; intros H; [reflexivity|].
  cbn [forallb] in H. apply andb_prop in H as [Hc Hl].
  apply negb_true_iff in Hc. cbn [app afterLine]. rewrite Hc.
  exact (IH Hl).
Qed.

Lemma cutHeader_block (line : jsstring) (ls : list jsstring)
    (sec : jsstring) :
  forallb (fun c => negb (c =? 10)%N) line = true ->
  forallb plainLine ls = true ->
  startsWith (js "## ") sec = true ->
  cutHeader true (35%N :: line ++ 10%N :: linesText ls ++ sec) = Some sec.
Proof.
  intros Hline Hls Hsec. cbn [cutHeader andb].
  rewrite N.eqb_refl. rewrite (afterLine_line line _ Hline).
  rewrite (fromSection_lines ls sec Hls Hsec). reflexivity.
Qed.

(** X20.  What the header pattern of [writeChangelog] removes is not
    the standard header as such: of any file whose first line starts
    with [#], everything up to the first later line that starts with
    [## ] goes, the first line included.  A changelog without a title
    line so loses its newest section. *)
Theorem stripHeader_first_block (line : jsstring) (ls : list jsstring)
    (sec : jsstring) :
  forallb (fun c => negb (c =? 10)%N) line = true ->
  forallb plainLine ls = true ->
  startsWith (js "## ") sec = true ->
  stripHeader (35%N :: line ++ 10%N :: linesText ls ++ sec) = sec.
Proof.
  intros Hline Hls Hsec. unfold stripHeader.
  rewrite (@cutHeader_block line ls sec Hline Hls Hsec). reflexivity.
Qed.

Lemma stripHeader_first_block_witness :
  startsWith (js "## ") untitledRest = true
  /\ stripHeader
       (js "## [1.1.0] - 2026-01-05" ++ [10%N; 10%N] ++ js "### Features"
        ++ [10%N; 10%N] ++ js "- search" ++ [10%N; 10%N] ++ untitledRest)
     = untitledRest.
Proof.
  assert (A : forallb (fun c => negb (c =? 10)%N) (35%N :: untitledFirst)
              = true) by reflexivity.
  assert (B : forallb plainLine untitledLines = true) by reflexivity.
  assert (C : startsWith (js "## ") untitledRest = true) by reflexivity.
  exact (conj C (@stripHeader_first_block (35%N :: untitledFirst)
                   untitledLines untitledRest A B C)).
Defined.

Lemma stripHeader_kept (body : jsstring) :
  startsWith (js "## ") body = true ->
  stripHeader (changelogHeader ++ body) = body.
Proof.
  intros H. unfold stripHeader.
  change (changelogHeader ++ body)
    with (35%N :: js " Changelog" ++ 10%N
          :: linesText
               [[];
                js "All notable changes to this project will be documented in this file.";
                [];
                js "The format is based on [Keep a Changelog](https://keepachangelog.com/).";
                []]
             ++ body).
  rewrite (@cutHeader_block (js " Changelog")
             [[];
              js "All notable changes to this project will be documented in this file.";
              [];
              js "The format is based on [Keep a Changelog](https://keepachangelog.com/).";
              []]
             body eq_refl eq_refl H).
  reflexivity.
Qed.

Lemma trimEnd_feed (s : jsstring) : trimEnd (s ++ [10%N]) = trimEnd s.
Proof. unfold trimEnd. rewrite rev_unit. reflexivity. Qed.

Lemma trim_line (s : jsstring) : tidy s = true -> trim (s ++ [10%N]) = s.
Proof.
  intros H. destruct s as [|x p]; [reflexivity|].
  pose proof (tidy_trim (x :: p) H) as T.
  unfold tidy in H. apply andb_prop in H as [Hx _].
  apply negb_true_iff in Hx.
  unfold trim in *. cbn [app]. rewrite (trimStart_head x _ Hx).
  rewrite (trimStart_head x p Hx) in T.
  change (x :: p ++ [10%N]) with ((x :: p) ++ [10%N]).
  rewrite trimEnd_feed. exact T.
Qed.

Lemma join_cons (sep p q : jsstring) (rest : list jsstring) :
  join sep (p :: q :: rest) = p ++ sep ++ join sep (q :: rest).
Proof. reflexivity. Qed.

Lemma join_ends (sep l : jsstring) (init : list jsstring) :
  exists q, join sep (init ++ [l]) = q ++ l.
Proof.
  induction init as [|p init (q & IH)].
  - exists []. reflexivity.
  - destruct init as [|p2 init].
    + exists (p ++ sep). cbn [app join]. rewrite <- app_assoc. reflexivity.
    + exists (p ++ sep ++ q). cbn [app] in *. rewrite join_cons, IH.
      rewrite <- !app_assoc. reflexivity.
Qed.

Lemma isSection_ends (s : jsstring) :
  isSection s = true ->
  exists rest q y, s = 35%N :: 35%N :: 32%N :: rest /\ s = q ++ [y]
                   /\ isSpace y = false.
Proof.
  unfold isSection. intros H. apply andb_prop in H as [Hs Ht].
  destruct (startsWith_section s Hs) as (rest & E).
  assert (N : s <> []) by (rewrite E; discriminate).
  pose proof (snoc_last 0%N N) as L.
  exists rest, (removelast s), (last s 0%N). repeat split; try assumption.
  rewrite L in Ht. exact (tidy_last _ _ Ht).
Qed.

Lemma section_ends (rest q : jsstring) (y : N) :
  35%N :: 35%N :: 32%N :: rest = q ++ [y] -> isSpace y = false ->
  isSection (35%N :: 35%N :: 32%N :: rest) = true.
Proof.
  intros E Hy. unfold isSection. apply andb_true_intro. split.
  - reflexivity.
  - exact (@tidy_ends 35%N y _ q eq_refl Hy E).
Qed.

Lemma join_sections (s : jsstring) (sections : list jsstring) :
  isSection s = true ->
  forallb isSection sections = true ->
  isSection (join [10%N; 10%N] (s :: sections)) = true.
Proof.
  revert s. induction sections as [|s2 sections IH]; intros s Hs Hall.
  - exact Hs.
  - cbn [forallb] in Hall. apply andb_prop in Hall as [H2 Hall].
    specialize (IH s2 H2 Hall).
    destruct (isSection_ends _ IH) as (_ & q & y & _ & Eq & Hy).
    destruct (isSection_ends _ Hs) as (rest & _ & _ & Es & _).
    rewrite join_cons, Eq, Es. cbn [app].
    apply (@section_ends _ (35%N :: 35%N :: 32%N :: rest ++ 10%N :: 10%N :: q)
             y); [|exact Hy].
    cbn [app]. rewrite <- app_assoc. reflexivity.
Qed.

Lemma fullChangelog_kept (newSection body : jsstring) :
  isSection body = true ->
  fullChangelog newSection (Some (changelogHeader ++ body ++ [10%N]))
  = changelogHeader ++ newSection ++ [10%N; 10%N] ++ body ++ [10%N].
Proof.
  intros H. unfold fullChangelog.
  assert (S : startsWith (js "## ") (body ++ [10%N]) = true).
  { destruct (isSection_ends _ H) as (rest & _ & _ & -> & _). reflexivity. }
  rewrite (stripHeader_kept _ S).
  unfold isSection in H. apply andb_prop in H as [Hs Ht].
  rewrite (trim_line body Ht).
  destruct body as [|c t]; [discriminate Hs|]. cbn [truthy].
  rewrite <- !app_assoc. reflexivity.
Qed.

(** X21.  Round trip of the changelog file: on a file that holds the
    header and release sections (each starting with [## ], without
    white space at its ends, two line feeds apart), [writeChangelog]
    finds the old sections back exactly and writes the header, the new
    section, and the old sections after it; a dry run writes
    nothing. *)
Theorem writeChangelog_prepends (newSection first : jsstring)
    (others : list jsstring) (s : Site) :
  forallb isSection (first :: others) = true ->
  changelogFile s = Some (kept (first :: others)) ->
  changelogFile (snd (writeChangelog newSection false s))
  = Some (kept (newSection :: first :: others))
  /\ snd (writeChangelog newSection true s) = s.
Proof.
  intros Hall Hfile. split; [|reflexivity].
  unfold writeChangelog. cbn [negb snd setChangelogFile changelogFile].
  rewrite Hfile. f_equal.
  cbn [forallb] in Hall. apply andb_prop in Hall as [H1 H2].
  etransitivity;
    [exact (@fullChangelog_kept newSection _
              (@join_sections first others H1 H2))|].
  unfold kept. rewrite join_cons. rewrite <- !app_assoc. reflexivity.
Qed.


Lemma writeChangelog_prepends_witness :
  forallb isSection [olderSection] = true
  /\ changelogFile keptSite = Some (kept [olderSection])
  /\ changelogFile (snd (writeChangelog newerSection false keptSite))
     = Some (changelogHeader ++ newerSection ++ [10%N; 10%N] ++ olderSection
             ++ [10%N]).
Proof.
  assert (A : forallb isSection [olderSection] = true) by reflexivity.
  assert (B : changelogFile keptSite = Some (kept [olderSection]))
    by reflexivity.
  destruct (@writeChangelog_prepends newerSection olderSection [] keptSite
              A B) as (E & _).
  exact (conj A (conj B E)).
Defined.

(** X22.  The section [generateChangelog] returns is one the next
    [writeChangelog] finds back: for a version without white space at
    its ends it starts with a [## ] heading and has no white space at
    its ends, whatever the commits and the last tag are. *)
Theorem generateChangelog_section (w : World) (version : jsstring)
    (commits : list Commit) (lastTag : option jsstring) :
  tidy version = true ->
  isSection (generateChangelog w version commits lastTag) = true.
Proof.
  intros Hv.
  assert (L : exists q y, js "v" ++ version = q ++ [y] /\ isSpace y = false).
  { destruct version as [|c t].
    - exists [], 118%N. split; reflexivity.
    - assert (N : c :: t <> []) by discriminate.
      pose proof (snoc_last 0%N N) as E. rewrite E in Hv.
      exists (js "v" ++ removelast (c :: t)), (last (c :: t) 0%N).
      split; [|exact (tidy_last _ _ Hv)].
      rewrite E at 1. rewrite app_assoc. reflexivity. }
  destruct L as (q & y & Eq & Hy).
  unfold generateChangelog, changelogLines.
  set (date := slice0 10 (toISOString (clock w))).
  assert (T : exists p, (match lastTag with
                         | Some t =>
                             if truthy t
                             then js "[" ++ version ++ js "]: " ++ repoUrl
                                  ++ js "/compare/" ++ t ++ js "...v"
                                  ++ version
                             else js "[" ++ version ++ js "]: " ++ repoUrl
                                  ++ js "/releases/tag/v" ++ version
                         | None => js "[" ++ version ++ js "]: " ++ repoUrl
                                   ++ js "/releases/tag/v" ++ version
                         end) = p ++ js "v" ++ version).
  { destruct lastTag as [t|]; [destruct (truthy t)|].
    - exists (js "[" ++ version ++ js "]: " ++ repoUrl ++ js "/compare/"
              ++ t ++ js "..."). rewrite <- !app_assoc. reflexivity.
    - exists (js "[" ++ version ++ js "]: " ++ repoUrl
              ++ js "/releases/tag/"). rewrite <- !app_assoc. reflexivity.
    - exists (js "[" ++ version ++ js "]: " ++ repoUrl
              ++ js "/releases/tag/"). rewrite <- !app_assoc. reflexivity. }
  destruct T as (p & ->).
  match goal with
  | |- context [[?h; []] ++ ?a ++ ?b ++ [?l]] =>
      replace ([h; []] ++ a ++ b ++ [l]) with (h :: ([] :: a ++ b) ++ [l])
        by (cbn [app]; rewrite <- app_assoc; reflexivity);
      generalize (a ++ b)
  end.
  intros inner.
  destruct (join_ends [10%N] (p ++ js "v" ++ version) ([] :: inner))
    as (q2 & J).
  change (((js "## [" ++ version ++ js "] - " ++ date)
           :: ([] :: inner) ++ [p ++ js "v" ++ version]))
    with ((js "## [" ++ version ++ js "] - " ++ date)
          :: [] :: inner ++ [p ++ js "v" ++ version]).
  rewrite join_cons.
  match goal with
  | |- context [join ?sep ?l] =>
      replace (join sep l) with (q2 ++ p ++ js "v" ++ version)
        by (symmetry; exact J)
  end.
  rewrite Eq.
  change (js "## [" ++ version ++ js "] - " ++ date)
    with (35%N :: 35%N :: 32%N :: 91%N :: version ++ js "] - " ++ date).
  cbn [app].
  apply (@section_ends _
           (35%N :: 35%N :: 32%N :: 91%N :: (version ++ js "] - " ++ date)
            ++ 10%N :: q2 ++ p ++ q) y); [|exact Hy].
  repeat (cbn [app]; rewrite <- app_assoc). reflexivity.
Qed.

Lemma generateChangelog_section_witness :
  tidy (js "1.3.0") = true
  /\ isSection (generateChangelog sampleWorld (js "1.3.0") [] None) = true.
Proof.
  assert (H : tidy (js "1.3.0") = true) by reflexivity.
  exact (conj H (@generateChangelog_section sampleWorld (js "1.3.0") [] None
                   H)).
Defined.


(* ================================================================== *)
(** * The release as a whole *)
(* ================================================================== *)

Lemma bump_dry_same (force : option jsstring) (w : World) :
  sameRepo w (snd (bump true force w)).
Proof.
  rewrite bump_steps.
  destruct (current <- readCurrentVersion w ;; _) as [r|e|];
    repeat split; reflexivity.
Qed.

Lemma bump_written (force : option jsstring) (w w1 : World)
    (r : BumpResult) :
  bump false force w = (Returned r, w1) ->
  pkg w1 = Parsed (Some (next r)).
Proof.
  rewrite bump_steps.
  destruct (current <- readCurrentVersion w ;; _) as [r'|e|];
    intros H; [|discriminate H|discriminate H].
  injection H as <- <-. reflexivity.
Qed.

Lemma sameSite_setRepo (w : World) (s : Site) :
  sameRepo (repo s) w -> sameSite s (setRepo w s).
Proof. intros H. repeat split; apply H. Qed.

Lemma sameSite_trans (a b c : Site) :
  sameSite a b -> sameSite b c -> sameSite a c.
Proof.
  unfold sameSite. intros (H1 & H2 & H3 & H4 & H5) (K1 & K2 & K3 & K4 & K5).
  split; [exact (sameRepo_trans H1 K1)|]. repeat split; congruence.
Qed.

(** [release] after a [bump] that returned: the bump is printed; then
    the section is built from the site as it was before the bump, and
    the file, the commit and the tag come. *)
Lemma release_steps (dryRun : bool) (force : option jsstring) (push : bool)
    (s : Site) (r : BumpResult) (w1 : World) :
  bump dryRun force (repo s) = (Returned r, w1) ->
  release dryRun force push s
  = let w2 := run (GitLog (rangeOf (repo s))) (run GitDescribe w1) in
    let full := fullChangelog (sectionOf s r) (changelogFile s) in
    let s3 := if dryRun then setRepo w2 s
              else setChangelogFile (Some full) (setRepo w2 s) in
    match printVersionBump (bumpType r) with
    | Returned _ =>
        match commitRelease (next r) dryRun s3 with
        | (Returned _, s4) =>
            match tag (next r) (tagMessageOf s r) (js "origin") dryRun push s4
            with
            | (Returned t, s5) =>
                (Returned {| version := next r;
                             summaryTag := tagged t;
                             changelogLineCount := length (splitOn 10 full);
                             tagPushed := pushed t && negb dryRun |}, s5)
            | (Thrown e, s5) => (Thrown e, s5)
            | (Untracked, s5) => (Untracked, s5)
            end
        | (Thrown e, s4) => (Thrown e, s4)
        | (Untracked, s4) => (Untracked, s4)
        end
    | Thrown e => (Thrown e, setRepo w1 s)
    | Untracked => (Untracked, setRepo w1 s)
    end.
Proof.
  intros E. unfold release. rewrite E.
  destruct (printVersionBump (bumpType r)); [|reflexivity|reflexivity].
  rewrite buildChangelog_steps.
  destruct (bump_world dryRun force (repo s)) as (Hd & Hh & Hk & _).
  rewrite E in Hd, Hh, Hk. cbn [snd] in Hd, Hh, Hk.
  destruct (@reads_same (repo s) w1 Hd Hh) as (Ht & Hc & Hr).
  rewrite Ht, Hc, Hr.
  rewrite (@generateChangelog_clock (repo s) w1 (next r)
             (commitsOf (repo s)) (lastTagOf (repo s)) Hk).
  rewrite <- (bump_commits _ _ _ E). fold (sectionOf s r).
  cbn [changelog]. fold (tagMessageOf s r).
  unfold writeChangelog. cbn [setRepo changelogFile].
  destruct dryRun; reflexivity.
Qed.

(** X23.  A dry run of [release] leaves the manifest, the tags, the
    changelog file, the commits and the pushes as they were, whatever
    the history, the flags and the outcome; and when it returns, it
    never reports the tag as pushed. *)
Theorem release_dry_run (force : option jsstring) (push : bool) (s : Site) :
  sameSite s (snd (release true force push s))
  /\ forall summary, fst (release true force push s) = Returned summary ->
                     tagPushed summary = false.
Proof.
  pose proof (bump_dry_same force (repo s)) as B.
  destruct (bump true force (repo s)) as [o w1] eqn:E. cbn [snd] in B.
  destruct o as [r|e|].
  - rewrite (@release_steps true force push s r w1 E). cbv zeta.
    destruct (printVersionBump (bumpType r)); cbn [fst snd];
      try (split; [exact (@sameSite_setRepo w1 s B) | discriminate]).
    cbn [commitRelease].
    set (s3 := setRepo _ s).
    assert (S3 : sameSite s s3)
      by (apply sameSite_setRepo; exact B).
    pose proof (@tag_dry_site (next r) (tagMessageOf s r) (js "origin") push
                  s3) as T.
    destruct (tag (next r) (tagMessageOf s r) (js "origin") true push s3)
      as [[t|e|] s5]; cbn [fst snd] in *;
      (split; [exact (@sameSite_trans s s3 _ S3 T)|]); intros summary H;
      try discriminate H.
    injection H as <-. cbn [tagPushed negb]. apply andb_false_r.
  - unfold release. rewrite E. cbn [fst snd].
    split; [exact (@sameSite_setRepo w1 s B) | discriminate].
  - unfold release. rewrite E. cbn [fst snd].
    split; [exact (@sameSite_setRepo w1 s B) | discriminate].
Qed.

(** What the release theorems below share: outside a dry run, after a
    [bump] that returned and was printed, the site right before the
    commit has the manifest and the changelog file written, and the
    tags and git as they were. *)
Lemma release_written (force : option jsstring) (push : bool) (s : Site)
    (r : BumpResult) (w1 : World) :
  bump false force (repo s) = (Returned r, w1) ->
  printVersionBump (bumpType r) = Returned tt ->
  exists s3,
    release false force push s
    = match commitRelease (next r) false s3 with
      | (Returned _, s4) =>
          match tag (next r) (tagMessageOf s r) (js "origin") false push s4
          with
          | (Returned t, s5) =>
              (Returned {| version := next r;
                           summaryTag := tagged t;
                           changelogLineCount :=
                             length (splitOn 10
                                       (fullChangelog (sectionOf s r)
                                          (changelogFile s)));
                           tagPushed := pushed t && negb false |}, s5)
          | (Thrown e, s5) => (Thrown e, s5)
          | (Untracked, s5) => (Untracked, s5)
          end
      | (Thrown e, s4) => (Thrown e, s4)
      | (Untracked, s4) => (Untracked, s4)
      end
    /\ pkg (repo s3) = Parsed (Some (next r))
    /\ tags (repo s3) = tags (repo s)
    /\ git (repo s3) = git (repo s)
    /\ trace (repo s3)
       = trace (repo s)
         ++ [GitDescribe; GitLog (rangeOf (repo s));
             GitDescribe; GitLog (rangeOf (repo s))]
    /\ changelogFile s3
       = Some (fullChangelog (sectionOf s r) (changelogFile s))
    /\ releaseCommits s3 = releaseCommits s
    /\ pushes s3 = pushes s
    /\ remotes s3 = remotes s
    /\ pushError s3 = pushError s
    /\ commitError s3 = commitError s.
Proof.
  intros E V.
  rewrite (@release_steps false force push s r w1 E). cbv zeta. rewrite V.
  destruct (bump_world false force (repo s)) as (_ & _ & _ & Ht & Hg).
  rewrite E in Ht, Hg. cbn [snd] in Ht, Hg.
  pose proof (@bump_written force (repo s) w1 r E) as Hp.
  assert (Hr : trace w1
               = trace (repo s) ++ [GitDescribe; GitLog (rangeOf (repo s))]).
  { revert E. rewrite bump_steps.
    destruct (current <- readCurrentVersion (repo s) ;; _) as [r'|e|];
      intros E; [|discriminate E|discriminate E].
    injection E as _ <-. cbn [negb trace setPkg run].
    rewrite <- app_assoc. reflexivity. }
  eexists. split; [reflexivity|].
  cbn [repo setRepo setChangelogFile run pkg tags git trace changelogFile
       releaseCommits pushes remotes pushError commitError].
  rewrite Hp, Ht, Hg, Hr. rewrite <- !app_assoc.
  repeat split; reflexivity.
Qed.

(** X24.  A release that goes through: outside a dry run, when [bump]
    returns with a bump type that [printVersionBump] prints, the
    commit succeeds, [git rev-parse --verify] does not resolve the tag
    of the next version, git accepts [git tag -a] with that name and
    the tag message, and the push is not refused, [release] ends with
    the manifest at the next version, the changelog file rewritten
    with the new section on top, one commit [chore(release):
    v<next>], [git tag -a] called with the message [Release v<next>],
    an empty line and the first 500 code units of the section, the
    tag there with the annotation git makes of that message, and the
    tag pushed to [origin] exactly when a push was asked for and that
    remote is configured. *)
Theorem release_completes (force : option jsstring) (push : bool) (s : Site)
    (r : BumpResult) (w1 : World) :
  bump false force (repo s) = (Returned r, w1) ->
  printVersionBump (bumpType r) = Returned tt ->
  commitError s = None ->
  verifies (tagName (next r)) (repo s) = false ->
  refused (tagName (next r)) (tagMessageOf s r) (repo s) = None ->
  pushError s (js "origin") (tagName (next r)) = None ->
  fst (release false force push s)
  = Returned {| version := next r;
                summaryTag := tagName (next r);
                changelogLineCount :=
                  length (splitOn 10 (fullChangelog (sectionOf s r)
                                        (changelogFile s)));
                tagPushed := push && hasRemote (js "origin") s |}
  /\ pkg (repo (snd (release false force push s))) = Parsed (Some (next r))
  /\ changelogFile (snd (release false force push s))
     = Some (fullChangelog (sectionOf s r) (changelogFile s))
  /\ releaseCommits (snd (release false force push s))
     = releaseCommits s ++ [commitMessageOf r]
  /\ tags (repo (snd (release false force push s)))
     = tags (repo s)
       ++ [(tagName (next r),
            annotation (git (repo s)) (tagMessageOf s r))]
  /\ trace (repo (snd (release false force push s)))
     = trace (repo s)
       ++ [GitDescribe; GitLog (rangeOf (repo s));
           GitDescribe; GitLog (rangeOf (repo s));
           GitRevParseVerify (js "refs/tags/" ++ tagName (next r));
           GitTagAnnotated (tagName (next r)) (tagMessageOf s r)]
  /\ pushes (snd (release false force push s))
     = if push && hasRemote (js "origin") s
       then pushes s ++ [(js "origin", tagName (next r))]
       else pushes s.
Proof.
  intros E V C H G P.
  destruct (@release_written force push s r w1 E V)
    as (s3 & -> & Hp & Ht & Hg & Hr & Hf & Hc & Hu & Hm & He & Hce).
  unfold commitRelease. rewrite Hce, C.
  set (s4 := setReleaseCommits _ s3).
  assert (H4 : verifies (tagName (next r)) (repo s4) = false)
    by (unfold verifies, hasTag in *; cbn [s4 repo setReleaseCommits];
        rewrite Ht, Hg; exact H).
  assert (G4 : refused (tagName (next r)) (tagMessageOf s r) (repo s4) = None)
    by (unfold refused in *; cbn [s4 repo setReleaseCommits];
        rewrite Ht, Hg; exact G).
  unfold tag.
  rewrite (@createTag_free (next r) (tagMessageOf s r) (repo s4) H4 G4).
  change (hasRemote (js "origin") (setRepo _ s4))
    with (existsb (streq (js "origin")) (remotes s3)).
  rewrite Hm. fold (hasRemote (js "origin") s).
  assert (Q : pushError s3 (js "origin") (tagName (next r)) = None)
    by (rewrite He; exact P).
  destruct push; cbn [andb];
    [destruct (hasRemote (js "origin") s); cbn [negb];
     [unfold pushTag; cbn [pushError setRepo s4 setReleaseCommits];
      rewrite Q|]|];
    cbn [fst snd tagged pushed negb andb];
    (split; [reflexivity|]);
    cbn [s4 repo setRepo setPushes setReleaseCommits setTags run pkg tags
         git trace changelogFile releaseCommits pushes];
    rewrite Hp, Ht, Hg, Hr, Hf, Hc, ?Hu; rewrite <- !app_assoc;
    repeat split; reflexivity.
Qed.

Lemma release_completes_witness :
  exists r w1,
    bump false None (repo (sampleSite false)) = (Returned r, w1)
    /\ next r = js "2.0.0"
    /\ hasTag (js "v2.0.0")
         (repo (snd (release false None true (sampleSite false)))) = true
    /\ pushes (snd (release false None true (sampleSite false)))
       = [(js "origin", js "v2.0.0")].
Proof.
  destruct (bump false None (repo (sampleSite false))) as [o w1] eqn:E.
  destruct o as [r|e|]; try (vm_compute in E; discriminate E).
  exists r, w1.
  assert (N : next r = js "2.0.0")
    by (vm_compute in E; injection E as <- _; reflexivity).
  assert (V : printVersionBump (bumpType r) = Returned tt)
    by (vm_compute in E; injection E as <- _; reflexivity).
  assert (C : commitError (sampleSite false) = None) by reflexivity.
  assert (H : verifies (tagName (next r)) (repo (sampleSite false)) = false)
    by (rewrite N; reflexivity).
  assert (G : refused (tagName (next r)) (tagMessageOf (sampleSite false) r)
                (repo (sampleSite false)) = None) by reflexivity.
  assert (P : pushError (sampleSite false) (js "origin") (tagName (next r))
              = None) by reflexivity.
  destruct (@release_completes None true (sampleSite false) r w1 E V C H G P)
    as (_ & _ & _ & _ & T & _ & Q).
  refine (conj eq_refl (conj N (conj _ _))).
  - unfold hasTag. rewrite T, N. reflexivity.
  - rewrite Q, N. reflexivity.
Defined.

(** X25.  The tag is checked last: outside a dry run, when [bump]
    returns with a bump type that [printVersionBump] prints and the
    commit succeeds, a tag of the next version that exists already
    makes [release] throw the [already exists] message only after it
    has written the manifest and the changelog file and made the
    release commit; none of that is taken back, and nothing is tagged
    or pushed. *)
Theorem release_tag_taken (force : option jsstring) (push : bool) (s : Site)
    (r : BumpResult) (w1 : World) :
  bump false force (repo s) = (Returned r, w1) ->
  printVersionBump (bumpType r) = Returned tt ->
  commitError s = None ->
  hasTag (tagName (next r)) (repo s) = true ->
  fst (release false force push s) = Thrown (tagTaken (tagName (next r)))
  /\ pkg (repo (snd (release false force push s))) = Parsed (Some (next r))
  /\ changelogFile (snd (release false force push s))
     = Some (fullChangelog (sectionOf s r) (changelogFile s))
  /\ releaseCommits (snd (release false force push s))
     = releaseCommits s ++ [commitMessageOf r]
  /\ tags (repo (snd (release false force push s))) = tags (repo s)
  /\ pushes (snd (release false force push s)) = pushes s.
Proof.
  intros E V C H.
  destruct (@release_written force push s r w1 E V)
    as (s3 & -> & Hp & Ht & Hg & Hr & Hf & Hc & Hu & Hm & He & Hce).
  unfold commitRelease. rewrite Hce, C.
  set (s4 := setReleaseCommits _ s3).
  assert (H4 : verifies (tagName (next r)) (repo s4) = true)
    by (apply verifies_hasTag; unfold hasTag in *;
        cbn [s4 repo setReleaseCommits]; rewrite Ht; exact H).
  unfold tag.
  rewrite (@createTag_taken (next r) (tagMessageOf s r) false (repo s4) H4).
  cbn [fst snd]. split; [reflexivity|].
  cbn [s4 repo setRepo setReleaseCommits run pkg tags changelogFile
       releaseCommits pushes].
  rewrite Hp, Ht, Hf, Hc, Hu. repeat split; reflexivity.
Qed.

Lemma release_tag_taken_witness :
  exists r w1,
    bump false None (repo aheadSite) = (Returned r, w1)
    /\ next r = js "2.0.0"
    /\ fst (release false None true aheadSite)
       = Thrown (tagTaken (js "v2.0.0"))
    /\ pkg (repo (snd (release false None true aheadSite)))
       = Parsed (Some (js "2.0.0"))
    /\ releaseCommits (snd (release false None true aheadSite))
       = [js "chore(release): v2.0.0"].
Proof.
  destruct (bump false None (repo aheadSite)) as [o w1] eqn:E.
  destruct o as [r|e|]; try (vm_compute in E; discriminate E).
  exists r, w1.
  assert (N : next r = js "2.0.0")
    by (vm_compute in E; injection E as <- _; reflexivity).
  assert (V : printVersionBump (bumpType r) = Returned tt)
    by (vm_compute in E; injection E as <- _; reflexivity).
  assert (C : commitError aheadSite = None) by reflexivity.
  assert (H : hasTag (tagName (next r)) (repo aheadSite) = true)
    by (rewrite N; reflexivity).
  destruct (@release_tag_taken None true aheadSite r w1 E V C H)
    as (T & K & _ & R & _).
  refine (conj eq_refl (conj N (conj _ (conj _ _)))).
  - rewrite T, N. reflexivity.
  - rewrite K, N. reflexivity.
  - rewrite R. unfold commitMessageOf. rewrite N. reflexivity.
Defined.

(** X26.  A commit that fails stops [release] with git's own error,
    not wrapped: outside a dry run, when [bump] returns with a bump
    type that [printVersionBump] prints, the manifest and the
    changelog file are written by then, and they stay so; no commit,
    tag or push is made. *)
Theorem release_commit_failure (force : option jsstring) (push : bool)
    (s : Site) (r : BumpResult) (w1 : World) (failure : jsstring) :
  bump false force (repo s) = (Returned r, w1) ->
  printVersionBump (bumpType r) = Returned tt ->
  commitError s = Some failure ->
  fst (release false force push s) = Thrown failure
  /\ pkg (repo (snd (release false force push s))) = Parsed (Some (next r))
  /\ changelogFile (snd (release false force push s))
     = Some (fullChangelog (sectionOf s r) (changelogFile s))
  /\ releaseCommits (snd (release false force push s)) = releaseCommits s
  /\ tags (repo (snd (release false force push s))) = tags (repo s)
  /\ pushes (snd (release false force push s)) = pushes s.
Proof.
  intros E V C.
  destruct (@release_written force push s r w1 E V)
    as (s3 & -> & Hp & Ht & Hg & Hr & Hf & Hc & Hu & Hm & He & Hce).
  unfold commitRelease. rewrite Hce, C. cbn [fst snd].
  split; [reflexivity|]. rewrite Hp, Ht, Hf, Hc, Hu.
  repeat split; reflexivity.
Qed.

Lemma release_commit_failure_witness :
  exists r w1,
    bump false None (repo refusingSite) = (Returned r, w1)
    /\ fst (release false None true refusingSite)
       = Thrown (js "Command failed: git commit")
    /\ pkg (repo (snd (release false None true refusingSite)))
       = Parsed (Some (js "2.0.0")).
Proof.
  destruct (bump false None (repo refusingSite)) as [o w1] eqn:E.
  destruct o as [r|e|]; try (vm_compute in E; discriminate E).
  exists r, w1.
  assert (N : next r = js "2.0.0")
    by (vm_compute in E; injection E as <- _; reflexivity).
  assert (V : printVersionBump (bumpType r) = Returned tt)
    by (vm_compute in E; injection E as <- _; reflexivity).
  assert (C : commitError refusingSite
              = Some (js "Command failed: git commit")) by reflexivity.
  destruct (@release_commit_failure None true refusingSite r w1
              (js "Command failed: git commit") E V C) as (T & K & _).
  refine (conj eq_refl (conj T _)).
  rewrite K, N. reflexivity.
Defined.

(** X30.  A forced bump type that is the name of a method of
    [Object.prototype] other than [constructor], [toString] and
    [isPrototypeOf], or is [__proto__], stops [release] in
    [printVersionBump] with a [TypeError], right after the bump: for a
    manifest of three numerals below 2^53 and outside a dry run, the
    manifest is by then written, with the version unchanged but in
    canonical form, and neither the changelog file, nor a commit, a
    tag or a push is made. *)
Theorem release_forced_method (force : jsstring) (push : bool) (s : Site)
    (a b c : jsstring) :
  existsb (streq force) Object_prototype = true ->
  existsb (streq force) receiverFree = false ->
  pkg (repo s) = Parsed (Some (versionText a b c)) ->
  isNumeral a = true -> isNumeral b = true -> isNumeral c = true ->
  within two53 (valueIn 10 a, valueIn 10 b, valueIn 10 c) ->
  throws (fst (release false (Some force) push s)) = true
  /\ pkg (repo (snd (release false (Some force) push s)))
     = Parsed (Some (versionOf (valueIn 10 a, valueIn 10 b, valueIn 10 c)))
  /\ changelogFile (snd (release false (Some force) push s))
     = changelogFile s
  /\ releaseCommits (snd (release false (Some force) push s))
     = releaseCommits s
  /\ tags (repo (snd (release false (Some force) push s))) = tags (repo s)
  /\ pushes (snd (release false (Some force) push s)) = pushes s.
Proof.
  intros Hin Hfree Hp Ha Hb Hc B.
  assert (T : truthy force = true).
  { destruct force; [|reflexivity]. vm_compute in Hin. discriminate Hin. }
  assert (K : streq force (js "major") = false
              /\ streq force (js "minor") = false
              /\ streq force (js "patch") = false).
  { repeat split;
      (destruct (streq force _) eqn:S; [|reflexivity];
       apply streq_spec in S; subst force; vm_compute in Hin;
       discriminate Hin). }
  destruct K as (K1 & K2 & K3).
  assert (V : printVersionBump force = Thrown (js "TypeError")).
  { unfold printVersionBump.
    replace (existsb (streq force) bumpColors) with false.
    - rewrite Hin, Hfree. reflexivity.
    - symmetry. cbn [bumpColors map existsb].
      rewrite (streq_sym force (js "major")), (streq_sym force (js "minor")),
        (streq_sym force (js "patch")) in *.
      rewrite K1, K2, K3. reflexivity. }
  unfold release. rewrite bump_steps. cbn [chosenBump]. rewrite T.
  unfold readCurrentVersion. rewrite Hp.
  assert (Tv : truthy (versionText a b c) = true)
    by (unfold versionText; destruct a; reflexivity).
  rewrite Tv. cbn [bind].
  rewrite (@calcNextVersion_numerals a b c (versionText a b c) force
             Ha Hb Hc B (or_introl eq_refl)).
  cbn [bind bumpType]. rewrite V. cbn [fst snd throws].
  unfold bumped. rewrite K1, K2, K3.
  repeat split; reflexivity.
Qed.

Lemma release_forced_method_witness :
  throws (fst (release false (Some (js "valueOf")) true (sampleSite false)))
  = true
  /\ pkg (repo (snd (release false (Some (js "valueOf")) true
                      (sampleSite false))))
     = Parsed (Some (js "1.2.3"))
  /\ changelogFile (snd (release false (Some (js "valueOf")) true
                           (sampleSite false))) = None.
Proof.
  assert (B : within two53
                (valueIn 10 (js "1"), valueIn 10 (js "2"), valueIn 10 (js "3")))
    by (unfold within; repeat split; vm_compute; congruence).
  destruct (@release_forced_method (js "valueOf") true (sampleSite false)
              (js "1") (js "2") (js "3") eq_refl eq_refl eq_refl eq_refl
              eq_refl eq_refl B) as (T & K & F & _).
  exact (conj T (conj K F)).
Defined.

(* ================================================================== *)
(** * The bump type of a history *)
(* ================================================================== *)

Lemma determineBumpType_cases (commits : list Commit) :
  determineBumpType commits
  = if existsb breaking commits then js "major"
    else if existsb (fun c => streq (type c) (js "feat")) commits
         then js "minor"
         else js "patch".
Proof.
  unfold determineBumpType, hasBreakingChanges.
  rewrite has_SetOf, existsb_feat. reflexivity.
Qed.

(** X27.  The bump type of two runs of commits put together is the
    heavier of their bump types: [determineBumpType] does not depend
    on the order of the commits, and more commits never lower the
    bump. *)
Theorem determineBumpType_append (earlier later : list Commit) :
  bumpRank (determineBumpType (earlier ++ later))
  = Nat.max (bumpRank (determineBumpType earlier))
            (bumpRank (determineBumpType later)).
Proof.
  rewrite !determineBumpType_cases, !existsb_app.
  destruct (existsb breaking earlier), (existsb breaking later),
    (existsb (fun c => streq (type c) (js "feat")) earlier),
    (existsb (fun c => streq (type c) (js "feat")) later); reflexivity.
Qed.

(* ================================================================== *)
(** * What is read from git *)
(* ================================================================== *)

Lemma truthy_nonempty (s : jsstring) : truthy s = true -> s <> [].
Proof. destruct s; [discriminate | discriminate]. Qed.

(** X28.  What the two readers of the history hand on is trimmed and
    never empty: the last tag is [null] rather than an empty text, and
    every raw commit has no white space at its ends and is not
    empty. *)
Theorem readers_trimmed (since : option jsstring) (w : World) :
  (forall t, fst (getLastTag w) = Some t -> t <> [] /\ tidy t = true)
  /\ (forall raw, In raw (fst (fetchCommitsSince since w)) ->
                  raw <> [] /\ tidy raw = true).
Proof.
  split.
  - intros t. unfold getLastTag.
    destruct (described w) as [out|]; cbn [fst]; [|discriminate].
    destruct (truthy (trim out)) eqn:T; [|discriminate].
    intros H. injection H as <-.
    split; [exact (@truthy_nonempty _ T) | apply trim_tidy].
  - intros raw. unfold fetchCommitsSince.
    destruct (history w _) as [output|]; cbn [fst]; [|intros []].
    rewrite filter_In, in_map_iff. intros [(x & <- & _) T].
    split; [exact (@truthy_nonempty _ T) | apply trim_tidy].
Qed.

Lemma fetch_failed (w : World) :
  history w (rangeOf w) = None ->
  fst (fetchCommitsSince (lastTagOf w) w) = [].
Proof.
  intros H. unfold fetchCommitsSince.
  assert (E : (if truthy_opt (lastTagOf w)
               then match lastTagOf w with
                    | Some t => t ++ js "..HEAD"
                    | None => []
                    end
               else js "HEAD") = rangeOf w).
  { unfold rangeOf, lastTagOf, getLastTag.
    destruct (described w) as [out|]; [|reflexivity]. cbn [fst].
    destruct (truthy (trim out)) eqn:T; [cbn; rewrite T|]; reflexivity. }
  rewrite E, H. reflexivity.
Qed.

(** X29.  A [git log] that fails does not stop the bump: the history
    counts as empty, and for a manifest with three numerals below 2^53
    an unforced [bump] returns a patch bump with no commits. *)
Theorem bump_unreadable_history (dryRun : bool) (w : World)
    (a b c : jsstring) :
  history w (rangeOf w) = None ->
  pkg w = Parsed (Some (versionText a b c)) ->
  isNumeral a = true -> isNumeral b = true -> isNumeral c = true ->
  within two53 (valueIn 10 a, valueIn 10 b, valueIn 10 c) ->
  fst (bump dryRun None w)
  = Returned {| current := versionText a b c;
                next := versionOf (bumped (js "patch")
                                     (valueIn 10 a, valueIn 10 b,
                                      valueIn 10 c));
                bumpType := js "patch";
                commits := [] |}.
Proof.
  intros Hh Hp Ha Hb Hc B. rewrite bump_steps.
  assert (C : commitsOf w = [])
    by (unfold commitsOf; rewrite (@fetch_failed w Hh); reflexivity).
  rewrite C. cbn [chosenBump].
  change (determineBumpType []) with (js "patch").
  unfold readCurrentVersion. rewrite Hp.
  assert (T : truthy (versionText a b c) = true)
    by (unfold versionText; destruct a; reflexivity).
  rewrite T. cbn [bind].
  rewrite (@calcNextVersion_numerals a b c (versionText a b c) (js "patch")
             Ha Hb Hc B (or_introl eq_refl)).
  reflexivity.
Qed.

Lemma bump_unreadable_history_witness :
  history bareWorld (rangeOf bareWorld) = None
  /\ fst (bump false None bareWorld)
     = Returned {| current := js "0.1.0"; next := js "0.1.1";
                   bumpType := js "patch"; commits := [] |}.
Proof.
  assert (H : history bareWorld (rangeOf bareWorld) = None) by reflexivity.
  assert (B : within two53
                (valueIn 10 (js "0"), valueIn 10 (js "1"), valueIn 10 (js "0")))
    by (unfold within; repeat split; vm_compute; congruence).
  exact (conj H (@bump_unreadable_history false bareWorld (js "0") (js "1")
                   (js "0") H eq_refl eq_refl eq_refl eq_refl B)).
Defined.
